(* ===== verification/_CoqProject ===== *)
-Q . S2P
Prelude.v
Schema.v
AuditLog.v
Database.v
IndexState.v
Rollback.v
Engine.v
JsonActionReader.v
Lifecycle.v
Schemas.v
Driver.v
Sync.v
