(* ===== verification/Prelude.v ===== *)
(** * A verification development for demux-js-postgres

    The repository is a Postgres back end for the demux block indexer.
    Its code under src/ is small:

    - [src/src/MassiveActionHandler.ts], class [MassiveActionHandler]:
      - the constructor picks the schema accessor ([schemaInstance]);
      - [handleWithState] opens a serializable transaction, reads
        [txid_current()], and runs the block's mutation callback with the
        transactional handle and the context [{ txid }];
      - [updateIndexState] upserts the singleton cursor row
        [_index_state] (id 1) and inserts the row
        [(block_number, txid)] into [_block_number_txid];
      - [loadIndexState] reads the cursor, or a default when it is absent;
      - [rollbackTo] reads the [_block_number_txid] rows above a block
        number in descending order and calls cyanaudit's
        [fn_undo_transaction] on each transaction identifier.
    - [src/src/testHelpers/JsonActionReader.ts], class [JsonActionReader]:
      a block source over an in-memory array ([getHeadBlockNumber],
      [getBlock]).

    The collaborators the code calls are not part of the repository: the
    demux driver ([AbstractActionHandler.handleBlock], which composes
    [handleWithState] with [updateIndexState]), MassiveJS and pg-promise
    (transactions, [findOne], [save], [insert], [where]), Postgres itself
    (serial sequences, unique keys, serializable aborts) and cyanaudit (the
    audit log and its undo).  They are modelled from the spec, as the
    narrowest semantics the code relies on, and are marked so in the map.

    ** Files and what they model

    - [Prelude] (this file): the [outcome] type of fallible results, the
      [store_set] update of a finite map and its lemmas, sorting helpers,
      the hint database [dmx] and the development's tactics.
    - [Schema]: the data of the database — keys [(schema, table, id)],
      the rows of [_index_state] and [_block_number_txid] and of user
      tables, the typing of rows per table, errors, demux's [Block], and
      the handler's configuration with the constructor's accessor choice.
    - [AuditLog]: the audit substrate as an interface (typeclass
      [AuditLog]: record a change, list the changes of a transaction,
      newest first) with two implementations, a flat event list
      (cyanaudit's event table) and a per-transaction index.
    - [Database]: the database state [DB] (store, audit log, sequences,
      transaction counter, unaudited tables), the transactional handle as
      a free monad [Prog] of the statements the code issues, its
      interpreter [run], and [withTransaction] (BEGIN / COMMIT /
      ROLLBACK at the serializable level, a serialization failure being an
      input of the model).
    - [IndexState]: [handleWithState], [updateIndexState],
      [loadIndexState] and the driver's [applyBlock] composition.
    - [Rollback]: the [where] query of [rollbackTo], cyanaudit's
      [fn_undo_transaction] and [rollbackTo] with its console trace.
    - [Engine]: runs of several blocks, the rollback theorem (rollback
      restores the exact store the target block left) proved as a
      simulation of an abstract history stack ([refines]), the handler's
      indifference to the cursor it overwrites, and the spec's round trip
      and scenario on concrete runs.
    - [JsonActionReader]: the test reader.
    - [Lifecycle]: the handler's calls as a transition relation [step]
      (a block applied or a rollback, with any outcome, in any schema),
      the invariant [Inv] of every reachable database together with the
      tagging of [_block_number_txid] rows by the transactions that
      inserted them ([bt_tagged], with [tag_writes] the writes that keep
      it), and the rollback
      suffix property for runs that mix blocks below and above the
      target, the general round trip (rollback, then blocks applied
      again), and the general form of the lost-cursor defect.
    - [Schemas]: frame lemmas for statements confined to a set of keys;
      several handlers with their own schemas in one database, when a
      rollback in one schema leaves the others alone (spec §9's open
      question) and a counterexample where it does not; and what a
      rollback leaves of a table that is not audited.
    - [Driver]: the reconciliation driver of spec §2 (modelled from the
      spec: demux is not in the repository), which reads the cursor and
      applies, rolls back then applies, or waits; with the lost cursor it
      never makes progress again.
    - [Sync]: the indexing loop of spec §2 (demux's action watcher, also
      modelled from the spec) composing the reader and the driver: it
      reads [getHeadBlockNumber] and, while the cursor is behind, fetches
      [getBlock (cursor + 1)] and gives it to [driver_step], for at most
      [fuel] rounds, reporting an exhausted fuel as [SyncOutOfFuel]; a
      schedule of serialization failures is an input, and a block
      aborted by [ErrConflict] is retried in the next round (spec §7).

    ** Theorems, by group

    - Invariant: by induction on runs of [step], every reachable
      database keeps its tables audited, the next transaction identifiers
      unused in the audit log, rows of the right shape for their tables,
      each [_block_number_txid] row at the key of its block number, every
      logged change undoable into such rows, and every
      [_block_number_txid] row, in the tables or in a logged change,
      recording the identifier under which its own insertion is logged:
      the identifier [rollbackTo] undoes is the transaction that wrote
      the row.
    - Atomicity: a failing callback leaves the store and the audit log as
      they were, and the error is returned unchanged.
    - Cursor: after a committed block the cursor reads back the block's
      values, when the cursor row with id 1 exists or the id sequence is
      fresh.
    - Rollback: [rollbackTo T] walks exactly the recorded rows above [T],
      in strictly descending block order, and undoes their transaction
      identifiers one after the other (equal to the reference
      [undo_in_order]); when every table is audited, rolling back to [T]
      after blocks [T+1 .. K] restores the store to the state after
      block [T] (a refinement of the abstract history stack), and leaves
      exactly the [_block_number_txid] rows at or below [T].  When the
      undos above a row succeed and that row's undo fails
      (RollbackFailure), [rollbackTo] returns that error with the state
      the failed undo left (the rows below it are never undone) and
      without the completion line.  A [_block_number_txid] table left out
      of auditing keeps all its rows through any rollback.
    - Reader: [getBlock] succeeds exactly on the well-numbered positions,
      and what it returns is the block at the position asked for.
    - Transaction identifiers: the identifier the callback receives tags
      exactly its transaction's changes; [rollbackTo] consumes one
      identifier per undo call and prints at most one line per row above
      the target plus the final line (bounds).
    - Progress and termination: a block whose callback returns is
      committed when its number is new and the cursor can be written,
      whatever block the cursor holds; from a fresh schema, the indexing loop over a well-numbered chain
      linked by hash terminates with the head block's cursor when it has
      one unit of fuel per block and one per retried conflict (none in
      the first round), and without conflicts runs out after exactly
      [fuel] blocks when it has less, and leaves [_block_number_txid] holding
      exactly the blocks up to the cursor.
    - Schemas: [rollbackTo] in a schema changes no other schema's row
      when the transactions it undoes wrote that schema only, which
      [applyBlock] guarantees for callbacks confined to their schema.
    - Findings: the cursor row is re-inserted with a fresh serial id after
      a rollback below the first block or after an aborted first
      transaction, so [loadIndexState] falls back to the default forever,
      and a driver following spec §2 is then stuck on block 1; the
      indexing loop that retries conflicts as spec §7 prescribes never
      completes once block 1's first transaction fails to serialize; the
      handler accepts a block that skips ahead or goes back, so spec §3's
      contiguity and monotonic cursor are the driver's duty; and an
      unaudited [_block_number_txid] survives every rollback.

    ** Bounds, fuel and what is left out

    Every operation of the repository is a structural recursion (the free
    monad [Prog] is inductive, loops run over finite lists), so no fuel
    is needed and each theorem about a result is a statement about the
    total function.  Only the indexing loop [Sync.sync] of the external
    watcher, which polls until the cursor reaches the head, takes fuel:
    one unit per round.  [Sync.sync_terminates] proves that fuel equal
    to the chain's length plus the number of conflicts in the schedule
    is enough for it to return normally, and [Sync.sync_out_of_fuel] that
    without conflicts less than the chain's length is never enough, so the fuel is a
    bound on the work and not a hidden assumption.  Integers are [Z]:
    block numbers and transaction identifiers are compared and
    incremented, never wrapped.

    Not modelled:
    - logging beyond the order of the console lines;
    - the demux library's own retry, timing and fork-detection policy
      beyond the spec's §2 decision;
    - the migration runner that creates the schema and its tables: it is
      not in this repository (the class comment points to a
      MigrationRunner), so the tables are assumed to exist, as [fresh_db]
      and [Sync.bookkeeping_empty] state;
    - connection handling. *)

From stdpp Require Export base gmap list strings sorting.

(** ** Results of fallible code *)

(** [Ok a] is a normal return, [Throw e] a JavaScript exception or a
    rejected promise. *)
Inductive outcome (E A : Type) : Type :=
| Ok (a : A)
| Throw (e : E).
Arguments Ok {E A} a.
Arguments Throw {E A} e.

Definition is_ok {E A} (o : outcome E A) : bool :=
  match o with Ok _ => true | Throw _ => false end.

(** A pair is its first component with its second: how a run whose result
    is known is written as an equation on the run. *)
Lemma pair_eq_of_fst {A B} (p : A * B) a : p.1 = a → p = (a, p.2).
Proof. destruct p; simpl; congruence. Qed.

Declare Scope dmx_scope.
Delimit Scope dmx_scope with dmx.

Create HintDb dmx discriminated.
Create Rewrite HintDb dmx_rw.

(** Decide a closed goal by evaluating its decision procedure. *)
Ltac vm_decide :=
  match goal with |- ?P => apply (bool_decide_unpack P); vm_compute; exact I end.

(** ** Point updates of finite maps *)

(** [store_set k o m] writes [o] at [k]: [Some v] stores, [None] removes. *)
Definition store_set `{Countable K} {V} (k : K) (o : option V) (m : gmap K V)
  : gmap K V :=
  partial_alter (λ _, o) k m.

Section store_set.
Context `{Countable K} {V : Type}.
Implicit Types (m : gmap K V) (k : K) (o : option V).

Lemma store_set_lookup m k k' o :
    store_set k o m !! k' = if decide (k = k') then o else m !! k'.
  Proof. apply lookup_partial_alter. Qed.

Lemma store_set_lookup_eq m k o : store_set k o m !! k = o.
  Proof. rewrite store_set_lookup. by case_decide. Qed.

Lemma store_set_lookup_ne m k k' o : k ≠ k' → store_set k o m !! k' = m !! k'.
  Proof. intros. rewrite store_set_lookup. by case_decide. Qed.

  (** Writing back the value a key had undoes a write to it. *)
Lemma store_set_restore m k o : store_set k (m !! k) (store_set k o m) = m.
  Proof.
    apply map_eq; intros k'. rewrite !store_set_lookup.
    by case_decide; subst.
  Qed.

Lemma store_set_id m k : store_set k (m !! k) m = m.
  Proof. apply partial_alter_self. Qed.
End store_set.

#[export] Hint Rewrite @store_set_lookup_eq @store_set_restore @store_set_id : dmx_rw.

(** ** Sorted lists of distinct keys *)

Section sorted_desc.
Context {A : Type} (key : A → Z).

Definition desc_by (a b : A) : Prop := (key b <= key a)%Z.

Lemma desc_by_trans : Transitive desc_by.
  Proof. intros a b c. unfold desc_by. lia. Qed.

Lemma desc_by_total : Total desc_by.
  Proof. intros a b. unfold desc_by. lia. Qed.

  (** In a list of distinct keys, the key determines the element. *)
Lemma NoDup_key_inj (l : list A) x y :
    NoDup (key <$> l) → x ∈ l → y ∈ l → key x = key y → x = y.
  Proof.
    induction l as [|z l IH]; intros Hnd Hx Hy Hk; [set_solver|].
    rewrite fmap_cons, NoDup_cons in Hnd. destruct Hnd as [Hz Hnd].
    apply elem_of_cons in Hx, Hy.
    destruct Hx as [->|Hx], Hy as [->|Hy]; [done| | |by apply IH].
    - destruct Hz. rewrite Hk. by apply list_elem_of_fmap_2.
    - destruct Hz. rewrite <-Hk. by apply list_elem_of_fmap_2.
  Qed.

  (** Two lists sorted by descending key, with distinct keys, that hold
      the same elements are equal. *)
Lemma sorted_desc_unique (l1 l2 : list A) :
    NoDup (key <$> l1) →
    StronglySorted desc_by l1 → StronglySorted desc_by l2 → l1 ≡ₚ l2 → l1 = l2.
  Proof.
    intros Hnd H1 H2 Hp. apply (StronglySorted_unique_strong desc_by); [|done..].
    intros x1 x2 Hx1 Hx2 H12 H21. unfold desc_by in *.
    apply (NoDup_key_inj l1); [done|done| |lia]. by rewrite Hp.
  Qed.
  (** Sorted by descending key with distinct keys is sorted strictly. *)
Lemma StronglySorted_desc_strict (l : list A) :
    NoDup (key <$> l) → StronglySorted desc_by l →
    StronglySorted (λ a b, (key b < key a)%Z) l.
  Proof.
    induction l as [|x l IH]; intros Hnd Hs; [constructor|].
    rewrite fmap_cons, NoDup_cons in Hnd. destruct Hnd as [Hx Hnd].
    apply StronglySorted_inv in Hs as [Hs Hall]. constructor; [by apply IH|].
    apply Forall_forall. intros y Hy. eapply Forall_forall in Hall; [|exact Hy].
    unfold desc_by in Hall. assert (key y ≠ key x); [|lia].
    intros E. apply Hx. rewrite <-E. by apply list_elem_of_fmap_2.
  Qed.
End sorted_desc.

(** The images of the entries of a list of distinct keys under a partial
    map [f] have distinct [g] when [g ∘ f] determines the key. *)
Lemma NoDup_omap_keyed {K V B} (l : list (K * V)) (f : K * V → option B) (g : B → Z) :
  NoDup l.*1 →
  (∀ k1 v1 b1 k2 v2 b2, (k1, v1) ∈ l → (k2, v2) ∈ l →
     f (k1, v1) = Some b1 → f (k2, v2) = Some b2 → g b1 = g b2 → k1 = k2) →
  NoDup (g <$> omap f l).
Proof.
  induction l as [|[k v] l IH]; intros Hnd Hkey; simpl; [constructor|].
  simpl in Hnd. rewrite NoDup_cons in Hnd. destruct Hnd as [Hk Hnd].
  assert (NoDup (g <$> omap f l)) as Hrest.
  { apply IH; [done|]. intros. eapply Hkey; eauto; by right. }
  destruct (f (k, v)) as [b|] eqn:E; simpl; [|done].
  constructor; [|done].
  intros (b' & Hg & Hb')%list_elem_of_fmap.
  apply list_elem_of_omap in Hb' as ([k' v'] & Hin & Hf).
  assert (k = k') as <-.
  { eapply (Hkey k v b k' v' b'); eauto; [by left|by right]. }
  apply Hk. apply list_elem_of_fmap. by exists (k, v').
Qed.

#[export] Instance desc_by_dec {A} (key : A → Z) : RelDecision (desc_by key).
Proof. intros a b. unfold desc_by. apply _. Defined.
#[export] Instance desc_by_transitive {A} (key : A → Z) : Transitive (desc_by key) :=
  desc_by_trans key.
#[export] Instance desc_by_total_inst {A} (key : A → Z) : Total (desc_by key) :=
  desc_by_total key.
