(* ===== verification/Schema.v ===== *)
(** * Schema: the data the handler reads and writes

    Keys of rows, the rows of the two bookkeeping tables and of user
    tables, the typing of a row by its table, the errors the database
    raises, demux's [Block], and the handler's configuration together with
    the schema choice of the constructor of [MassiveActionHandler]
    (src/src/MassiveActionHandler.ts, lines 8-22). *)

From S2P Require Import Prelude.

(** ** Keys and rows *)

(** A row is addressed by its schema, its table and its primary key.  The
    primary key of [_index_state] is its serial [id]; the one of
    [_block_number_txid] is its unique [block_number]. *)
Abbreviation Key := (string * string * Z)%type.

Definition key_schema (k : Key) : string := k.1.1.
Definition key_table (k : Key) : string := k.1.2.
Definition key_id (k : Key) : Z := k.2.

Definition index_state_table : string := "_index_state".
Definition block_txid_table : string := "_block_number_txid".

(** The columns of [_index_state] that [updateIndexState] writes
    (lines 55-61), the primary key apart. *)
Record IndexStateRow := mkIndexStateRow {
  block_number : Z;
  block_hash : string;
  is_replay : bool;
  handler_version_name : string
}.

(** A row of [_block_number_txid] (lines 64-67). *)
Record BlockTxidRow := mkBlockTxidRow {
  bt_block_number : Z;
  bt_txid : Z
}.

(** A stored row: a bookkeeping row or a row of a user table, whose
    content the core does not interpret. *)
Inductive Row :=
| RIndexState (r : IndexStateRow)
| RBlockTxid (r : BlockTxidRow)
| RData (payload : string).

#[export] Instance IndexStateRow_eq_dec : EqDecision IndexStateRow.
Proof. solve_decision. Defined.
#[export] Instance BlockTxidRow_eq_dec : EqDecision BlockTxidRow.
Proof. solve_decision. Defined.
#[export] Instance Row_eq_dec : EqDecision Row.
Proof. solve_decision. Defined.

(** The table contents of a database, keyed by [(schema, table, id)]. *)
Abbreviation Store := (gmap Key Row).

(** The column types the tables declare: a row fits a table when it has
    the table's shape; a row of another shape is rejected by Postgres. *)
Definition row_fits (table : string) (r : Row) : bool :=
  match r with
  | RIndexState _ => bool_decide (table = index_state_table)
  | RBlockTxid _ => bool_decide (table = block_txid_table)
  | RData _ =>
      bool_decide (table ≠ index_state_table ∧ table ≠ block_txid_table)
  end.

(** Every row of a store fits the table it lives in. *)
Definition store_typed (st : Store) : Prop :=
  map_Forall (λ k r, row_fits (key_table k) r = true) st.

(** ** Errors *)

(** What an operation can throw: the callback's own error, a
    serialization failure of the serializable transaction, a unique-key
    violation, and a row of the wrong shape for its table. *)
Inductive DbError :=
| ErrApplication (msg : string)
| ErrConflict
| ErrDuplicateKey (k : Key)
| ErrBadRow (k : Key).

#[export] Instance DbError_eq_dec : EqDecision DbError.
Proof. solve_decision. Defined.

(** ** Blocks (demux's [Block] and [BlockInfo]) *)

Record BlockInfo := mkBlockInfo {
  blockNumber : Z;
  blockHash : string;
  previousBlockHash : string
}.

Record Action := mkAction {
  action_type : string;
  action_payload : string
}.

Record Block := mkBlock {
  actions : list Action;
  blockInfo : BlockInfo
}.

(** The context object [{ txid }] of line 27. *)
Record Context := mkContext { txid : Z }.

(** ** The handler's configuration *)

(** The object through which tables are reached: the root Massive
    instance (schema [public]) or its property for a named schema. *)
Inductive Accessor :=
| AccRoot
| AccSchema (schema : string).

Definition acc_schema (a : Accessor) : string :=
  match a with AccRoot => "public" | AccSchema s => s end.

(** [this.dbSchema === "public" ? root : root[this.dbSchema]], the choice
    made by the constructor (lines 17-21) and again by [handleWithState]
    for the transactional handle (lines 29-33). *)
Definition select_accessor (dbSchema : string) : Accessor :=
  if String.eqb dbSchema "public" then AccRoot else AccSchema dbSchema.

Record MassiveActionHandler := mkHandler {
  dbSchema : string;
  schemaInstance : Accessor
}.

(** [new MassiveActionHandler(handlerVersions, massiveInstance, dbSchema)]:
    the handler versions go to the demux super class and are not used by
    the code modelled here. *)
Definition MassiveActionHandler_new (dbSchema : string) : MassiveActionHandler :=
  {| dbSchema := dbSchema; schemaInstance := select_accessor dbSchema |}.

Definition default_handler : MassiveActionHandler :=
  MassiveActionHandler_new "public".

(** A table reached through an accessor is the table of its schema. *)
Definition table_key (a : Accessor) (table : string) (id : Z) : Key :=
  (acc_schema a, table, id).

(** Both branches of the accessor choice reach the configured schema. *)
Lemma select_accessor_schema s : acc_schema (select_accessor s) = s.
Proof.
  unfold select_accessor. destruct (String.eqb_spec s "public"); by subst.
Qed.

#[export] Hint Rewrite select_accessor_schema : dmx_rw.
