(* ===== verification/AuditLog.v ===== *)
(** * AuditLog: the interface of the audit substrate (cyanaudit)

    The handler never reads the audit log itself: it relies on the
    substrate recording every row change under the transaction identifier
    of the transaction that made it (spec §2, §6), and on
    [fn_undo_transaction] replaying the changes of one identifier backwards
    (modelled in [Rollback]).  What the rest of the development needs of
    the log is the class [AuditLog]: an empty log, recording one change,
    and the changes of one transaction, newest first, with two laws.  Two
    implementations discharge it: a flat event list, the shape of
    cyanaudit's event table, and a map indexed by transaction identifier. *)

From S2P Require Import Prelude Schema.

(** One row change as the audit trigger records it: the transaction, the
    row, and the row before and after ([None] when absent). *)
Record Change := mkChange {
  ch_txid : Z;
  ch_key : Key;
  ch_old : option Row;
  ch_new : option Row
}.

Class AuditLog (L : Type) := {
  audit_empty : L;
  audit_record : Change → L → L;
  audit_changes : Z → L → list Change;
  audit_changes_empty t : audit_changes t audit_empty = [];
  audit_changes_record t c l :
    audit_changes t (audit_record c l) =
      if decide (ch_txid c = t) then c :: audit_changes t l
      else audit_changes t l
}.

Section AuditLogFacts.
Context `{AuditLog L}.

Lemma audit_changes_record_same c l :
    audit_changes (ch_txid c) (audit_record c l) = c :: audit_changes (ch_txid c) l.
  Proof. rewrite audit_changes_record. by case_decide. Qed.

Lemma audit_changes_record_other t c l :
    ch_txid c ≠ t → audit_changes t (audit_record c l) = audit_changes t l.
  Proof. intros. rewrite audit_changes_record. by case_decide. Qed.

  (** No change of the log carries an identifier at or above [n]: the
      identifiers the database will hand out next are unused. *)
Definition log_fresh_from (n : Z) (l : L) : Prop :=
    ∀ t, (n <= t)%Z → audit_changes t l = [].

Lemma log_fresh_empty n : log_fresh_from n audit_empty.
  Proof. intros t _. apply audit_changes_empty. Qed.

Lemma log_fresh_record n c l :
    (ch_txid c < n)%Z → log_fresh_from n l → log_fresh_from n (audit_record c l).
  Proof.
    intros Hc Hl t Ht. rewrite audit_changes_record_other by lia. by apply Hl.
  Qed.

Lemma log_fresh_mono n m l :
    (n <= m)%Z → log_fresh_from n l → log_fresh_from m l.
  Proof. intros Hnm Hl t Ht. apply Hl. lia. Qed.
End AuditLogFacts.

#[export] Hint Resolve log_fresh_empty log_fresh_record : dmx.

(** ** Implementation 1: cyanaudit's event table, newest event first *)

Module EventList.
Abbreviation log := (list Change).

Definition record (c : Change) (l : log) : log := c :: l.

  (** [select ... from tb_audit_event where txid = t order by recorded desc] *)
Definition changes (t : Z) (l : log) : list Change :=
    filter (λ c, ch_txid c = t) l.

Lemma event_list_changes_record t c l :
    changes t (record c l) =
      if decide (ch_txid c = t) then c :: changes t l else changes t l.
  Proof. unfold changes, record. rewrite filter_cons. by repeat case_decide. Qed.

#[export] Instance event_list_audit : AuditLog log := {
    audit_empty := [];
    audit_record := record;
    audit_changes := changes;
    audit_changes_empty t := eq_refl;
    audit_changes_record := event_list_changes_record
  }.
End EventList.

(** ** Implementation 2: events indexed by transaction *)

Module TxIndex.
Abbreviation log := (gmap Z (list Change)).

Definition changes (t : Z) (l : log) : list Change := default [] (l !! t).

Definition record (c : Change) (l : log) : log :=
    <[ch_txid c := c :: changes (ch_txid c) l]> l.

Lemma changes_empty t : changes t ∅ = [].
  Proof. unfold changes. by rewrite lookup_empty. Qed.

Lemma tx_index_changes_record t c l :
    changes t (record c l) =
      if decide (ch_txid c = t) then c :: changes t l else changes t l.
  Proof.
    unfold record. case_decide as Ht.
    - subst. unfold changes at 1. by rewrite lookup_insert_eq.
    - unfold changes at 1. by rewrite lookup_insert_ne.
  Qed.

#[export] Instance tx_index_audit : AuditLog log := {
    audit_empty := ∅;
    audit_record := record;
    audit_changes := changes;
    audit_changes_empty := changes_empty;
    audit_changes_record := tx_index_changes_record
  }.
End TxIndex.
