(* ===== verification/Database.v ===== *)
(** * Database: the state of Postgres and the transactional handle

    The handler talks to Postgres through MassiveJS: [findOne], [save],
    [insert], [where], [txid_current()] and [withTransaction].  This file
    models the database those calls act on:

    - [DB]: the tables ([db_store]), the audit log of the interface
      [AuditLog], the serial sequences ([db_seqs], which a rollback of a
      transaction does not reset), the next transaction identifier, and the
      tables left out of auditing;
    - [Prog]: the statements a transaction may issue, as a free monad
      (the "transactional handle" of spec §6 and §9), with stdpp's monad
      notation;
    - [run]: the interpreter of one statement sequence inside a
      transaction, every write going through the audit trigger [write];
    - [withTransaction]: BEGIN, the body, then COMMIT, or ROLLBACK when
      the body throws or when the serializable transaction fails to
      serialize (an input of the model, since it depends on other
      sessions).

    Lemmas: [run] keeps the store typed, keeps the configuration, and
    records its writes as a [chain] of changes under its own transaction
    identifier; an aborted transaction leaves store and log unchanged. *)

From S2P Require Import Prelude Schema AuditLog.

Local Open Scope Z_scope.

(** ** The statements of a transaction *)

Inductive Prog (A : Type) : Type :=
| PRet (a : A)
| PThrow (e : DbError)
| PTxid (k : Z → Prog A)
| PFind (key : Key) (k : option Row → Prog A)
| PInsert (key : Key) (r : Row) (k : Prog A)
| PUpdate (key : Key) (r : Row) (k : bool → Prog A)
| PDelete (key : Key) (k : Prog A)
| PNextval (sq : string * string) (k : Z → Prog A).
Arguments PRet {A} a.
Arguments PThrow {A} e.
Arguments PTxid {A} k.
Arguments PFind {A} key k.
Arguments PInsert {A} key r k.
Arguments PUpdate {A} key r k.
Arguments PDelete {A} key k.
Arguments PNextval {A} sq k.

Fixpoint prog_bind {A B} (f : A → Prog B) (p : Prog A) : Prog B :=
  match p with
  | PRet a => f a
  | PThrow e => PThrow e
  | PTxid k => PTxid (λ x, prog_bind f (k x))
  | PFind key k => PFind key (λ x, prog_bind f (k x))
  | PInsert key r k => PInsert key r (prog_bind f k)
  | PUpdate key r k => PUpdate key r (λ x, prog_bind f (k x))
  | PDelete key k => PDelete key (prog_bind f k)
  | PNextval sq k => PNextval sq (λ x, prog_bind f (k x))
  end.

#[export] Instance prog_ret : MRet Prog := @PRet.
#[export] Instance prog_mbind : MBind Prog := @prog_bind.

(** The calls of the code, one statement each. *)
Definition txid_current : Prog Z := PTxid PRet.
Definition find_row (key : Key) : Prog (option Row) := PFind key PRet.
Definition insert_row (key : Key) (r : Row) : Prog unit := PInsert key r (PRet tt).
Definition update_row (key : Key) (r : Row) : Prog bool := PUpdate key r PRet.
Definition delete_row (key : Key) : Prog unit := PDelete key (PRet tt).
Definition nextval (sq : string * string) : Prog Z := PNextval sq PRet.

(** ** The database state *)

Section Database.
Context `{AuditLog L}.

Record DB := mkDB {
    db_store : Store;
    db_log : L;
    db_seqs : gmap (string * string) Z;
    db_next_txid : Z;
    db_unaudited : gset (string * string)
  }.

Definition audited (s : DB) (k : Key) : bool :=
    bool_decide ((key_schema k, key_table k) ∉ db_unaudited s).

Definition fully_audited (s : DB) : Prop := db_unaudited s = ∅.

  (** A row write with its audit trigger: the change is logged under the
      writing transaction when the table is audited. *)
Definition write (t : Z) (k : Key) (o : option Row) (s : DB) : DB :=
    {| db_store := store_set k o (db_store s);
       db_log := if audited s k
                 then audit_record (mkChange t k (db_store s !! k) o) (db_log s)
                 else db_log s;
       db_seqs := db_seqs s;
       db_next_txid := db_next_txid s;
       db_unaudited := db_unaudited s |}.

  (** [nextval]: sequences start at 1 and are never rolled back. *)
Definition seq_next (sq : string * string) (s : DB) : Z :=
    default 0 (db_seqs s !! sq) + 1.

Definition set_seq (sq : string * string) (v : Z) (s : DB) : DB :=
    {| db_store := db_store s; db_log := db_log s;
       db_seqs := <[sq := v]> (db_seqs s);
       db_next_txid := db_next_txid s; db_unaudited := db_unaudited s |}.

  (** The statements of a transaction with identifier [t].  A failing
      statement stops the sequence; the caller rolls back. *)
Fixpoint run {A} (t : Z) (p : Prog A) (s : DB) : outcome DbError A * DB :=
    match p with
    | PRet a => (Ok a, s)
    | PThrow e => (Throw e, s)
    | PTxid k => run t (k t) s
    | PFind key k => run t (k (db_store s !! key)) s
    | PInsert key r k =>
        if row_fits (key_table key) r then
          match db_store s !! key with
          | Some _ => (Throw (ErrDuplicateKey key), s)
          | None => run t k (write t key (Some r) s)
          end
        else (Throw (ErrBadRow key), s)
    | PUpdate key r k =>
        if row_fits (key_table key) r then
          match db_store s !! key with
          | Some _ => run t (k true) (write t key (Some r) s)
          | None => run t (k false) s
          end
        else (Throw (ErrBadRow key), s)
    | PDelete key k =>
        match db_store s !! key with
        | Some _ => run t k (write t key None s)
        | None => run t k s
        end
    | PNextval sq k => run t (k (seq_next sq s)) (set_seq sq (seq_next sq s) s)
    end.

  (** BEGIN: the transaction takes the next identifier. *)
Definition begin_tx (s : DB) : DB :=
    {| db_store := db_store s; db_log := db_log s; db_seqs := db_seqs s;
       db_next_txid := db_next_txid s + 1; db_unaudited := db_unaudited s |}.

  (** ROLLBACK: the tables and the audit log return to their state at
      BEGIN; sequences and the identifier counter keep their progress. *)
Definition abort_tx (s0 s1 : DB) : DB :=
    {| db_store := db_store s0; db_log := db_log s0; db_seqs := db_seqs s1;
       db_next_txid := db_next_txid s1; db_unaudited := db_unaudited s1 |}.

  (** [massive.withTransaction(body, { mode: serializable })]: a body that
      throws rolls back and rethrows; a body that returns commits, unless
      the serializable transaction fails to serialize
      ([serialization_failure]), which rolls back with [ErrConflict]. *)
Definition withTransaction {A} (serialization_failure : bool) (p : Prog A)
      (s : DB) : outcome DbError A * DB :=
    match run (db_next_txid s) p (begin_tx s) with
    | (Ok a, s1) =>
        if serialization_failure then (Throw ErrConflict, abort_tx s s1)
        else (Ok a, s1)
    | (Throw e, s1) => (Throw e, abort_tx s s1)
    end.
End Database.

Arguments DB L : clear implicits.
(** ** Changes replayed by the audit log *)

(** The changes [cs] (newest first) lead from [st0] to [st1]: each change
    records the value its row had before and is applied on top. *)
Inductive chain : Store → list Change → Store → Prop :=
| chain_nil st : chain st [] st
| chain_cons st0 cs st1 c :
    chain st0 cs st1 → ch_old c = st1 !! ch_key c →
    (∀ r, ch_new c = Some r → row_fits (key_table (ch_key c)) r = true) →
    chain st0 (c :: cs) (store_set (ch_key c) (ch_new c) st1).

#[export] Hint Constructors chain : dmx.

(** The decision procedure for [chain]: replay the changes oldest first,
    checking each one's recorded old row. *)
Fixpoint replay (st0 : Store) (cs : list Change) : option Store :=
  match cs with
  | [] => Some st0
  | c :: cs' =>
      match replay st0 cs' with
      | Some st1 =>
          if bool_decide (ch_old c = st1 !! ch_key c) &&
             (match ch_new c with Some r => row_fits (key_table (ch_key c)) r | None => true end)
          then Some (store_set (ch_key c) (ch_new c) st1) else None
      | None => None
      end
  end.

(** ** Callbacks that leave the bookkeeping alone *)

Definition bookkeeping_table (table : string) : bool :=
  bool_decide (table = index_state_table ∨ table = block_txid_table).

(** A statement sequence writes no row of [_index_state] or
    [_block_number_txid] and draws from no sequence of theirs: the mutation
    callbacks of the spec (§4.1) touch domain tables only. *)
Inductive user_prog {A} : Prog A → Prop :=
| user_ret a : user_prog (PRet a)
| user_throw e : user_prog (PThrow e)
| user_txid k : (∀ z, user_prog (k z)) → user_prog (PTxid k)
| user_find key k : (∀ o, user_prog (k o)) → user_prog (PFind key k)
| user_insert key r k :
    bookkeeping_table (key_table key) = false → user_prog k → user_prog (PInsert key r k)
| user_update key r k :
    bookkeeping_table (key_table key) = false → (∀ b, user_prog (k b)) →
    user_prog (PUpdate key r k)
| user_delete key k :
    bookkeeping_table (key_table key) = false → user_prog k → user_prog (PDelete key k)
| user_nextval sq k :
    bookkeeping_table sq.2 = false → (∀ z, user_prog (k z)) → user_prog (PNextval sq k).

#[export] Hint Constructors user_prog : dmx.

(** ** A fresh schema *)

(** The database right after the migration step (out of scope): no rows,
    every table audited, sequences untouched, and the transaction counter
    at [first_txid]. *)
Definition fresh_db `{AuditLog L} (first_txid : Z) : DB L :=
  {| db_store := ∅; db_log := audit_empty; db_seqs := ∅;
     db_next_txid := first_txid; db_unaudited := ∅ |}.

(** ** Concrete inputs

    A fresh public schema, blocks, and an updater writing one row: the
    inputs at which the development's theorems are instantiated. *)

Module Fixtures.
Import EventList.

Definition db0 : DB log := fresh_db 100.

Definition blk (n : Z) (hash : string) : Block :=
  {| actions := []; blockInfo := {| blockNumber := n; blockHash := hash;
                                    previousBlockHash := "" |} |}.

(** An updater that inserts one row of the table [items]. *)
Definition insert_item (id : Z) (payload : string) (a : Accessor) (_ : Context)
    : Prog unit :=
  insert_row (table_key a "items" id) (RData payload).

(** An updater that deletes one row of the table [items]. *)
Definition delete_item (id : Z) (a : Accessor) (_ : Context) : Prog unit :=
  delete_row (table_key a "items" id).

(** An updater that writes a row and then throws. *)
Definition insert_then_fail (a : Accessor) (c : Context) : Prog unit :=
  insert_item 1 "x" a c;; PThrow (ErrApplication "boom").

Definition h : MassiveActionHandler := MassiveActionHandler_new "public".
End Fixtures.


(** ** Facts about the interpreter *)

(** Induction over a statement sequence, naming the continuation [k] (or
    [p]) and its induction hypothesis [IH]. *)
Ltac prog_induction p :=
  induction p as [a|e|k IH|key k IH|key r p IH|key r k IH|key p IH|sq k IH].

Section RunFacts.
Context `{AuditLog L}.
Implicit Types (s : DB L).

  (** The log [l1] is [l0] with the changes [cs] recorded under [t]. *)
Definition logged_after (t : Z) (cs : list Change) (l0 l1 : L) : Prop :=
    ∀ t', audit_changes t' l1 =
            (if decide (t' = t) then cs else []) ++ audit_changes t' l0.

Lemma logged_after_refl t l : logged_after t [] l l.
  Proof. intros t'. by case_decide. Qed.

Lemma run_bind {A B} t (p : Prog A) (f : A → Prog B) s :
    run t (p ≫= f) s =
      match run t p s with
      | (Ok a, s') => run t (f a) s'
      | (Throw e, s') => (Throw e, s')
      end.
  Proof.
    revert s. change (p ≫= f) with (prog_bind f p).
    prog_induction p; intros s; simpl; rewrite ?IH; by repeat case_match.
  Qed.

  (** The statements of a transaction change neither the identifier
      counter nor the audit configuration. *)
Lemma run_frame {A} t (p : Prog A) s :
    db_next_txid (run t p s).2 = db_next_txid s ∧
    db_unaudited (run t p s).2 = db_unaudited s.
  Proof.
    revert s. prog_induction p; intros s; simpl; auto;
      repeat case_match; simpl; auto; by edestruct IH as [-> ->].
  Qed.

Lemma store_typed_set st k o :
    (∀ r, o = Some r → row_fits (key_table k) r = true) →
    store_typed st → store_typed (store_set k o st).
  Proof.
    intros Ho Hst k' r. rewrite store_set_lookup. case_decide; subst; eauto.
  Qed.

  (** Type invariant: every statement keeps the rows of the right shape
      for their tables. *)
Lemma run_typed {A} t (p : Prog A) s :
    store_typed (db_store s) → store_typed (db_store (run t p s).2).
  Proof.
    revert s. prog_induction p; intros s Hs; simpl; auto;
      repeat case_match; simpl; auto; apply IH; simpl; auto;
      apply store_typed_set; naive_solver.
  Qed.

  (** One write extends the chain of changes by one. *)
Lemma write_chain t k o s st0 cs :
    chain st0 cs (db_store s) →
    (∀ r, o = Some r → row_fits (key_table k) r = true) →
    chain st0 (mkChange t k (db_store s !! k) o :: cs) (db_store (write t k o s)).
  Proof. intros. by constructor. Qed.

  (** In a fully audited database the write's change is logged. *)
Lemma write_logged t k o s l0 cs :
    fully_audited s → logged_after t cs l0 (db_log s) →
    logged_after t (mkChange t k (db_store s !! k) o :: cs) l0 (db_log (write t k o s)).
  Proof.
    intros Ha Hl. unfold write, audited; simpl.
    rewrite Ha, bool_decide_true by set_solver.
    intros t'. rewrite audit_changes_record, Hl; simpl.
    by repeat case_decide; subst.
  Qed.

  (** Every write of a fully audited transaction is logged under its
      identifier, and the logged changes replay its writes. *)
Lemma run_chain {A} t (p : Prog A) s st0 l0 cs :
    fully_audited s → chain st0 cs (db_store s) → logged_after t cs l0 (db_log s) →
    ∃ cs', chain st0 cs' (db_store (run t p s).2) ∧
           logged_after t cs' l0 (db_log (run t p s).2).
  Proof.
    revert s cs. prog_induction p; intros s cs Ha Hc Hl; simpl; eauto;
      repeat case_match; simpl; eauto;
      (eapply IH; [exact Ha|apply write_chain|apply write_logged]; naive_solver).
  Qed.

Lemma replay_chain st0 cs st1 : replay st0 cs = Some st1 → chain st0 cs st1.
Proof.
  revert st1. induction cs as [|c cs IH]; intros st1; simpl; [intros [= ->]; constructor|].
  destruct (replay st0 cs) as [st|] eqn:E; [|done].
  destruct (bool_decide (ch_old c = st !! ch_key c)) eqn:Ho; [|done]. simpl.
  apply bool_decide_eq_true in Ho.
  destruct (ch_new c) as [r|] eqn:En.
  - destruct (row_fits _ r) eqn:Hf; [|done]. intros [= <-]. rewrite <-En.
    constructor; [by apply IH|done|]. intros r'. rewrite En. by intros [= <-].
  - intros [= <-]. rewrite <-En. constructor; [by apply IH|done|]. by rewrite En.
Qed.

(** A chain of well-typed writes from a typed store ends typed. *)
Lemma chain_typed st0 cs st1 :
    store_typed st0 → chain st0 cs st1 → store_typed st1.
  Proof. induction 2; auto using store_typed_set. Qed.

  (** Changes recorded by the transaction [t] are the only ones [run t]
      adds to the log. *)
Lemma run_changes_other {A} t t' (p : Prog A) s :
    t' ≠ t → audit_changes t' (db_log (run t p s).2) = audit_changes t' (db_log s).
  Proof.
    intros Ht. revert s. prog_induction p; intros s; simpl; auto;
      repeat case_match; simpl; rewrite ?IH; simpl; auto;
      unfold write; simpl; case_match; auto;
      by rewrite audit_changes_record_other.
  Qed.

Lemma write_fresh n t k o s :
    t < n → log_fresh_from n (db_log s) → log_fresh_from n (db_log (write t k o s)).
  Proof. intros. unfold write; simpl. case_match; auto with dmx. Qed.

Lemma run_fresh {A} n t (p : Prog A) s :
    t < n → log_fresh_from n (db_log s) → log_fresh_from n (db_log (run t p s).2).
  Proof.
    revert s. prog_induction p; intros s Ht Hs; simpl; auto;
      repeat case_match; simpl; auto; apply IH; auto using write_fresh.
  Qed.

  (** Sequences only move forward. *)
Lemma run_seq_mono {A} t (p : Prog A) s q : seq_next q s <= seq_next q (run t p s).2.
  Proof.
    revert s. prog_induction p; intros s; simpl; try lia;
      repeat case_match; simpl; try lia; (eapply Z.le_trans; [|apply IH]);
      unfold seq_next, set_seq, write; simpl; try lia.
    rewrite lookup_insert. case_decide; subst; simpl; lia.
  Qed.
End RunFacts.

#[export] Hint Resolve logged_after_refl store_typed_set : dmx.

(** ** Facts about transactions *)

Section TransactionFacts.
Context `{AuditLog L}.
Implicit Types (s : DB L).

  (** A transaction that throws leaves the tables and the audit log as
      they were at BEGIN, and consumes one transaction identifier. *)
Lemma withTransaction_throw {A} b (p : Prog A) s e s' :
    withTransaction b p s = (Throw e, s') →
    db_store s' = db_store s ∧ db_log s' = db_log s ∧
    db_next_txid s' = db_next_txid s + 1 ∧ db_unaudited s' = db_unaudited s.
  Proof.
    unfold withTransaction.
    pose proof (run_frame (db_next_txid s) p (begin_tx s)) as [Hn Hu].
    destruct (run _ p (begin_tx s)) as [[a|e'] s1] eqn:E; simpl in *;
      [destruct b|]; intros; simplify_eq/=; auto.
  Qed.

Lemma withTransaction_ok {A} b (p : Prog A) s a s' :
    withTransaction b p s = (Ok a, s') →
    b = false ∧ run (db_next_txid s) p (begin_tx s) = (Ok a, s').
  Proof.
    unfold withTransaction.
    destruct (run _ p (begin_tx s)) as [[a'|e'] s1]; [destruct b|]; naive_solver.
  Qed.

  (** A body that would commit aborts with [ErrConflict] under a
      serialization failure. *)
Lemma withTransaction_conflict {A} (p : Prog A) s a s' :
    withTransaction false p s = (Ok a, s') →
    withTransaction true p s = (Throw ErrConflict, abort_tx s s').
  Proof. unfold withTransaction. destruct (run _ p (begin_tx s)) as [[]?]; naive_solver. Qed.

Lemma withTransaction_typed {A} b (p : Prog A) s :
    store_typed (db_store s) → store_typed (db_store (withTransaction b p s).2).
  Proof.
    intros Hs. unfold withTransaction.
    pose proof (run_typed (db_next_txid s) p (begin_tx s) Hs) as Hr.
    destruct (run _ p (begin_tx s)) as [[a|e] s1]; [destruct b|]; simpl in *; auto.
  Qed.

  (** A committed transaction's changes, as the audit log lists them under
      its identifier, lead from the store at BEGIN to the store at COMMIT;
      the changes of every other identifier are untouched, and the
      identifiers from the new counter on are still unused. *)
Lemma withTransaction_commit {A} (p : Prog A) s a s' :
    fully_audited s → log_fresh_from (db_next_txid s) (db_log s) →
    withTransaction false p s = (Ok a, s') →
    chain (db_store s) (audit_changes (db_next_txid s) (db_log s')) (db_store s') ∧
    (∀ t', t' ≠ db_next_txid s → audit_changes t' (db_log s') = audit_changes t' (db_log s)) ∧
    db_next_txid s' = db_next_txid s + 1 ∧ db_unaudited s' = db_unaudited s ∧
    log_fresh_from (db_next_txid s') (db_log s').
  Proof.
    intros Ha Hf [_ Hrun]%withTransaction_ok.
    pose proof (run_frame (db_next_txid s) p (begin_tx s)) as [Hn Hu].
    destruct (run_chain (db_next_txid s) p (begin_tx s) (db_store s) (db_log s) [])
      as (cs & Hc & Hl); [done|constructor|apply logged_after_refl|].
    rewrite Hrun in Hn, Hu, Hc, Hl; simpl in *.
    assert (audit_changes (db_next_txid s) (db_log s') = cs) as Hcs.
    { rewrite Hl, decide_True, Hf by lia. apply app_nil_r. }
    split_and!; [by rewrite Hcs| |lia|done|].
    - intros t' Ht'. by rewrite Hl, decide_False.
    - intros t' Ht'. rewrite Hl, decide_False, Hf by lia. done.
  Qed.

  (** ... also across a transaction, whether it commits or rolls back. *)
Lemma withTransaction_seq_mono {A} b (p : Prog A) s sq :
    seq_next sq s <= seq_next sq (withTransaction b p s).2.
  Proof.
    pose proof (run_seq_mono (db_next_txid s) p (begin_tx s) sq) as Hm.
    unfold withTransaction. destruct (run _ p (begin_tx s)) as [[a|e] s1];
      [destruct b|]; exact Hm.
  Qed.
End TransactionFacts.

Section UserProgFacts.
Context `{AuditLog L}.
Implicit Types (s : DB L).

Ltac user_prog_induction Hp :=
    induction Hp as [a|e|k _ IH|key k _ IH|key r k Hb _ IH|key r k Hb _ IH
                    |key k Hb _ IH|sq k Hb _ IH].

  (** A user callback leaves every bookkeeping row as it was. *)
Lemma run_user_prog_store {A} t (p : Prog A) s k' :
    user_prog p → bookkeeping_table (key_table k') = true →
    db_store (run t p s).2 !! k' = db_store s !! k'.
  Proof.
    intros Hp Hk'. revert s. user_prog_induction Hp; intros s; simpl; auto;
      repeat case_match; simpl; rewrite ?IH; simpl; auto;
      apply store_set_lookup_ne; intros ->; congruence.
  Qed.

  (** ... and every sequence of a bookkeeping table. *)
Lemma run_user_prog_seqs {A} t (p : Prog A) s sq' :
    user_prog p → bookkeeping_table sq'.2 = true →
    db_seqs (run t p s).2 !! sq' = db_seqs s !! sq'.
  Proof.
    intros Hp Hsq. revert s. user_prog_induction Hp; intros s; simpl; auto;
      repeat case_match; simpl; rewrite ?IH; simpl; auto.
    apply lookup_insert_ne. intros ->. congruence.
  Qed.
Lemma user_prog_result_store {A} t (p : Prog A) s o s1 k' :
    user_prog p → run t p s = (o, s1) → bookkeeping_table (key_table k') = true →
    db_store s1 !! k' = db_store s !! k'.
  Proof.
    intros Hp Hrun Hk. pose proof (run_user_prog_store t p s k' Hp Hk) as E.
    by rewrite Hrun in E.
  Qed.

Lemma user_prog_result_seqs {A} t (p : Prog A) s o s1 sq' :
    user_prog p → run t p s = (o, s1) → bookkeeping_table sq'.2 = true →
    db_seqs s1 !! sq' = db_seqs s !! sq'.
  Proof.
    intros Hp Hrun Hk. pose proof (run_user_prog_seqs t p s sq' Hp Hk) as E.
    by rewrite Hrun in E.
  Qed.
End UserProgFacts.


(** ** The transaction lemmas at concrete inputs *)

Import EventList Fixtures.

Lemma run_typed_witness :
  store_typed (db_store (run 100 (insert_item 1 "x" AccRoot {| txid := 100 |}) db0).2).
Proof. apply run_typed. apply map_Forall_empty. Defined.

Lemma withTransaction_throw_witness :
  let s' := (withTransaction false (insert_then_fail AccRoot {| txid := 100 |}) db0).2 in
  db_store s' = db_store db0 ∧ db_log s' = db_log db0 ∧
  db_next_txid s' = db_next_txid db0 + 1 ∧ db_unaudited s' = db_unaudited db0.
Proof.
  apply (withTransaction_throw false (insert_then_fail AccRoot {| txid := 100 |}) db0
           (ErrApplication "boom")).
  reflexivity.
Defined.

Lemma withTransaction_commit_witness :
  let s' := (withTransaction false (insert_item 1 "x" AccRoot {| txid := 100 |}) db0).2 in
  chain (db_store db0) (audit_changes (db_next_txid db0) (db_log s')) (db_store s') ∧
  db_next_txid s' = db_next_txid db0 + 1 ∧
  log_fresh_from (db_next_txid s') (db_log s').
Proof.
  destruct (withTransaction_commit (insert_item 1 "x" AccRoot {| txid := 100 |}) db0 tt
              (withTransaction false (insert_item 1 "x" AccRoot {| txid := 100 |}) db0).2)
    as (Hc & _ & Hn & _ & Hf).
  - reflexivity.
  - intros t _. reflexivity.
  - reflexivity.
  - split_and!; [exact Hc|exact Hn|exact Hf].
Defined.
