(* ===== verification/IndexState.v ===== *)
(** * IndexState: applying one block and reading the cursor back

    [handleWithState] (lines 24-44), [updateIndexState] (lines 46-68) and
    [loadIndexState] (lines 70-84) of src/src/MassiveActionHandler.ts, and
    [applyBlock], the composition the demux driver makes of them (spec
    §4.1): the block's callback runs first, then [updateIndexState], in
    the transaction [handleWithState] opens.

    Theorems: atomicity of [applyBlock] (a thrown error leaves tables and
    audit log unchanged and is returned as thrown), the identifier the
    callback receives, the cursor read-back and the [_block_number_txid]
    row of a committed block, and the duplicate-key error of a recorded
    block. *)

From S2P Require Import Prelude Schema AuditLog Database.

Local Open Scope Z_scope.

(** ** The value returned by [loadIndexState] *)

Module MigrationIndexState.
Record t := mk {
    blockNumber : Z;
    blockHash : string;
    handlerVersionName : string;
    isReplay : bool
  }.
End MigrationIndexState.

(** The default of lines 71-76. *)
Definition defaultIndexState : IndexStateRow :=
  {| block_number := 0; block_hash := ""; handler_version_name := "v1";
     is_replay := false |}.

(** ** MassiveJS table calls *)

(** [table.findOne({ id })]. *)
Definition findOne (a : Accessor) (table : string) (id : Z) : Prog (option Row) :=
  find_row (table_key a table id).

(** The object [toSave] of lines 55-61: the spread of [fromDb] only
    contributes its primary key, every other column is overwritten. *)
Record SaveObj := mkSaveObj {
  save_id : option Z;
  save_row : IndexStateRow
}.

(** [table.save(obj)]: an object with its primary key is an UPDATE of that
    row, one without is an INSERT whose [id] comes from the table's serial
    sequence. *)
Definition save (a : Accessor) (table : string) (o : SaveObj) : Prog unit :=
  match save_id o with
  | Some id => _ ← update_row (table_key a table id) (RIndexState (save_row o)); mret tt
  | None =>
      id ← nextval (acc_schema a, table);
      insert_row (table_key a table id) (RIndexState (save_row o))
  end.

(** ** The handler's methods *)

Section Handler.
Context `{AuditLog L}.

  (** Lines 24-44: a serializable transaction that reads its identifier
      first, then calls [handle] with the transactional handle of the
      configured schema and the context [{ txid }]; the [catch] rethrows,
      so an error rolls the transaction back and reaches the caller. *)
Definition handleWithState (h : MassiveActionHandler)
      (handle : Accessor → Context → Prog unit) (serialization_failure : bool)
      (s : DB L) : outcome DbError unit * DB L :=
    withTransaction serialization_failure
      (txid ← txid_current;
       let context := {| txid := txid |} in
       let db := select_accessor (dbSchema h) in
       handle db context) s.
End Handler.

(** Lines 46-68. *)
Definition updateIndexState (state : Accessor) (block : Block) (isReplay : bool)
    (handlerVersionName : string) (context : Context) : Prog unit :=
  let bi := blockInfo block in
  fromDb ← findOne state index_state_table 1;
  let toSave := {| save_id := (λ _, 1) <$> fromDb;
                   save_row := {| block_number := blockNumber bi;
                                  block_hash := blockHash bi;
                                  is_replay := isReplay;
                                  handler_version_name := handlerVersionName |} |} in
  save state index_state_table toSave;;
  insert_row (table_key state block_txid_table (blockNumber bi))
    (RBlockTxid {| bt_block_number := blockNumber bi; bt_txid := txid context |}).

(** Lines 70-84: the cursor row with id 1 of the configured schema, or the
    default. *)
Definition loadIndexState `{AuditLog L} (h : MassiveActionHandler) (s : DB L)
    : MigrationIndexState.t :=
  let indexState :=
    match db_store s !! table_key (schemaInstance h) index_state_table 1 with
    | Some (RIndexState r) => r
    | _ => defaultIndexState
    end in
  {| MigrationIndexState.blockNumber := block_number indexState;
     MigrationIndexState.blockHash := block_hash indexState;
     MigrationIndexState.handlerVersionName := handler_version_name indexState;
     MigrationIndexState.isReplay := is_replay indexState |}.

(** The driver's use of the two (spec §4.1; demux's [handleBlock] passes a
    [handle] that runs the updaters and then [updateIndexState]). *)
Definition applyBlock `{AuditLog L} (h : MassiveActionHandler) (block : Block)
    (isReplay : bool) (handlerVersionName : string)
    (mutate : Accessor → Context → Prog unit) (serialization_failure : bool)
    (s : DB L) : outcome DbError unit * DB L :=
  handleWithState h
    (λ state context,
       mutate state context;;
       updateIndexState state block isReplay handlerVersionName context)
    serialization_failure s.

(** ** Facts *)

(** Spec §4.3: without a cursor row, [loadIndexState] returns the bootstrap
    cursor [{ 0, "", "v1", false }] and raises nothing. *)
Lemma loadIndexState_absent `{AuditLog L} h (s : DB L) :
  db_store s !! table_key (schemaInstance h) index_state_table 1 = None →
  loadIndexState h s =
    {| MigrationIndexState.blockNumber := 0; MigrationIndexState.blockHash := "";
       MigrationIndexState.handlerVersionName := "v1";
       MigrationIndexState.isReplay := false |}.
Proof. intros E. unfold loadIndexState. by rewrite E. Qed.

(** The cursor row written for a block, and its [_block_number_txid] row. *)
Definition cursor_row (b : Block) (isReplay : bool) (hv : string) : Row :=
  RIndexState {| block_number := blockNumber (blockInfo b);
                 block_hash := blockHash (blockInfo b);
                 is_replay := isReplay; handler_version_name := hv |}.

Definition txid_row (b : Block) (ctx : Context) : Row :=
  RBlockTxid {| bt_block_number := blockNumber (blockInfo b); bt_txid := txid ctx |}.

(** The bookkeeping tables are distinct tables. *)
Lemma table_key_bookkeeping_ne a a' id id' :
  table_key a index_state_table id ≠ table_key a' block_txid_table id'.
Proof. by intros [=]. Qed.

#[export] Hint Resolve table_key_bookkeeping_ne : dmx.

Section IndexStateFacts.
Context `{AuditLog L}.
Implicit Types (s : DB L).

  (** The transaction of [handleWithState] runs [handle] with the
      configured schema and its own identifier. *)
Lemma handleWithState_unfold h handle sf s :
    handleWithState h handle sf s =
      withTransaction sf (handle (select_accessor (dbSchema h)) {| txid := db_next_txid s |}) s.
  Proof. reflexivity. Qed.

  (** C5: Spec §4.1: the identifier the callback receives in its context is the
      one that tags exactly this transaction's changes.  After a commit,
      the changes logged under it lead from the tables before to the
      tables after, no other identifier's changes moved, and the next
      transaction gets a new identifier. *)
Lemma handleWithState_tags h handle s s' :
    fully_audited s → log_fresh_from (db_next_txid s) (db_log s) →
    handleWithState h handle false s = (Ok tt, s') →
    ∃ t, run t (handle (select_accessor (dbSchema h)) {| txid := t |}) (begin_tx s) = (Ok tt, s') ∧
         chain (db_store s) (audit_changes t (db_log s')) (db_store s') ∧
         (∀ t', t' ≠ t → audit_changes t' (db_log s') = audit_changes t' (db_log s)) ∧
         t < db_next_txid s'.
Proof.
    intros Ha Hf Hrun. rewrite handleWithState_unfold in Hrun.
    pose proof Hrun as [_ Hok]%withTransaction_ok.
    apply withTransaction_commit in Hrun as (Hc & Hother & Hn & _); [|done|done].
    exists (db_next_txid s). split_and!; auto with lia.
Qed.

  (** [updateIndexState] on success: the cursor row is written at id 1
      when that row exists, and otherwise inserted at the next value of the
      table's serial sequence; the block's row is inserted and was absent. *)
Lemma run_updateIndexState_ok t a b r hv ctx s s' :
    run t (updateIndexState a b r hv ctx) s = (Ok tt, s') →
    ∃ id,
      db_store s' =
        store_set (table_key a block_txid_table (blockNumber (blockInfo b)))
          (Some (txid_row b ctx))
          (store_set (table_key a index_state_table id) (Some (cursor_row b r hv))
             (db_store s)) ∧
      db_store s !! table_key a block_txid_table (blockNumber (blockInfo b)) = None ∧
      (is_Some (db_store s !! table_key a index_state_table 1) → id = 1) ∧
      (db_store s !! table_key a index_state_table 1 = None →
       id = seq_next (acc_schema a, index_state_table) s).
  Proof.
    unfold updateIndexState, findOne, find_row, save. simpl.
    destruct (db_store s !! table_key a index_state_table 1) as [r1|] eqn:E1;
      simpl; intros Hrun.
    - rewrite E1 in Hrun. simpl in Hrun.
      rewrite store_set_lookup_ne in Hrun by auto with dmx.
      destruct (db_store s !! table_key a block_txid_table _) eqn:E2; simplify_eq/=.
      exists 1. split_and!; [done|done|done|intros [=]].
    - destruct (db_store s !! table_key a index_state_table _) eqn:E2 in Hrun;
        simplify_eq/=.
      rewrite store_set_lookup_ne in Hrun by auto with dmx.
      destruct (db_store s !! table_key a block_txid_table _) eqn:E3; simplify_eq/=.
      eexists. split_and!; [reflexivity|done| |done]. by intros [? ?].
  Qed.

  (** C22: [updateIndexState] throws a duplicate-key error when the block's
      number already has a row, unless the cursor insert fails first. *)
Lemma run_updateIndexState_duplicate t a b r hv ctx s row :
    db_store s !! table_key a block_txid_table (blockNumber (blockInfo b)) = Some row →
    ∃ k s', run t (updateIndexState a b r hv ctx) s = (Throw (ErrDuplicateKey k), s').
  Proof.
    intros Hbt. unfold updateIndexState, findOne, find_row, save. simpl.
    destruct (db_store s !! table_key a index_state_table 1) eqn:E1; simpl.
    - rewrite E1, store_set_lookup_ne, Hbt by auto with dmx. eauto.
    - case_match; simpl; [by eauto|].
      rewrite store_set_lookup_ne by auto with dmx. simpl. rewrite Hbt. eauto.
  Qed.

  (** Without a cursor row, a committed [updateIndexState] has drawn one
      value from the [_index_state] sequence. *)
Lemma run_updateIndexState_seq t a b r hv ctx s s' :
    run t (updateIndexState a b r hv ctx) s = (Ok tt, s') →
    db_store s !! table_key a index_state_table 1 = None →
    seq_next (acc_schema a, index_state_table) s' = seq_next (acc_schema a, index_state_table) s + 1.
  Proof.
    unfold updateIndexState, findOne, find_row, save. simpl. intros Hrun E1. rewrite E1 in Hrun.
    simpl in Hrun. destruct (db_store s !! table_key a index_state_table _) eqn:E2 in Hrun;
      simplify_eq/=.
    rewrite store_set_lookup_ne in Hrun by auto with dmx.
    destruct (db_store s !! table_key a block_txid_table _) eqn:E3; simplify_eq/=.
    unfold seq_next. simpl. rewrite lookup_insert_eq. simpl. lia.
  Qed.

  (** [updateIndexState] commits when the block's number has no row yet and
      the cursor can be written: row 1 exists, or the id the sequence will
      hand out is free. *)
Lemma run_updateIndexState_progress t a b r hv ctx s :
    db_store s !! table_key a block_txid_table (blockNumber (blockInfo b)) = None →
    is_Some (db_store s !! table_key a index_state_table 1) ∨
      db_store s !! table_key a index_state_table (seq_next (acc_schema a, index_state_table) s) = None →
    ∃ s', run t (updateIndexState a b r hv ctx) s = (Ok tt, s').
Proof.
    intros Hbt Hslot. unfold updateIndexState, findOne, find_row, save. simpl.
    destruct (db_store s !! table_key a index_state_table 1) eqn:E1; simpl.
    - rewrite E1, store_set_lookup_ne, Hbt by auto with dmx. simpl. eauto.
    - destruct Hslot as [[? ?]|Hfree]; [done|]. rewrite Hfree. simpl.
      rewrite store_set_lookup_ne by auto with dmx. simpl. rewrite Hbt. eauto.
Qed.
End IndexStateFacts.

Section ApplyBlockFacts.
Context `{AuditLog L}.
Implicit Types (s : DB L).

  (** A committed block: its callback and then [updateIndexState] both
      returned, in the transaction with the next identifier. *)
Lemma applyBlock_ok h b r hv m sf s s' :
    applyBlock h b r hv m sf s = (Ok tt, s') →
    sf = false ∧
    ∃ s1, run (db_next_txid s) (m (select_accessor (dbSchema h)) {| txid := db_next_txid s |})
              (begin_tx s) = (Ok tt, s1) ∧
          run (db_next_txid s)
              (updateIndexState (select_accessor (dbSchema h)) b r hv {| txid := db_next_txid s |})
              s1 = (Ok tt, s').
  Proof.
    unfold applyBlock. rewrite handleWithState_unfold.
    intros [-> Hrun]%withTransaction_ok. split; [done|].
    rewrite run_bind in Hrun. destruct (run _ _ (begin_tx s)) as [[[]|e] s1]; simplify_eq; eauto.
  Qed.

  (** Every failure of [applyBlock] leaves the tables and the audit log as
      they were; only the identifier counter (and possibly sequences)
      moved. *)
Lemma applyBlock_throw h b r hv m sf s e s' :
    applyBlock h b r hv m sf s = (Throw e, s') →
    db_store s' = db_store s ∧ db_log s' = db_log s.
  Proof. intros Hthrow%withTransaction_throw. naive_solver. Qed.

  (** C3: Atomicity: when the block's callback throws [e], [applyBlock] throws
      the same [e] and none of the callback's writes, nor any bookkeeping
      write, is visible. *)
Lemma applyBlock_callback_throws h b r hv m sf s e s1 :
    run (db_next_txid s) (m (select_accessor (dbSchema h)) {| txid := db_next_txid s |})
        (begin_tx s) = (Throw e, s1) →
    ∃ s', applyBlock h b r hv m sf s = (Throw e, s') ∧
          db_store s' = db_store s ∧ db_log s' = db_log s.
  Proof.
    intros Hm. unfold applyBlock, handleWithState, withTransaction.
    rewrite run_bind. simpl. rewrite run_bind, Hm. by eexists.
  Qed.

  (** The typing invariant holds across [applyBlock]. *)
Lemma applyBlock_typed h b r hv m sf s :
    store_typed (db_store s) → store_typed (db_store (applyBlock h b r hv m sf s).2).
  Proof. apply withTransaction_typed. Qed.

  (** The cursor row a committed block leaves: when the callback leaves
      the bookkeeping alone and the cursor row with id 1 exists, or the id
      sequence will hand out 1, row 1 of [_index_state] holds the block's
      values. *)
Lemma applyBlock_cursor_row sch b r hv m s s' :
    (∀ a c, user_prog (m a c)) →
    is_Some (db_store s !! (sch, index_state_table, 1)) ∨
      seq_next (sch, index_state_table) s = 1 →
    applyBlock (MassiveActionHandler_new sch) b r hv m false s = (Ok tt, s') →
    db_store s' !! (sch, index_state_table, 1) = Some (cursor_row b r hv).
  Proof.
    intros Hm Hslot (_ & s1 & Hm1 & Hu)%applyBlock_ok.
    apply run_updateIndexState_ok in Hu as (id & Hst & _ & Hid1 & Hidseq).
    unfold table_key in *; simpl in *; rewrite !select_accessor_schema in *.
    assert (id = 1) as ->.
    { destruct (db_store s1 !! (sch, index_state_table, 1)) eqn:E.
      - by apply Hid1.
      - rewrite (user_prog_result_store _ _ _ _ _ _ (Hm _ _) Hm1) in E by done.
        simpl in E. rewrite E in Hslot. destruct Hslot as [[? ?]|Hseq]; [done|].
        rewrite Hidseq by done. unfold seq_next in *.
        by rewrite (user_prog_result_seqs _ _ _ _ _ _ (Hm _ _) Hm1). }
    rewrite Hst. by rewrite store_set_lookup_ne, store_set_lookup_eq by (intros [=]).
  Qed.

  (** C4: The cursor of a committed block: when the callback leaves the
      bookkeeping alone and the cursor row with id 1 exists, or the id
      sequence will hand out 1, [loadIndexState] returns the block's
      number and hash and the flags passed in. *)
Lemma applyBlock_cursor sch b r hv m s s' :
    (∀ a c, user_prog (m a c)) →
    is_Some (db_store s !! (sch, index_state_table, 1)) ∨
      seq_next (sch, index_state_table) s = 1 →
    applyBlock (MassiveActionHandler_new sch) b r hv m false s = (Ok tt, s') →
    loadIndexState (MassiveActionHandler_new sch) s' =
      {| MigrationIndexState.blockNumber := blockNumber (blockInfo b);
         MigrationIndexState.blockHash := blockHash (blockInfo b);
         MigrationIndexState.handlerVersionName := hv;
         MigrationIndexState.isReplay := r |}.
  Proof.
    intros Hm Hslot Happ. unfold loadIndexState, table_key; simpl.
    by rewrite select_accessor_schema, (applyBlock_cursor_row sch b r hv m s s' Hm Hslot Happ).
  Qed.

  (** C21: A committed block records its number with the identifier of its
      transaction, and that number had no row before. *)
Lemma applyBlock_records_txid sch b r hv m s s' :
    (∀ a c, user_prog (m a c)) →
    applyBlock (MassiveActionHandler_new sch) b r hv m false s = (Ok tt, s') →
    db_store s !! (sch, block_txid_table, blockNumber (blockInfo b)) = None ∧
    db_store s' !! (sch, block_txid_table, blockNumber (blockInfo b)) =
      Some (RBlockTxid {| bt_block_number := blockNumber (blockInfo b);
                          bt_txid := db_next_txid s |}).
  Proof.
    intros Hm (_ & s1 & Hm1 & Hu)%applyBlock_ok.
    apply run_updateIndexState_ok in Hu as (id & Hst & Hnone & _).
    unfold table_key in *; simpl in *; rewrite !select_accessor_schema in *.
    rewrite Hst, store_set_lookup_eq. split; [|done].
    by rewrite (user_prog_result_store _ _ _ _ _ _ (Hm _ _) Hm1) in Hnone.
  Qed.
  (** A committed block changes exactly one row of [_block_number_txid]:
      the one of its number. *)
Lemma applyBlock_block_txid sch b r hv m s s' k :
    (∀ a c, user_prog (m a c)) →
    applyBlock (MassiveActionHandler_new sch) b r hv m false s = (Ok tt, s') →
    key_table k = block_txid_table →
    db_store s' !! k =
      if decide (k = (sch, block_txid_table, blockNumber (blockInfo b)))
      then Some (RBlockTxid {| bt_block_number := blockNumber (blockInfo b);
                               bt_txid := db_next_txid s |})
      else db_store s !! k.
  Proof.
    intros Hm (_ & s1 & Hm1 & Hu)%applyBlock_ok Hk.
    apply run_updateIndexState_ok in Hu as (id & Hst & _).
    unfold table_key in *; simpl in *; rewrite !select_accessor_schema in *.
    rewrite Hst, store_set_lookup. case_decide as E.
    { subst k. by rewrite decide_True. }
    rewrite decide_False by congruence.
    rewrite store_set_lookup_ne by (intros <-; unfold key_table in Hk; simpl in Hk; done).
    apply (user_prog_result_store _ _ _ _ _ _ (Hm _ _) Hm1).
    unfold bookkeeping_table. rewrite Hk. apply bool_decide_true. by right.
  Qed.


  (** Progress: a block whose callback returns normally is committed, in
      the absence of a serialization failure, when its number has no
      [_block_number_txid] row yet and the cursor can be written (row 1
      of [_index_state] exists, or the id the sequence hands out next is
      free).  Duplicate keys are the only other way the handler's own
      statements fail. *)
Lemma applyBlock_progress sch b r hv m s s1 :
    (∀ a c, user_prog (m a c)) →
    run (db_next_txid s) (m (select_accessor sch) {| txid := db_next_txid s |}) (begin_tx s) =
      (Ok tt, s1) →
    db_store s !! (sch, block_txid_table, blockNumber (blockInfo b)) = None →
    is_Some (db_store s !! (sch, index_state_table, 1)) ∨
      db_store s !! (sch, index_state_table, seq_next (sch, index_state_table) s) = None →
    ∃ s', applyBlock (MassiveActionHandler_new sch) b r hv m false s = (Ok tt, s').
Proof.
    intros Hm Hrun Hbt Hslot.
    unfold applyBlock. rewrite handleWithState_unfold. unfold withTransaction.
    simpl dbSchema. rewrite run_bind, Hrun.
    destruct (run_updateIndexState_progress (db_next_txid s) (select_accessor sch) b r hv
                {| txid := db_next_txid s |} s1) as [s' ->]; [| |by eexists];
      unfold table_key, seq_next; rewrite select_accessor_schema;
      rewrite ?(user_prog_result_store _ _ _ _ _ _ (Hm _ _) Hrun),
              ?(user_prog_result_seqs _ _ _ _ _ _ (Hm _ _) Hrun) by done; done.
Qed.

  (** A block that would commit is aborted with [ErrConflict] under a
      serialization failure, and the tables are as they were. *)
Lemma applyBlock_conflict h b r hv m s s' :
    applyBlock h b r hv m false s = (Ok tt, s') →
    applyBlock h b r hv m true s = (Throw ErrConflict, abort_tx s s').
  Proof.
    unfold applyBlock. rewrite !handleWithState_unfold. apply withTransaction_conflict.
  Qed.

  (** A block committed without a cursor row has drawn one value from the
      [_index_state] sequence. *)
Lemma applyBlock_commit_seq sch b r hv m s s' :
    (∀ a c, user_prog (m a c)) →
    db_store s !! (sch, index_state_table, 1) = None →
    applyBlock (MassiveActionHandler_new sch) b r hv m false s = (Ok tt, s') →
    seq_next (sch, index_state_table) s' = seq_next (sch, index_state_table) s + 1.
  Proof.
    intros Hm Hnone (_ & s1 & Hm1 & Hu)%applyBlock_ok.
    apply run_updateIndexState_seq in Hu; simpl in *; rewrite ?select_accessor_schema in *.
    - rewrite Hu. unfold seq_next. by rewrite (user_prog_result_seqs _ _ _ _ _ _ (Hm _ _) Hm1).
    - unfold table_key. rewrite select_accessor_schema.
      by rewrite (user_prog_result_store _ _ _ _ _ _ (Hm _ _) Hm1).
  Qed.
End ApplyBlockFacts.

(** ** The lemmas at concrete inputs *)

Import EventList Fixtures.

Lemma loadIndexState_absent_witness :
  loadIndexState h db0 =
    {| MigrationIndexState.blockNumber := 0; MigrationIndexState.blockHash := "";
       MigrationIndexState.handlerVersionName := "v1";
       MigrationIndexState.isReplay := false |}.
Proof. apply loadIndexState_absent. reflexivity. Defined.

Lemma run_updateIndexState_ok_witness :
  ∃ id,
    db_store (run 100 (updateIndexState AccRoot (blk 1 "a") false "v1" {| txid := 100 |}) db0).2 =
      store_set (table_key AccRoot block_txid_table 1) (Some (txid_row (blk 1 "a") {| txid := 100 |}))
        (store_set (table_key AccRoot index_state_table id) (Some (cursor_row (blk 1 "a") false "v1"))
           (db_store db0)) ∧
    db_store db0 !! table_key AccRoot block_txid_table 1 = None ∧
    (is_Some (db_store db0 !! table_key AccRoot index_state_table 1) → id = 1) ∧
    (db_store db0 !! table_key AccRoot index_state_table 1 = None →
     id = seq_next (acc_schema AccRoot, index_state_table) db0).
Proof.
  apply (run_updateIndexState_ok 100 AccRoot (blk 1 "a") false "v1" {| txid := 100 |} db0
           (run 100 (updateIndexState AccRoot (blk 1 "a") false "v1" {| txid := 100 |}) db0).2).
  reflexivity.
Defined.

Lemma run_updateIndexState_duplicate_witness :
  ∃ k s', run 101 (updateIndexState AccRoot (blk 1 "b") false "v1" {| txid := 101 |})
            (applyBlock h (blk 1 "a") false "v1" (insert_item 1 "x") false db0).2 =
          (Throw (ErrDuplicateKey k), s').
Proof.
  apply (run_updateIndexState_duplicate 101 AccRoot (blk 1 "b") false "v1" {| txid := 101 |}
           (applyBlock h (blk 1 "a") false "v1" (insert_item 1 "x") false db0).2
           (txid_row (blk 1 "a") {| txid := 100 |})).
  reflexivity.
Defined.

Lemma applyBlock_callback_throws_witness :
  ∃ s', applyBlock h (blk 1 "a") false "v1" insert_then_fail false db0 =
          (Throw (ErrApplication "boom"), s') ∧
        db_store s' = db_store db0 ∧ db_log s' = db_log db0.
Proof.
  apply (applyBlock_callback_throws h (blk 1 "a") false "v1" insert_then_fail false db0
           (ErrApplication "boom")
           (run 100 (insert_then_fail AccRoot {| txid := 100 |}) (begin_tx db0)).2).
  reflexivity.
Defined.

Lemma applyBlock_typed_witness :
  store_typed (db_store (applyBlock h (blk 1 "a") false "v1" (insert_item 1 "x") false db0).2).
Proof. apply applyBlock_typed. apply map_Forall_empty. Defined.

Lemma applyBlock_cursor_witness :
  loadIndexState h (applyBlock h (blk 1 "a") false "v1" (insert_item 1 "x") false db0).2 =
    {| MigrationIndexState.blockNumber := 1; MigrationIndexState.blockHash := "a";
       MigrationIndexState.handlerVersionName := "v1";
       MigrationIndexState.isReplay := false |}.
Proof.
  apply (applyBlock_cursor "public" (blk 1 "a") false "v1" (insert_item 1 "x") db0).
  - intros a c. constructor; [reflexivity|constructor].
  - right. reflexivity.
  - reflexivity.
Defined.

Lemma applyBlock_records_txid_witness :
  let s' := (applyBlock h (blk 1 "a") false "v1" (insert_item 1 "x") false db0).2 in
  db_store db0 !! ("public", block_txid_table, 1) = None ∧
  db_store s' !! ("public", block_txid_table, 1) =
    Some (RBlockTxid {| bt_block_number := 1; bt_txid := db_next_txid db0 |}).
Proof.
  apply (applyBlock_records_txid "public" (blk 1 "a") false "v1" (insert_item 1 "x") db0).
  - intros a c. constructor; [reflexivity|constructor].
  - reflexivity.
Defined.

Lemma handleWithState_tags_witness :
  ∃ t, run t (insert_item 1 "x" (select_accessor (dbSchema h)) {| txid := t |}) (begin_tx db0) =
         (Ok tt, (handleWithState h (insert_item 1 "x") false db0).2) ∧
       chain (db_store db0) (audit_changes t (db_log (handleWithState h (insert_item 1 "x") false db0).2))
         (db_store (handleWithState h (insert_item 1 "x") false db0).2) ∧
       (∀ t', t' ≠ t → audit_changes t' (db_log (handleWithState h (insert_item 1 "x") false db0).2) =
                       audit_changes t' (db_log db0)) ∧
       t < db_next_txid (handleWithState h (insert_item 1 "x") false db0).2.
Proof.
  apply (handleWithState_tags h (insert_item 1 "x") db0).
  - reflexivity.
  - apply log_fresh_empty.
  - apply pair_eq_of_fst. vm_compute. reflexivity.
Defined.
