(* ===== verification/Rollback.v ===== *)
(** * Rollback: [rollbackTo] and cyanaudit's undo

    [rollbackTo] (src/src/MassiveActionHandler.ts, lines 88-104) reads
    the rows of [_block_number_txid] above the target, in descending
    block order, and for each one logs [ROLLING BACK BLOCK n] and calls
    [cyanaudit.fn_undo_transaction(txid)] on the root instance; at the end
    it logs [Rollback complete!].  The undo (spec §4.2, §6) replays the
    logged changes of one transaction backwards, newest first, each as the
    inverse statement (DELETE an inserted row, UPDATE back an updated one,
    INSERT back a deleted one), in a transaction of its own.

    Theorems: one undo restores the store before a transaction whose
    changes form a [chain]; the loop restores the store below a stack of
    such transactions; the console trace lists the rows in the order the
    query returns them, which is strictly descending; a failing undo
    stops the loop at its row, with the rows above it undone, its own
    changes aborted and the rows below untouched. *)

From S2P Require Import Prelude Schema AuditLog Database IndexState.

Local Open Scope Z_scope.

(** ** The query of lines 89-98 *)

(** The rows of [_block_number_txid] in a schema. *)
Definition block_txid_rows (schema : string) (st : Store) : list BlockTxidRow :=
  omap (λ kr : Key * Row,
          match kr.2 with
          | RBlockTxid b =>
              if bool_decide (key_schema kr.1 = schema ∧ key_table kr.1 = block_txid_table)
              then Some b else None
          | _ => None
          end)
       (map_to_list st).

(** [where("block_number > $1", [blockNumber], { order: block_number desc })] *)
Definition where_block_number_gt (a : Accessor) (blockNumber : Z) (st : Store)
    : list BlockTxidRow :=
  merge_sort (desc_by bt_block_number)
    (filter (λ b, blockNumber < bt_block_number b) (block_txid_rows (acc_schema a) st)).

(** Each row of [_block_number_txid] is keyed by its own block number, as
    [updateIndexState] inserts it. *)
Definition bt_consistent (st : Store) : Prop :=
  map_Forall (λ k r, match r with
                     | RBlockTxid b => key_id k = bt_block_number b
                     | _ => True
                     end) st.

#[export] Instance bt_consistent_dec st : Decision (bt_consistent st).
Proof. apply map_Forall_dec. intros k r. destruct r; apply _. Defined.

(** ** cyanaudit's [fn_undo_transaction] *)

(** The inverse statement of one logged change. *)
Definition undo_change (c : Change) : Prog unit :=
  match ch_old c, ch_new c with
  | None, Some _ => delete_row (ch_key c)
  | Some o, Some _ => _ ← update_row (ch_key c) o; mret tt
  | Some o, None => insert_row (ch_key c) o
  | None, None => mret tt
  end.

(** The inverse statements of a transaction's changes, newest first. *)
Definition undo_changes (cs : list Change) : Prog unit :=
  foldr (λ c p, undo_change c;; p) (mret tt) cs.

(** Console lines of [rollbackTo]. *)
Inductive ConsoleLine :=
| RollingBack (n : Z)
| RollbackComplete.

#[export] Instance ConsoleLine_eq_dec : EqDecision ConsoleLine.
Proof. solve_decision. Defined.

Section Rollback.
Context `{AuditLog L}.

  (** [select cyanaudit.fn_undo_transaction(txid)], a statement of its own
      transaction: all inverse statements take effect, or none. *)
Definition fn_undo_transaction (t : Z) (s : DB L) : outcome DbError unit * DB L :=
    withTransaction false (undo_changes (audit_changes t (db_log s))) s.

  (** The [for ... of] loop of lines 99-102: log, then undo; the first
      failing undo ends the loop with its error. *)
Fixpoint rollback_loop (rows : list BlockTxidRow) (s : DB L)
      : outcome DbError unit * DB L * list ConsoleLine :=
    match rows with
    | [] => (Ok tt, s, [])
    | r :: rs =>
        match fn_undo_transaction (bt_txid r) s with
        | (Ok _, s1) =>
            let '(o, s2, out) := rollback_loop rs s1 in
            (o, s2, RollingBack (bt_block_number r) :: out)
        | (Throw e, s1) => (Throw e, s1, [RollingBack (bt_block_number r)])
        end
    end.

  (** Lines 88-104. *)
Definition rollbackTo (h : MassiveActionHandler) (blockNumber : Z) (s : DB L)
      : outcome DbError unit * DB L * list ConsoleLine :=
    let blockNumberTxIds := where_block_number_gt (schemaInstance h) blockNumber (db_store s) in
    match rollback_loop blockNumberTxIds s with
    | (Ok _, s', out) => (Ok tt, s', out ++ [RollbackComplete])
    | (Throw e, s', out) => (Throw e, s', out)
    end.

  (** The undo calls spec §4.2 and §8 ask for, as a reference: undo the
      given transactions one after the other, stopping at the first one
      that fails. *)
Fixpoint undo_in_order (txids : list Z) (s : DB L) : outcome DbError unit * DB L :=
    match txids with
    | [] => (Ok tt, s)
    | t :: ts =>
        match fn_undo_transaction t s with
        | (Ok _, s1) => undo_in_order ts s1
        | (Throw e, s1) => (Throw e, s1)
        end
    end.
End Rollback.

(** ** Undoing one transaction *)

(** The transactions undone so far, newest first: each row's changes lead
    from the store below it to the store above it. *)
Inductive undo_stack (ch : Z → list Change) : list BlockTxidRow → Store → Store → Prop :=
| undo_stack_nil st : undo_stack ch [] st st
| undo_stack_cons r rs st0 st1 st2 :
    undo_stack ch rs st0 st1 → chain st1 (ch (bt_txid r)) st2 →
    undo_stack ch (r :: rs) st0 st2.

#[export] Hint Constructors undo_stack : dmx.

(** The store before a transaction, computed back from its changes. *)
Definition revert_changes (cs : list Change) (st : Store) : Store :=
  foldl (λ st c, store_set (ch_key c) (ch_old c) st) st cs.

(** The decision procedure for [undo_stack]. *)
Fixpoint stack_ok (ch : Z → list Change) (rows : list BlockTxidRow) (st0 st : Store) : bool :=
  match rows with
  | [] => bool_decide (st = st0)
  | r :: rs =>
      let st1 := revert_changes (ch (bt_txid r)) st in
      bool_decide (replay st1 (ch (bt_txid r)) = Some st) && stack_ok ch rs st0 st1
  end.

Lemma stack_ok_sound ch rows st0 st :
  stack_ok ch rows st0 st = true → undo_stack ch rows st0 st.
Proof.
  revert st. induction rows as [|r rs IH]; intros st; simpl.
  - intros ->%bool_decide_eq_true. constructor.
  - intros [Hr Hrs]%andb_true_iff. apply bool_decide_eq_true in Hr.
    econstructor; [by apply IH|by apply replay_chain].
Qed.

Section UndoFacts.
Context `{AuditLog L}.
Implicit Types (s : DB L).

  (** The inverse statement of the newest change restores the row it
      changed. *)
Lemma undo_change_run t c st1 s :
    store_typed st1 → ch_old c = st1 !! ch_key c →
    db_store s = store_set (ch_key c) (ch_new c) st1 →
    ∃ s', run t (undo_change c) s = (Ok tt, s') ∧ db_store s' = st1.
  Proof.
    destruct c as [ct k old new]; simpl. intros Hty Hold Hs.
    assert (db_store s !! k = new) as Hk by (rewrite Hs; apply store_set_lookup_eq).
    assert (∀ o, store_set k o (db_store s) = store_set k o st1) as Hset.
    { intros o. rewrite Hs. apply map_eq; intros k'.
      rewrite !store_set_lookup. by repeat case_decide. }
    unfold undo_change; destruct old as [o|], new as [n|]; simpl;
      rewrite ?Hk; simpl.
    - rewrite (Hty k o) by done. eexists; split; [done|]. simpl.
      by rewrite Hset, Hold, store_set_id.
    - rewrite (Hty k o) by done. eexists; split; [done|]. simpl.
      by rewrite Hset, Hold, store_set_id.
    - eexists; split; [done|]. simpl. by rewrite Hset, Hold, store_set_id.
    - eexists; split; [done|]. by rewrite Hs, Hold, store_set_id.
  Qed.

  (** The inverse statements of a chain of changes, newest first, restore
      the store the chain started from. *)
Lemma undo_changes_run t st0 cs s :
    store_typed st0 → chain st0 cs (db_store s) →
    ∃ s', run t (undo_changes cs) s = (Ok tt, s') ∧ db_store s' = st0.
  Proof.
    intros Hty Hc. remember (db_store s) as st eqn:Hst. revert s Hst.
    induction Hc as [st|st0 cs st1 c Hc IH Hold _]; intros s Hst.
    - by exists s.
    - simpl. rewrite run_bind.
      destruct (undo_change_run t c st1 s) as (s1 & -> & Hs1);
        eauto using chain_typed.
  Qed.

Lemma begin_tx_store s : db_store (begin_tx s) = db_store s.
  Proof. done. Qed.

  (** [fn_undo_transaction t] on a transaction whose logged changes form a
      chain from [st0] commits and leaves exactly [st0]; it takes one
      identifier and touches no other transaction's changes. *)
Lemma fn_undo_transaction_restores t st0 s :
    store_typed st0 → chain st0 (audit_changes t (db_log s)) (db_store s) →
    ∃ s', fn_undo_transaction t s = (Ok tt, s') ∧ db_store s' = st0 ∧
          db_next_txid s' = db_next_txid s + 1 ∧ db_unaudited s' = db_unaudited s ∧
          ∀ t', t' ≠ db_next_txid s → audit_changes t' (db_log s') = audit_changes t' (db_log s).
  Proof.
    intros Hty Hc. unfold fn_undo_transaction, withTransaction.
    destruct (undo_changes_run (db_next_txid s) st0 _ (begin_tx s) Hty Hc)
      as (s' & Hrun & Hs').
    pose proof (run_frame (db_next_txid s) (undo_changes (audit_changes t (db_log s)))
                  (begin_tx s)) as [Hn Hu].
    rewrite Hrun in Hn, Hu |- *. exists s'. split_and!; auto.
    intros t' Ht'.
    pose proof (run_changes_other (db_next_txid s) t'
                  (undo_changes (audit_changes t (db_log s))) (begin_tx s) Ht') as Hother.
    by rewrite Hrun in Hother.
  Qed.
End UndoFacts.

(** ** The rollback loop *)

Section LoopFacts.
Context `{AuditLog L}.
Implicit Types (s : DB L).

Lemma undo_stack_typed ch rs st0 st :
    store_typed st0 → undo_stack ch rs st0 st → store_typed st.
  Proof. induction 2; eauto using chain_typed. Qed.

  (** The stack only depends on the changes of its own transactions. *)
Lemma undo_stack_ext ch ch' rs st0 st :
    (∀ r, r ∈ rs → ch (bt_txid r) = ch' (bt_txid r)) →
    undo_stack ch rs st0 st → undo_stack ch' rs st0 st.
  Proof.
    intros Hext Hs. induction Hs as [|r rs st0 st1 st2 Hs IH Hc]; [constructor|].
    econstructor.
    - apply IH. intros r' Hr'. apply Hext. by right.
    - rewrite <-Hext by (by left). exact Hc.
  Qed.

Definition rolling_back_lines (rows : list BlockTxidRow) : list ConsoleLine :=
    (λ r, RollingBack (bt_block_number r)) <$> rows.

  (** Undoing a stack of transactions, newest first, restores the store
      below the stack; the loop logs one line per row, in the rows' order,
      and takes one transaction identifier per row. *)
Lemma rollback_loop_restores rows st0 s :
    store_typed st0 →
    undo_stack (λ t, audit_changes t (db_log s)) rows st0 (db_store s) →
    Forall (λ r, bt_txid r < db_next_txid s) rows →
    ∃ s', rollback_loop rows s = (Ok tt, s', rolling_back_lines rows) ∧
          db_store s' = st0 ∧
          db_next_txid s' = db_next_txid s + Z.of_nat (length rows) ∧
          db_unaudited s' = db_unaudited s.
  Proof.
    revert s. induction rows as [|r rs IH]; intros s Hty Hst Hlt.
    - inversion Hst; subst. exists s. split_and!; simpl; auto with lia.
    - inversion Hst as [|? ? ? st1 ? Hrs Hc]; subst.
      apply Forall_cons in Hlt as [Hr Hrs_lt].
      destruct (fn_undo_transaction_restores (bt_txid r) st1 s)
        as (s1 & Hu & Hs1 & Hn1 & Hun1 & Hother);
        eauto using undo_stack_typed.
      destruct (IH s1) as (s2 & Hl & Hs2 & Hn2 & Hun2); auto.
      + rewrite Hs1. eapply undo_stack_ext; [|exact Hrs].
        intros r' Hr'. symmetry. apply Hother.
        eapply Forall_forall in Hrs_lt; [|exact Hr']. lia.
      + eapply Forall_impl; [exact Hrs_lt|]. simpl. lia.
      + exists s2. simpl. rewrite Hu, Hl. split_and!; [done|done|lia|congruence].
  Qed.

  (** Whatever happens, the loop's console lines are a prefix of one line
      per row in the rows' order, all of them when it succeeds. *)
Lemma rollback_loop_lines rows s :
    (rollback_loop rows s).2 `prefix_of` rolling_back_lines rows ∧
    (is_ok (rollback_loop rows s).1.1 = true →
     (rollback_loop rows s).2 = rolling_back_lines rows).
  Proof.
    revert s. induction rows as [|r rs IH]; intros s; simpl; [done|].
    destruct (fn_undo_transaction (bt_txid r) s) as [[]s1]; simpl.
    - destruct (rollback_loop rs s1) as [[o s2] out] eqn:E; simpl.
      destruct (IH s1) as [Hp Hok]; rewrite E in Hp, Hok; simpl in *.
      split; [by apply prefix_cons|]. intros Ho. by rewrite Hok.
    - split; [|done]. apply prefix_cons, prefix_nil.
  Qed.

  (** One undo transaction takes one transaction identifier, whatever its
      outcome. *)
Lemma fn_undo_transaction_next t s :
    db_next_txid (fn_undo_transaction t s).2 = db_next_txid s + 1.
  Proof.
    unfold fn_undo_transaction, withTransaction.
    pose proof (run_frame (db_next_txid s) (undo_changes (audit_changes t (db_log s))) (begin_tx s))
      as [Hn _].
    destruct (run _ _ (begin_tx s)) as [[]?]; simpl in *; lia.
  Qed.

  (** The loop takes one identifier per console line, and every line it
      prints is a "ROLLING BACK" line. *)
Lemma rollback_loop_next rows s :
    db_next_txid (rollback_loop rows s).1.2 =
      db_next_txid s + Z.of_nat (length (rollback_loop rows s).2) ∧
    Forall (λ l, l ≠ RollbackComplete) (rollback_loop rows s).2.
  Proof.
    revert s. induction rows as [|r rs IH]; intros s; simpl; [split; [lia|done]|].
    pose proof (fn_undo_transaction_next (bt_txid r) s) as Hn.
    destruct (fn_undo_transaction (bt_txid r) s) as [[]s1]; simpl in *.
    - destruct (IH s1) as [Hn' Hl]. destruct (rollback_loop rs s1) as [[o s2] out]; simpl in *.
      split; [lia|by constructor].
    - split; [lia|by repeat constructor].
  Qed.

  (** The loop calls [fn_undo_transaction] on the rows' transaction
      identifiers, in the rows' order. *)
Lemma rollback_loop_undo_in_order rows s :
    (rollback_loop rows s).1 = undo_in_order (bt_txid <$> rows) s.
  Proof.
    revert s. induction rows as [|x rows IH]; intros s; simpl; [done|].
    destruct (fn_undo_transaction (bt_txid x) s) as [[[]|e] s1]; [|done].
    rewrite <-IH. by destruct (rollback_loop rows s1) as [[??]?].
  Qed.

  (** The loop over [rows1 ++ rows2] runs over [rows1], then, when it
      got through, over [rows2]. *)
Lemma rollback_loop_app rows1 rows2 s :
    rollback_loop (rows1 ++ rows2) s =
      match rollback_loop rows1 s with
      | (Ok _, s1, out1) => let '(o, s2, out2) := rollback_loop rows2 s1 in (o, s2, out1 ++ out2)
      | (Throw e, s1, out1) => (Throw e, s1, out1)
      end.
  Proof.
    revert s. induction rows1 as [|x rows1 IH]; intros s; simpl.
    - by destruct (rollback_loop rows2 s) as [[??]?].
    - destruct (fn_undo_transaction (bt_txid x) s) as [[[]|e] s1]; [|done].
      rewrite IH. destruct (rollback_loop rows1 s1) as [[[[]|e] s2] out1]; [|done].
      by destruct (rollback_loop rows2 s2) as [[??]?].
  Qed.
End LoopFacts.

(** ** The query *)

Section QueryFacts.
Context `{AuditLog L}.

Lemma block_txid_rows_elem sch st b :
    b ∈ block_txid_rows sch st ↔ ∃ id, st !! (sch, block_txid_table, id) = Some (RBlockTxid b).
  Proof.
    unfold block_txid_rows. rewrite list_elem_of_omap. split.
    - intros ([[[s' t'] id] r] & Hin%elem_of_map_to_list & Hf); simpl in Hf.
      destruct r; try done. case_bool_decide as Hk; [|done].
      unfold key_schema, key_table in Hk; simpl in Hk. destruct Hk as [-> ->].
      simplify_eq. by exists id.
    - intros [id Hid]. exists ((sch, block_txid_table, id), RBlockTxid b).
      rewrite elem_of_map_to_list. split; [done|]. simpl.
      by rewrite bool_decide_true.
  Qed.

Lemma block_txid_rows_NoDup sch st :
    bt_consistent st → NoDup (bt_block_number <$> block_txid_rows sch st).
  Proof.
    intros Hc. apply NoDup_omap_keyed; [apply NoDup_fst_map_to_list|].
    intros k1 v1 b1 k2 v2 b2 H1%elem_of_map_to_list H2%elem_of_map_to_list F1 F2 Hbn.
    simpl in F1, F2. destruct v1, v2; try done.
    case_bool_decide as K1; [|done]. case_bool_decide as K2; [|done].
    simplify_eq. apply Hc in H1, H2. simpl in H1, H2. destruct k1 as [[s1 t1] i1], k2 as [[s2 t2] i2].
    unfold key_schema, key_table, key_id in *; simpl in *.
    destruct K1 as [-> ->], K2 as [-> ->]. f_equal. lia.
  Qed.

Lemma where_block_number_gt_perm a T st :
    where_block_number_gt a T st ≡ₚ
      filter (λ b, T < bt_block_number b) (block_txid_rows (acc_schema a) st).
  Proof. apply merge_sort_Permutation. Qed.

  (** The rows [rollbackTo] undoes are the rows above the target, in
      strictly descending block order. *)
Lemma where_block_number_gt_order a T st :
    bt_consistent st →
    StronglySorted (λ x y, bt_block_number y < bt_block_number x) (where_block_number_gt a T st) ∧
    Forall (λ r, T < bt_block_number r) (where_block_number_gt a T st).
  Proof.
    intros Hc. split.
    - apply StronglySorted_desc_strict; [|apply StronglySorted_merge_sort; apply _].
      rewrite where_block_number_gt_perm.
      eapply sublist_NoDup; [by apply block_txid_rows_NoDup|].
      apply fmap_sublist, sublist_filter.
    - apply Forall_forall. intros r Hr.
      rewrite where_block_number_gt_perm, list_elem_of_filter in Hr. by destruct Hr.
  Qed.
End QueryFacts.

(** ** The order of the undo calls *)

Section RollbackToFacts.
Context `{AuditLog L}.
Implicit Types (s : DB L).

  (** C2: Spec §4.2 and §8 (rollback order): [rollbackTo T] undoes the rows
      above [T] in strictly descending block order; its console trace is
      one line per such row in that order, then the completion line, cut
      short at the first failing undo. *)
Lemma rollbackTo_undo_order h T s :
    bt_consistent (db_store s) →
    let rows := where_block_number_gt (schemaInstance h) T (db_store s) in
    (∀ b, b ∈ rows ↔
          (∃ id, db_store s !! (acc_schema (schemaInstance h), block_txid_table, id) =
                   Some (RBlockTxid b)) ∧ T < bt_block_number b) ∧
    StronglySorted (λ x y, bt_block_number y < bt_block_number x) rows ∧
    (rollbackTo h T s).1 = undo_in_order (bt_txid <$> rows) s ∧
    (rollbackTo h T s).2 `prefix_of` rolling_back_lines rows ++ [RollbackComplete] ∧
    (is_ok (rollbackTo h T s).1.1 = true →
     (rollbackTo h T s).2 = rolling_back_lines rows ++ [RollbackComplete]).
  Proof.
    intros Hc rows. destruct (where_block_number_gt_order (schemaInstance h) T _ Hc) as [Hs _].
    split_and!; [| done | | |].
    - intros b. unfold rows. rewrite where_block_number_gt_perm, list_elem_of_filter,
        block_txid_rows_elem. tauto.
    - rewrite <-rollback_loop_undo_in_order. unfold rollbackTo. fold rows.
      by destruct (rollback_loop rows s) as [[[[]|e] s'] out].
    - unfold rollbackTo; fold rows. destruct (rollback_loop_lines rows s) as [Hp Hok].
      destruct (rollback_loop rows s) as [[[[]|e] s'] out]; simpl in *;
        [by rewrite Hok|by apply prefix_app_r].
    - unfold rollbackTo; fold rows. destruct (rollback_loop_lines rows s) as [_ Hok].
      destruct (rollback_loop rows s) as [[[[]|e] s'] out]; simpl in *; [|done].
      intros _. by rewrite Hok.
  Qed.

  (** C15: Bounds of [rollbackTo T]: it prints at most one line per row above
      [T] plus the final line, and consumes exactly one transaction
      identifier per "ROLLING BACK" line it prints, so at most one per
      row above [T]. *)
Lemma rollbackTo_bounds h T s :
    let rows := where_block_number_gt (schemaInstance h) T (db_store s) in
    (length (rollbackTo h T s).2 <= length rows + 1)%nat ∧
    db_next_txid (rollbackTo h T s).1.2 =
      db_next_txid s + Z.of_nat (length (filter (λ l, l ≠ RollbackComplete) (rollbackTo h T s).2)) ∧
    db_next_txid (rollbackTo h T s).1.2 <= db_next_txid s + Z.of_nat (length rows).
  Proof.
    intros rows. unfold rollbackTo. fold rows.
    destruct (rollback_loop_lines rows s) as [Hp _].
    destruct (rollback_loop_next rows s) as [Hn Hall].
    apply prefix_length in Hp. unfold rolling_back_lines in Hp. rewrite length_fmap in Hp.
    assert (∀ out : list ConsoleLine, Forall (λ l, l ≠ RollbackComplete) out →
              filter (λ l, l ≠ RollbackComplete) out = out) as Hid.
    { induction 1; [done|]. rewrite filter_cons_True by done. congruence. }
    destruct (rollback_loop rows s) as [[[[]|e] s'] out]; simpl in *.
    - rewrite filter_app, Hid by done.
      rewrite filter_cons_False by (intros Hc; by apply Hc).
      rewrite !length_app. simpl. split_and!; lia.
    - rewrite Hid by done. split_and!; lia.
  Qed.

  (** C10: Spec §4.2 and §7 (RollbackFailure): when the undos of the rows
      above a row succeed and that row's undo fails, [rollbackTo] stops
      there and surfaces the error.  The rows above it are undone, the
      failing undo leaves the tables and the audit log as they were
      before it, the rows below it are never undone, and the trace ends
      with the failing row's line, without the completion line. *)
Theorem rollbackTo_stops_at_failure h T s pre r post s1 e :
    where_block_number_gt (schemaInstance h) T (db_store s) = pre ++ r :: post →
    rollback_loop pre s = (Ok tt, s1, rolling_back_lines pre) →
    (fn_undo_transaction (bt_txid r) s1).1 = Throw e →
    rollbackTo h T s =
      (Throw e, (fn_undo_transaction (bt_txid r) s1).2,
       rolling_back_lines pre ++ [RollingBack (bt_block_number r)]) ∧
    db_store (fn_undo_transaction (bt_txid r) s1).2 = db_store s1 ∧
    db_log (fn_undo_transaction (bt_txid r) s1).2 = db_log s1.
  Proof.
    intros Hrows Hpre Hu. unfold rollbackTo. rewrite Hrows, rollback_loop_app, Hpre.
    simpl. destruct (fn_undo_transaction (bt_txid r) s1) as [o s2] eqn:E. simpl in Hu. subst o.
    split; [done|]. unfold fn_undo_transaction in E. apply withTransaction_throw in E. tauto.
  Qed.
End RollbackToFacts.

(** ** The lemmas at concrete inputs *)

Import EventList Fixtures.

Definition one_block : DB log :=
  (applyBlock h (blk 1 "a") false "v1" (insert_item 1 "x") false db0).2.

Definition two_blocks : DB log :=
  (applyBlock h (blk 2 "b") false "v1" (insert_item 2 "y") false one_block).2.

Lemma fn_undo_transaction_restores_witness :
  ∃ s', fn_undo_transaction 100 one_block = (Ok tt, s') ∧ db_store s' = db_store db0 ∧
        db_next_txid s' = db_next_txid one_block + 1 ∧
        db_unaudited s' = db_unaudited one_block ∧
        ∀ t', t' ≠ db_next_txid one_block →
              audit_changes t' (db_log s') = audit_changes t' (db_log one_block).
Proof.
  apply (fn_undo_transaction_restores 100 (db_store db0) one_block).
  - apply map_Forall_empty.
  - apply replay_chain. vm_decide.
Defined.

Lemma rollback_loop_restores_witness :
  ∃ s', rollback_loop (where_block_number_gt AccRoot 0 (db_store two_blocks)) two_blocks =
          (Ok tt, s', rolling_back_lines (where_block_number_gt AccRoot 0 (db_store two_blocks))) ∧
        db_store s' = db_store db0 ∧
        db_next_txid s' = db_next_txid two_blocks +
          Z.of_nat (length (where_block_number_gt AccRoot 0 (db_store two_blocks))) ∧
        db_unaudited s' = db_unaudited two_blocks.
Proof.
  apply (rollback_loop_restores _ (db_store db0) two_blocks).
  - apply map_Forall_empty.
  - apply stack_ok_sound. vm_compute. reflexivity.
  - apply Forall_forall. intros r Hr. vm_compute in Hr. set_solver.
Defined.

Lemma rollbackTo_undo_order_witness :
  (∀ b, b ∈ where_block_number_gt AccRoot 0 (db_store two_blocks) ↔
        (∃ id, db_store two_blocks !! (acc_schema AccRoot, block_txid_table, id) =
                 Some (RBlockTxid b)) ∧ 0 < bt_block_number b) ∧
  StronglySorted (λ x y, bt_block_number y < bt_block_number x)
    (where_block_number_gt AccRoot 0 (db_store two_blocks)) ∧
  (rollbackTo h 0 two_blocks).1 =
    undo_in_order (bt_txid <$> where_block_number_gt AccRoot 0 (db_store two_blocks)) two_blocks ∧
  (rollbackTo h 0 two_blocks).2 `prefix_of`
    rolling_back_lines (where_block_number_gt AccRoot 0 (db_store two_blocks)) ++ [RollbackComplete] ∧
  (is_ok (rollbackTo h 0 two_blocks).1.1 = true →
   (rollbackTo h 0 two_blocks).2 =
     rolling_back_lines (where_block_number_gt AccRoot 0 (db_store two_blocks)) ++ [RollbackComplete]).
Proof. apply (rollbackTo_undo_order h 0 two_blocks). vm_decide. Defined.

(** Block 1 inserts row 1 of [items], block 2 deletes it, and a writer
    outside the indexer then inserts a row with the same key. *)
Definition external_write : DB log :=
  (withTransaction false (insert_item 1 "ext" AccRoot {| txid := 0 |})
     (applyBlock h (blk 2 "b") false "v1" (delete_item 1) false one_block).2).2.

Lemma rollbackTo_stops_at_failure_witness :
  rollbackTo h 0 external_write =
    (Throw (ErrDuplicateKey ("public", "items", 1)),
     (fn_undo_transaction 101 external_write).2, [] ++ [RollingBack 2]) ∧
  db_store (fn_undo_transaction 101 external_write).2 = db_store external_write ∧
  db_log (fn_undo_transaction 101 external_write).2 = db_log external_write.
Proof.
  apply (rollbackTo_stops_at_failure h 0 external_write []
           {| bt_block_number := 2; bt_txid := 101 |} [{| bt_block_number := 1; bt_txid := 100 |}]).
  - vm_compute. reflexivity.
  - reflexivity.
  - vm_compute. reflexivity.
Defined.
