(* ===== verification/Engine.v ===== *)
(** * Engine: runs of blocks, rollback, and what they guarantee

    The engine of spec §2 is the handler's three entry points used in
    sequence: [applyBlock] for each block of the chain, [rollbackTo] on a
    fork, [loadIndexState] to resume.  This file states what such runs
    guarantee: the rollback theorem (rolling back to [T] after blocks
    above [T] restores the store exactly as it was at [T]), the spec's
    round-trip and scenario properties on concrete runs, and that the
    handler never compares a block with the cursor it overwrites: any
    block whose number is not recorded commits, ahead of the cursor or
    behind it ([applyBlock_ignores_cursor]). *)

From S2P Require Import Prelude Schema AuditLog Database IndexState Rollback.

Local Open Scope Z_scope.

(** ** Runs of blocks *)

(** A block with the callback the driver's updaters make of it. *)
Abbreviation BlockJob := (Block * (Accessor → Context → Prog unit))%type.

Section Runs.
Context `{AuditLog L}.

  (** The driver applying blocks one after the other (spec §2), stopping at
      the first failure. *)
Fixpoint apply_blocks (h : MassiveActionHandler) (isReplay : bool) (hv : string)
      (jobs : list BlockJob) (s : DB L) : outcome DbError unit * DB L :=
    match jobs with
    | [] => (Ok tt, s)
    | (b, m) :: rest =>
        match applyBlock h b isReplay hv m false s with
        | (Ok _, s1) => apply_blocks h isReplay hv rest s1
        | (Throw e, s1) => (Throw e, s1)
        end
    end.
End Runs.



(** ** The rollback theorem *)

(** The abstract view of a database reached from [s0] by committed blocks
    above [T] in schema [sch]: a stack [rows] (newest first) of the rows of
    [_block_number_txid] above [T], each with the transaction that applied
    its block, whose changes lead from the store below to the store above.
    Rolling back pops the whole stack. *)
Record refines `{AuditLog L} (sch : string) (T : Z) (s0 : DB L)
    (rows : list BlockTxidRow) (s : DB L) : Prop := {
  ref_audited : fully_audited s;
  ref_fresh : log_fresh_from (db_next_txid s) (db_log s);
  ref_base_typed : store_typed (db_store s0);
  ref_typed : store_typed (db_store s);
  ref_consistent : bt_consistent (db_store s);
  ref_stack : undo_stack (λ t, audit_changes t (db_log s)) rows (db_store s0) (db_store s);
  ref_txids : Forall (λ r, bt_txid r < db_next_txid s) rows;
  ref_rows : ∀ b, b ∈ block_txid_rows sch (db_store s) ∧ T < bt_block_number b ↔ b ∈ rows;
  ref_sorted : StronglySorted (desc_by bt_block_number) rows;
  ref_nodup : NoDup (bt_block_number <$> rows)
}.

Section Refinement.
Context `{AuditLog L}.
Variables (sch : string) (T : Z) (s0 : DB L).
Implicit Types (s : DB L) (rows : list BlockTxidRow).

Lemma refines_init :
    fully_audited s0 → log_fresh_from (db_next_txid s0) (db_log s0) →
    store_typed (db_store s0) → bt_consistent (db_store s0) →
    (∀ b, b ∈ block_txid_rows sch (db_store s0) → bt_block_number b <= T) →
    refines sch T s0 [] s0.
  Proof.
    intros Ha Hf Hty Hc Hbelow. split; auto with dmx.
    - intros x. split; [|set_solver]. intros [Hx%Hbelow HT]. lia.
    - constructor.
    - constructor.
  Qed.
  (** A typed row of [_block_number_txid] lives in that table. *)
Lemma typed_block_txid st k b :
    store_typed st → st !! k = Some (RBlockTxid b) → key_table k = block_txid_table.
  Proof. intros Hty Hk. apply Hty in Hk. simpl in Hk. by case_bool_decide. Qed.

  (** A committed block keeps every [_block_number_txid] row keyed by its
      own number. *)
Lemma applyBlock_consistent b r hv m s s' :
    (∀ a c, user_prog (m a c)) → store_typed (db_store s) → bt_consistent (db_store s) →
    applyBlock (MassiveActionHandler_new sch) b r hv m false s = (Ok tt, s') →
    bt_consistent (db_store s').
  Proof.
    intros Hm Hty Hc Happ k x Hk. destruct x as [| bt |]; simpl; auto.
    pose proof (applyBlock_typed (MassiveActionHandler_new sch) b r hv m false s Hty) as Hty'.
    rewrite Happ in Hty'. pose proof (typed_block_txid _ _ _ Hty' Hk) as Htab.
    rewrite (applyBlock_block_txid sch b r hv m s s' k Hm Happ Htab) in Hk.
    case_decide as E; [subst; by simplify_eq|]. exact (Hc _ _ Hk).
  Qed.

  (** The rows above [T] after a committed block: the block's own row on
      top of the rows before. *)
Lemma applyBlock_rows_above b r hv m s s' rows :
    (∀ a c, user_prog (m a c)) → bt_consistent (db_store s) →
    Forall (λ x, bt_block_number x < blockNumber (blockInfo b)) rows → T < blockNumber (blockInfo b) →
    (∀ x, x ∈ block_txid_rows sch (db_store s) ∧ T < bt_block_number x ↔ x ∈ rows) →
    applyBlock (MassiveActionHandler_new sch) b r hv m false s = (Ok tt, s') →
    ∀ x, x ∈ block_txid_rows sch (db_store s') ∧ T < bt_block_number x ↔
         x ∈ {| bt_block_number := blockNumber (blockInfo b); bt_txid := db_next_txid s |} :: rows.
  Proof.
    intros Hm Hc Hlt HT Hrows Happ x.
    pose proof (λ id, applyBlock_block_txid sch b r hv m s s' (sch, block_txid_table, id)
                        Hm Happ eq_refl) as Hbt.
    rewrite elem_of_cons, block_txid_rows_elem, <-Hrows, block_txid_rows_elem. split.
    - intros [[id Hid] Hx]. rewrite Hbt in Hid. case_decide as E.
      + left. by simplify_eq.
      + right. split; [by exists id|done].
    - intros [->|[[id Hid] Hx]].
      + split; [|done]. exists (blockNumber (blockInfo b)). rewrite Hbt. by rewrite decide_True.
      + split; [|done]. exists id. rewrite Hbt, decide_False; [done|]. intros [= ->].
        pose proof (Hc _ _ Hid) as Hid'. simpl in Hid'. unfold key_id in Hid'; simpl in Hid'.
        assert (x ∈ rows) as Hin by (apply Hrows; split; [|done];
          apply block_txid_rows_elem; eauto).
        eapply Forall_forall in Hlt; [|exact Hin]. lia.
  Qed.
  (** Simulation of [applyBlock]: a committed block above the stack pushes
      its row, with its transaction, on the stack. *)
Lemma refines_step rows s b r hv m s' :
    refines sch T s0 rows s → (∀ a c, user_prog (m a c)) →
    T < blockNumber (blockInfo b) →
    Forall (λ x, bt_block_number x < blockNumber (blockInfo b)) rows →
    applyBlock (MassiveActionHandler_new sch) b r hv m false s = (Ok tt, s') →
    refines sch T s0
      ({| bt_block_number := blockNumber (blockInfo b); bt_txid := db_next_txid s |} :: rows) s'.
  Proof.
    intros Href Hm HT Hlt Happ. pose proof Happ as Hcommit.
    unfold applyBlock in Hcommit. rewrite handleWithState_unfold in Hcommit.
    apply withTransaction_commit in Hcommit as (Hc & Hother & Hn & Hu & Hf);
      [|apply Href|apply Href].
    pose proof (applyBlock_typed (MassiveActionHandler_new sch) b r hv m false s
                  (ref_typed _ _ _ _ _ Href)) as Hty'.
    rewrite Happ in Hty'.
    destruct Href as [Ha _ Hty0 Hty Hcons Hstack Htx Hrows Hsorted Hnd].
    split; simpl.
    - by unfold fully_audited; rewrite Hu.
    - done.
    - done.
    - done.
    - eauto using applyBlock_consistent.
    - econstructor; [|exact Hc].
      eapply undo_stack_ext; [|exact Hstack]. intros x Hx. symmetry. apply Hother.
      eapply Forall_forall in Htx; [|exact Hx]. lia.
    - constructor; [simpl; lia|]. eapply Forall_impl; [exact Htx|]. simpl. lia.
    - eauto using applyBlock_rows_above.
    - constructor; [done|]. eapply Forall_impl; [exact Hlt|]. unfold desc_by; simpl. lia.
    - simpl. constructor; [|done]. intros (x & Hx & Hin)%list_elem_of_fmap.
      eapply Forall_forall in Hlt; [|exact Hin]. lia.
  Qed.

  (** The query of [rollbackTo] returns the stack, newest first. *)
Lemma refines_where rows s :
    refines sch T s0 rows s →
    where_block_number_gt (select_accessor sch) T (db_store s) = rows.
  Proof.
    intros Href. destruct Href as [_ _ _ _ Hcons _ _ Hrows Hsorted Hnd].
    assert (NoDup (bt_block_number <$> where_block_number_gt (select_accessor sch) T (db_store s)))
      as Hnd_w.
    { rewrite where_block_number_gt_perm.
      eapply sublist_NoDup; [by apply block_txid_rows_NoDup|].
      apply fmap_sublist, sublist_filter. }
    apply (sorted_desc_unique bt_block_number); [done| |done|].
    - apply StronglySorted_merge_sort; apply _.
    - apply NoDup_Permutation; [by eapply NoDup_fmap_1|by eapply NoDup_fmap_1|].
      intros x. rewrite where_block_number_gt_perm, list_elem_of_filter,
        select_accessor_schema, <-Hrows. tauto.
  Qed.

  (** Simulation of [rollbackTo T]: it pops the whole stack, newest first,
      and leaves the store of [s0]. *)
Lemma refines_rollback rows s :
    refines sch T s0 rows s →
    ∃ s', rollbackTo (MassiveActionHandler_new sch) T s =
            (Ok tt, s', rolling_back_lines rows ++ [RollbackComplete]) ∧
          db_store s' = db_store s0.
  Proof.
    intros Href. unfold rollbackTo. simpl. rewrite (refines_where rows s Href).
    destruct (rollback_loop_restores rows (db_store s0) s) as (s' & -> & Hs' & _);
      [apply Href..|].
    by exists s'.
  Qed.
Definition job_number (j : BlockJob) : Z := blockNumber (blockInfo j.1).

  (** Simulation of a run of blocks in increasing order above the stack. *)
Lemma apply_blocks_refines rows s jobs r hv s' :
    refines sch T s0 rows s →
    Forall (λ j : BlockJob, T < job_number j ∧ ∀ a c, user_prog (j.2 a c)) jobs →
    StronglySorted (λ j1 j2, job_number j1 < job_number j2) jobs →
    Forall (λ x, Forall (λ j, bt_block_number x < job_number j) jobs) rows →
    apply_blocks (MassiveActionHandler_new sch) r hv jobs s = (Ok tt, s') →
    ∃ rows', refines sch T s0 rows' s' ∧
             bt_block_number <$> rows' = reverse (job_number <$> jobs) ++ (bt_block_number <$> rows).
  Proof.
    revert rows s. induction jobs as [|[b m] jobs IH]; intros rows s Href Hjobs Hsorted Hlt; simpl.
    - intros [= <-]. by exists rows.
    - destruct (applyBlock _ b r hv m false s) as [[[]|e] s1] eqn:E; [|discriminate].
      intros Hrest.
      apply Forall_cons in Hjobs as [[HT Hm] Hjobs].
      apply StronglySorted_inv in Hsorted as [Hsorted Hall].
      destruct (IH _ s1 (refines_step rows s b r hv m s1 Href Hm HT
                          (Forall_impl _ _ _ Hlt (λ x Hx, proj1 (Forall_cons_1 _ _ _ Hx)))
                          E) Hjobs Hsorted)
        as (rows' & Href' & Hbn); [|done|].
      + constructor; [done|]. eapply Forall_impl; [exact Hlt|].
        intros x Hx. by apply Forall_cons_1 in Hx as [_ Hx].
      + exists rows'. split; [done|]. rewrite Hbn, fmap_cons, reverse_cons, <-app_assoc.
        done.
  Qed.
End Refinement.

(** C1: Spec §4.2 and §8 (rollback suffix, rollback order, round trip), as a
    refinement of the history stack: from a fully audited database with no
    [_block_number_txid] row above [T], after committing blocks above [T]
    in increasing order whose callbacks leave the bookkeeping alone,
    [rollbackTo T] succeeds, logs the blocks from the newest down, and
    restores exactly the tables the database had before the first of
    them. *)
Theorem rollback_restores `{AuditLog L} sch T r hv jobs (s0 s : DB L) :
  fully_audited s0 → log_fresh_from (db_next_txid s0) (db_log s0) →
  store_typed (db_store s0) → bt_consistent (db_store s0) →
  (∀ b, b ∈ block_txid_rows sch (db_store s0) → bt_block_number b <= T) →
  Forall (λ j : BlockJob, T < job_number j ∧ ∀ a c, user_prog (j.2 a c)) jobs →
  StronglySorted (λ j1 j2, job_number j1 < job_number j2) jobs →
  apply_blocks (MassiveActionHandler_new sch) r hv jobs s0 = (Ok tt, s) →
  ∃ s', rollbackTo (MassiveActionHandler_new sch) T s =
          (Ok tt, s', ((λ j, RollingBack (job_number j)) <$> reverse jobs) ++ [RollbackComplete]) ∧
        db_store s' = db_store s0.
Proof.
  intros Ha Hf Hty Hc Hbelow Hjobs Hsorted Hrun.
  destruct (apply_blocks_refines sch T s0 [] s0 jobs r hv s) as (rows & Href & Hbn);
    [by apply refines_init|done|done|constructor|done|].
  destruct (refines_rollback sch T s0 rows s Href) as (s' & Hrb & Hs').
  exists s'. rewrite Hrb. split; [|done]. do 3 f_equal.
  unfold rolling_back_lines. rewrite app_nil_r in Hbn.
  change (λ x, RollingBack (bt_block_number x)) with (RollingBack ∘ bt_block_number).
  change (λ j, RollingBack (job_number j)) with (RollingBack ∘ job_number).
  by rewrite !list_fmap_compose, Hbn, !fmap_reverse.
Qed.

Import EventList Fixtures.

Definition job (n : Z) (hash payload : string) : BlockJob :=
  (blk n hash, insert_item n payload).

Definition cursor_of (n : Z) (hash hv : string) (isReplay : bool) : MigrationIndexState.t :=
  {| MigrationIndexState.blockNumber := n; MigrationIndexState.blockHash := hash;
     MigrationIndexState.handlerVersionName := hv; MigrationIndexState.isReplay := isReplay |}.

(** Spec §8, scenario: block 1 inserts a row; after [rollbackTo 0] the
    row is gone, [_block_number_txid] is empty, and the undo was logged. *)
Example scenario_rollback_to_zero :
  let s1 := (apply_blocks h false "v1" [job 1 "a" "x"] db0).2 in
  let '(o, s2, out) := rollbackTo h 0 s1 in
  db_store s1 !! ("public", "items", 1) = Some (RData "x") ∧
  o = Ok tt ∧ db_store s2 !! ("public", "items", 1) = None ∧
  where_block_number_gt AccRoot (-1) (db_store s2) = [] ∧
  out = [RollingBack 1; RollbackComplete].
Proof. vm_compute. auto. Qed.

(** Spec §8, round trip: blocks 1..5, rollback to 2, blocks 3..5 again with
    other payloads: the cursor is the new block 5 and [_block_number_txid]
    holds exactly one row per block 1..5, the re-applied ones with their
    new transaction identifiers. *)
Example round_trip_1_to_5 :
  let s5 := (apply_blocks h false "v1"
               [job 1 "a" "p"; job 2 "b" "p"; job 3 "c" "p"; job 4 "d" "p"; job 5 "e" "p"]
               db0).2 in
  let '(o, s2, out) := rollbackTo h 2 s5 in
  let s5' := (apply_blocks h false "v1" [job 3 "c'" "q"; job 4 "d'" "q"; job 5 "e'" "q"] s2).2 in
  o = Ok tt ∧ out = [RollingBack 5; RollingBack 4; RollingBack 3; RollbackComplete] ∧
  loadIndexState h s5' = cursor_of 5 "e'" "v1" false ∧
  bt_block_number <$> where_block_number_gt AccRoot 0 (db_store s5') = [5; 4; 3; 2; 1] ∧
  db_store s5' !! ("public", "items", 4) = Some (RData "q").
Proof. vm_compute. auto. Qed.

Definition three_jobs : list BlockJob := [job 1 "a" "x"; job 2 "b" "y"; job 3 "c" "z"].

Lemma rollback_restores_witness :
  ∃ s', rollbackTo h 0 (apply_blocks h false "v1" three_jobs db0).2 =
          (Ok tt, s', ((λ j, RollingBack (job_number j)) <$> reverse three_jobs) ++
                      [RollbackComplete]) ∧
        db_store s' = db_store db0.
Proof.
  apply (rollback_restores "public" 0 false "v1" three_jobs db0).
  - reflexivity.
  - intros t _. reflexivity.
  - apply map_Forall_empty.
  - vm_decide.
  - intros b Hb. vm_compute in Hb. set_solver.
  - repeat constructor; vm_compute; reflexivity.
  - vm_decide.
  - apply pair_eq_of_fst. vm_compute. reflexivity.
Defined.

(** Spec §4.2: the undo order is essential.  Block 1 inserts a row and
    block 2 deletes it.  Undoing newest first restores the absence of the
    row; undoing oldest first deletes nothing (the row is already gone),
    then re-inserts it, so the row reappears. *)
Example undo_order_matters :
  let s2 := (apply_blocks h false "v1" [job 1 "a" "x"; (blk 2 "b", delete_item 1)] db0).2 in
  let rows := where_block_number_gt AccRoot 0 (db_store s2) in
  db_store (rollback_loop rows s2).1.2 !! ("public", "items", 1) = None ∧
  db_store (rollback_loop (reverse rows) s2).1.2 !! ("public", "items", 1) = Some (RData "x").
Proof. vm_compute. auto. Qed.

(** The cursor [loadIndexState] reads from a cursor row written for a block. *)
Lemma loadIndexState_cursor_row `{AuditLog L} sch b r hv (s : DB L) :
  db_store s !! (sch, index_state_table, 1) = Some (cursor_row b r hv) →
  loadIndexState (MassiveActionHandler_new sch) s =
    cursor_of (blockNumber (blockInfo b)) (blockHash (blockInfo b)) hv r.
Proof.
  intros Hrow. unfold loadIndexState, table_key; simpl.
  by rewrite select_accessor_schema, Hrow.
Qed.

(** C20: Spec §3 calls [_block_number_txid] contiguous and the cursor's block
    number monotonic; neither [handleWithState] nor [updateIndexState]
    compares the block with the cursor.  Whatever block the cursor row
    holds, a block whose number is not recorded yet and whose callback
    returns commits: the cursor becomes that block, however far ahead or
    behind the old cursor it is, and no other row of
    [_block_number_txid] is written, so the rows in between stay missing
    and the rows above stay recorded.  Both properties rest on the
    driver. *)
Theorem applyBlock_ignores_cursor `{AuditLog L} sch b r hv m (s s1 : DB L) old :
  (∀ a c, user_prog (m a c)) →
  run (db_next_txid s) (m (select_accessor sch) {| txid := db_next_txid s |}) (begin_tx s) =
    (Ok tt, s1) →
  db_store s !! (sch, index_state_table, 1) = Some (RIndexState old) →
  db_store s !! (sch, block_txid_table, blockNumber (blockInfo b)) = None →
  ∃ s', applyBlock (MassiveActionHandler_new sch) b r hv m false s = (Ok tt, s') ∧
        loadIndexState (MassiveActionHandler_new sch) s' =
          cursor_of (blockNumber (blockInfo b)) (blockHash (blockInfo b)) hv r ∧
        ∀ n, n ≠ blockNumber (blockInfo b) →
             db_store s' !! (sch, block_txid_table, n) = db_store s !! (sch, block_txid_table, n).
Proof.
  intros Hm Hrun Hold Hbt.
  destruct (applyBlock_progress sch b r hv m s s1 Hm Hrun Hbt) as [s' Happ]; [left; by eexists|].
  exists s'. split_and!; [done| |].
  - apply loadIndexState_cursor_row, (applyBlock_cursor_row sch b r hv m s s' Hm); [|done].
    left. by eexists.
  - intros n Hn. rewrite (applyBlock_block_txid sch b r hv m s s' (sch, block_txid_table, n)) by done.
    rewrite decide_False; [done|]. by intros [= ->].
Qed.

(** A schema whose cursor stands at block 1: block 3 commits over it, and
    block 2 then commits over block 3, moving the cursor back. *)
Definition at_block_1 : DB log := (applyBlock h (blk 1 "a") false "v1" (insert_item 1 "x") false db0).2.

Lemma applyBlock_ignores_cursor_witness :
  ∃ s', applyBlock h (blk 3 "c") false "v1" (insert_item 3 "z") false at_block_1 = (Ok tt, s') ∧
        loadIndexState h s' = cursor_of (blockNumber (blockInfo (blk 3 "c"))) (blockHash (blockInfo (blk 3 "c"))) "v1" false ∧
        ∀ n, n ≠ blockNumber (blockInfo (blk 3 "c")) →
             db_store s' !! ("public", block_txid_table, n) = db_store at_block_1 !! ("public", block_txid_table, n).
Proof.
  apply (applyBlock_ignores_cursor "public" (blk 3 "c") false "v1" (insert_item 3 "z") at_block_1
           (run (db_next_txid at_block_1) (insert_item 3 "z" (select_accessor "public")
              {| txid := db_next_txid at_block_1 |}) (begin_tx at_block_1)).2
           {| block_number := 1; block_hash := "a"; is_replay := false; handler_version_name := "v1" |}).
  - intros a c. constructor; [reflexivity|constructor].
  - apply pair_eq_of_fst. vm_compute. reflexivity.
  - vm_compute. reflexivity.
  - vm_compute. reflexivity.
Defined.
