(* ===== verification/JsonActionReader.v ===== *)
(** * JsonActionReader: the test block source

    [JsonActionReader] (src/src/testHelpers/JsonActionReader.ts) serves
    blocks from an array: [getHeadBlockNumber] returns the number of the
    last block after checking it against the array's length, and
    [getBlock n] returns the element at position [n - 1] after checking its
    number.  JavaScript indexing out of range gives [undefined]; reading a
    property of [undefined] throws a [TypeError].

    Theorems: [getBlock] returns exactly the block at the requested
    position and number, it succeeds on every position of a well-numbered
    chain and on no other, and [getHeadBlockNumber] returns the length of
    a non-empty well-numbered chain. *)

From S2P Require Import Prelude Schema.

Local Open Scope Z_scope.

(** The errors the reader throws: the [TypeError] of destructuring
    [undefined], and the two [Error]s of the source with the numbers their
    messages interpolate. *)
Inductive ReaderError :=
| ErrTypeErrorUndefined
| ErrIncorrectPosition (position indicated : Z)
| ErrBlockDoesNotExist (position : Z).

#[export] Instance ReaderError_eq_dec : EqDecision ReaderError.
Proof. solve_decision. Defined.

Record JsonActionReader := mkJsonActionReader {
  blockchain : list Block;
  startAtBlock : Z;
  onlyIrreversible : bool;
  maxHistoryLength : Z
}.

(** The constructor with its defaults (lines 7-14). *)
Definition JsonActionReader_new (blockchain : list Block) : JsonActionReader :=
  {| blockchain := blockchain; startAtBlock := 1; onlyIrreversible := false;
     maxHistoryLength := 600 |}.

(** [array[i]] for an integer [i]: [undefined] below 0 and past the end. *)
Definition js_index {A} (l : list A) (i : Z) : option A :=
  if decide (i < 0) then None else l !! Z.to_nat i.

(** [array.slice(-1)[0]]: the last element, [undefined] when empty. *)
Definition slice_last {A} (l : list A) : option A := last l.

Definition block_number_of (b : Block) : Z := blockNumber (blockInfo b).

(** Lines 16-23. *)
Definition getHeadBlockNumber (r : JsonActionReader) : outcome ReaderError Z :=
  match slice_last (blockchain r) with
  | None => Throw ErrTypeErrorUndefined
  | Some block =>
      let len := Z.of_nat (length (blockchain r)) in
      if decide (len ≠ block_number_of block)
      then Throw (ErrIncorrectPosition len (block_number_of block))
      else Ok (block_number_of block)
  end.

(** Lines 25-34. *)
Definition getBlock (r : JsonActionReader) (blockNumber : Z) : outcome ReaderError Block :=
  match js_index (blockchain r) (blockNumber - 1) with
  | None => Throw (ErrBlockDoesNotExist blockNumber)
  | Some block =>
      if decide (block_number_of block ≠ blockNumber)
      then Throw (ErrIncorrectPosition blockNumber (block_number_of block))
      else Ok block
  end.

(** Position [i] of the array holds block [i + 1]. *)
Definition well_numbered (chain : list Block) : Prop :=
  ∀ i b, chain !! i = Some b → block_number_of b = Z.of_nat i + 1.

(** ** Properties *)

Lemma js_index_Some {A} (l : list A) i x :
  js_index l i = Some x ↔ 0 <= i ∧ l !! Z.to_nat i = Some x.
Proof. unfold js_index. case_decide; naive_solver lia. Qed.

(** C24: A block [getBlock] returns sits at position [n - 1] of the
    array and carries the number asked for. *)
Lemma getBlock_sound r n b :
  getBlock r n = Ok b →
  block_number_of b = n ∧ 1 <= n ∧ blockchain r !! Z.to_nat (n - 1) = Some b.
Proof.
  unfold getBlock. destruct (js_index _ _) as [b'|] eqn:E; [|done].
  apply js_index_Some in E as [Hn E]. case_decide; [done|].
  intros [= <-]. split_and!; auto with lia.
Qed.

(** On a well-numbered chain, [getBlock n] returns the block at position
    [n - 1] for [n] in [1 .. length]. *)
Lemma getBlock_in_range r n :
  well_numbered (blockchain r) → 1 <= n <= Z.of_nat (length (blockchain r)) →
  ∃ b, getBlock r n = Ok b ∧ blockchain r !! Z.to_nat (n - 1) = Some b.
Proof.
  intros Hw Hn. unfold getBlock.
  destruct (lookup_lt_is_Some_2 (blockchain r) (Z.to_nat (n - 1))) as [b Hb]; [lia|].
  rewrite (proj2 (js_index_Some _ _ _)) by (split; [lia|exact Hb]).
  rewrite decide_False; [by eexists|].
  rewrite (Hw _ _ Hb). lia.
Qed.

(** C23: On a well-numbered chain, [getBlock n] returns the block at
    position [n - 1] for every [n] in [1 .. length], and throws
    "Block at position n does not exist." for every other [n]: the
    "indicates position incorrectly" error never occurs. *)
Lemma getBlock_well_numbered r n :
  well_numbered (blockchain r) →
  (1 <= n <= Z.of_nat (length (blockchain r)) →
   ∃ b, getBlock r n = Ok b ∧ blockchain r !! Z.to_nat (n - 1) = Some b) ∧
  (¬ 1 <= n <= Z.of_nat (length (blockchain r)) →
   getBlock r n = Throw (ErrBlockDoesNotExist n)).
Proof.
  intros Hw. split; [by apply getBlock_in_range|]. intros Hn. unfold getBlock, js_index.
  case_decide; [done|]. rewrite lookup_ge_None_2; [done|lia].
Qed.

(** [getHeadBlockNumber] returns the length of a non-empty well-numbered
    chain. *)
Lemma getHeadBlockNumber_well_numbered r :
  well_numbered (blockchain r) → blockchain r ≠ [] →
  getHeadBlockNumber r = Ok (Z.of_nat (length (blockchain r))).
Proof.
  intros Hw Hne. unfold getHeadBlockNumber, slice_last.
  destruct (last (blockchain r)) as [b|] eqn:E.
  - rewrite last_lookup in E. rewrite (Hw _ _ E).
    apply lookup_lt_Some in E. rewrite decide_False by lia. f_equal. lia.
  - by apply last_None in E.
Qed.

(** On an empty array, [getHeadBlockNumber] throws the [TypeError] of
    destructuring [undefined], not one of its own errors. *)
Lemma getHeadBlockNumber_empty r :
  blockchain r = [] → getHeadBlockNumber r = Throw ErrTypeErrorUndefined.
Proof. intros E. unfold getHeadBlockNumber, slice_last. by rewrite E. Qed.

(** ** The lemmas at concrete inputs *)

Definition sample_block (n : Z) : Block :=
  {| actions := []; blockInfo := {| blockNumber := n; blockHash := "h";
                                    previousBlockHash := "" |} |}.

Definition sample_reader : JsonActionReader :=
  JsonActionReader_new [sample_block 1; sample_block 2; sample_block 3].

Lemma getBlock_sound_witness :
  block_number_of (sample_block 2) = 2 ∧ 1 <= 2 ∧
  blockchain sample_reader !! Z.to_nat (2 - 1) = Some (sample_block 2).
Proof. apply getBlock_sound. reflexivity. Defined.

Lemma getBlock_well_numbered_witness :
  (1 <= 3 <= Z.of_nat (length (blockchain sample_reader)) →
   ∃ b, getBlock sample_reader 3 = Ok b ∧ blockchain sample_reader !! Z.to_nat (3 - 1) = Some b) ∧
  (¬ 1 <= 3 <= Z.of_nat (length (blockchain sample_reader)) →
   getBlock sample_reader 3 = Throw (ErrBlockDoesNotExist 3)).
Proof.
  apply getBlock_well_numbered.
  intros i b Hb. do 3 (destruct i as [|i]; [by injection Hb as <-|]). done.
Defined.

Lemma getHeadBlockNumber_empty_witness :
  getHeadBlockNumber (JsonActionReader_new []) = Throw ErrTypeErrorUndefined.
Proof. apply getHeadBlockNumber_empty. reflexivity. Defined.
