(* ===== verification/Lifecycle.v ===== *)
(** * Lifecycle: the handler's operations as a state machine

    A database under the handler goes through [applyBlock] (any block, any
    callback that leaves the bookkeeping tables alone, with or without a
    serialization failure, committed or not) and [rollbackTo] (any
    target, completed or stopped by a failing undo), in any schema and in
    any order.  [step] is that transition relation; [Inv] is what every
    reachable database keeps: every table audited, the transaction
    identifiers from the counter on unused in the audit log, the rows
    typed, each [_block_number_txid] row keyed by its own block number, and
    every logged change undoable into a row of that kind; and every
    [_block_number_txid] row, in the tables or as a value of a logged
    change, tagged by the transaction that inserted it ([bt_tagged]):
    its own insertion is logged under the identifier it records.  Tagging
    holds because [handleWithState] hands [updateIndexState] the
    transaction's own identifier and undo writes back only logged rows
    ([tag_writes]).  The invariant is proved by induction on the run
    ([rtc step]).

    On top of it: the rollback suffix property of spec §8, for a run that
    first applies blocks at or below the target and then blocks above it;
    the general round trip, where blocks above the target are applied
    again after the rollback; and, over the runs of [apply_step], the
    general form of the lost-cursor defect ([cursor_lost_forever]). *)

From S2P Require Import Prelude Schema AuditLog Database IndexState Rollback Engine.

Local Open Scope Z_scope.

(** ** Writes that keep the bookkeeping consistent *)

(** The row [r] at key [k] respects the keying of [_block_number_txid]. *)
Definition bt_row_ok (k : Key) (r : Row) : Prop :=
  match r with
  | RBlockTxid b => key_id k = bt_block_number b
  | _ => True
  end.

(** Every INSERT and UPDATE of the statement sequence whose row fits its
    table writes a row consistent with its key. *)
Inductive writes_ok {A} : Prog A → Prop :=
| wo_ret a : writes_ok (PRet a)
| wo_throw e : writes_ok (PThrow e)
| wo_txid k : (∀ z, writes_ok (k z)) → writes_ok (PTxid k)
| wo_find key k : (∀ o, writes_ok (k o)) → writes_ok (PFind key k)
| wo_insert key r k :
    (row_fits (key_table key) r = true → bt_row_ok key r) → writes_ok k →
    writes_ok (PInsert key r k)
| wo_update key r k :
    (row_fits (key_table key) r = true → bt_row_ok key r) → (∀ b, writes_ok (k b)) →
    writes_ok (PUpdate key r k)
| wo_delete key k : writes_ok k → writes_ok (PDelete key k)
| wo_nextval sq k : (∀ z, writes_ok (k z)) → writes_ok (PNextval sq k).

#[export] Hint Constructors writes_ok : dmx.

(** A logged change whose undo restores a consistent row. *)
Definition change_ok (c : Change) : Prop :=
  ∀ r, ch_old c = Some r → bt_row_ok (ch_key c) r.

Definition log_ok `{AuditLog L} (l : L) : Prop :=
  ∀ t, Forall change_ok (audit_changes t l).

(** The invariant of the databases the handler reaches. *)
Record Inv `{AuditLog L} (s : DB L) : Prop := {
  inv_audited : fully_audited s;
  inv_fresh : log_fresh_from (db_next_txid s) (db_log s);
  inv_typed : store_typed (db_store s);
  inv_consistent : bt_consistent (db_store s);
  inv_log : log_ok (db_log s)
}.

(** ** Rows of [_block_number_txid] and the transactions that wrote them *)

Definition bt_key (k : Key) : Prop := key_table k = block_txid_table.

(** The change the audit trigger logs when transaction [bt_txid b] inserts
    the row [b] at key [k]. *)
Definition bt_insert (k : Key) (b : BlockTxidRow) : Change :=
  mkChange (bt_txid b) k None (Some (RBlockTxid b)).

(** The row [b] at [k] is tagged in the log: its insertion is logged under
    the transaction identifier it records. *)
Definition tagged_in `{AuditLog L} (l : L) (k : Key) (b : BlockTxidRow) : Prop :=
  bt_insert k b ∈ audit_changes (bt_txid b) l.

(** Every row of [_block_number_txid], in the tables and as the old or
    new value of any logged change, is tagged: the identifier it records
    is the transaction that inserted it, which is what [rollbackTo]
    relies on when it undoes that identifier. *)
Definition bt_tagged `{AuditLog L} (st : Store) (l : L) : Prop :=
  (∀ k b, bt_key k → st !! k = Some (RBlockTxid b) → tagged_in l k b) ∧
  (∀ t c b, c ∈ audit_changes t l → bt_key (ch_key c) →
            ch_old c = Some (RBlockTxid b) ∨ ch_new c = Some (RBlockTxid b) →
            tagged_in l (ch_key c) b).

(** The writes of a transaction with identifier [t] that keep rows tagged:
    a row of [_block_number_txid] is written only if it is tagged already
    ([G]), or inserted with the transaction's own identifier. *)
Inductive tag_writes {A} (t : Z) (G : Key → BlockTxidRow → Prop) : Prog A → Prop :=
| tw_ret a : tag_writes t G (PRet a)
| tw_throw e : tag_writes t G (PThrow e)
| tw_txid k : tag_writes t G (k t) → tag_writes t G (PTxid k)
| tw_find key k : (∀ o, tag_writes t G (k o)) → tag_writes t G (PFind key k)
| tw_insert key r k :
    (∀ b, bt_key key → r = RBlockTxid b → G key b ∨ bt_txid b = t) → tag_writes t G k →
    tag_writes t G (PInsert key r k)
| tw_update key r k :
    (∀ b, bt_key key → r = RBlockTxid b → G key b) → (∀ o, tag_writes t G (k o)) →
    tag_writes t G (PUpdate key r k)
| tw_delete key k : tag_writes t G k → tag_writes t G (PDelete key k)
| tw_nextval sq k : (∀ z, tag_writes t G (k z)) → tag_writes t G (PNextval sq k).

#[export] Hint Constructors tag_writes : dmx.

(** ** The transitions *)

Section Steps.
Context `{AuditLog L}.

(** One call of the handler in schema [sch]: a block applied (whatever its
    outcome) or a rollback (whatever its outcome). *)
Inductive step : DB L → DB L → Prop :=
| step_apply sch b r hv m sf s :
    (∀ a c, user_prog (m a c)) →
    step s (applyBlock (MassiveActionHandler_new sch) b r hv m sf s).2
| step_rollback sch T s :
    step s (rollbackTo (MassiveActionHandler_new sch) T s).1.2.
End Steps.

(** ** The statements the handler issues write consistent rows *)

Lemma bind_writes_ok {A B} (p : Prog A) (f : A → Prog B) :
  writes_ok p → (∀ x, writes_ok (f x)) → writes_ok (p ≫= f).
Proof. change (p ≫= f) with (prog_bind f p). induction 1; simpl; auto with dmx. Qed.

Lemma user_prog_writes_ok {A} (p : Prog A) : user_prog p → writes_ok p.
Proof.
  induction 1; constructor; auto; intros Hfit; destruct r; simpl; auto;
    unfold bookkeeping_table in *; simpl in Hfit;
    rewrite bool_decide_eq_false in *; rewrite bool_decide_eq_true in Hfit; tauto.
Qed.

Lemma updateIndexState_writes_ok a b r hv c : writes_ok (updateIndexState a b r hv c).
Proof.
  unfold updateIndexState, findOne, find_row. constructor. intros o.
  apply bind_writes_ok; [|intros _; constructor; [done|constructor]].
  unfold save. simpl. case_match; simpl; repeat constructor.
Qed.

Lemma undo_changes_writes_ok cs : Forall change_ok cs → writes_ok (undo_changes cs).
Proof.
  induction 1 as [|c cs Hc _ IH]; simpl; [constructor|].
  apply bind_writes_ok; [|done]. unfold undo_change, change_ok in *.
  destruct (ch_old c) eqn:E1, (ch_new c); simpl; repeat constructor; auto.
Qed.

(** ** Every transition keeps the invariant *)

Section InvFacts.
Context `{AuditLog L}.
Implicit Types (s : DB L).

(** The part of [Inv] that statements can break. *)
Definition bt_ok s : Prop := bt_consistent (db_store s) ∧ log_ok (db_log s).

Lemma write_bt_ok t k o s :
  bt_ok s → (∀ r, o = Some r → bt_row_ok k r) → bt_ok (write t k o s).
Proof.
  intros [Hc Hl] Ho. unfold bt_ok, write; simpl. split.
  - intros k' r' Hk'. rewrite store_set_lookup in Hk'.
    case_decide; [subst; by apply Ho|exact (Hc _ _ Hk')].
  - case_match; [|done]. intros t'. rewrite audit_changes_record.
    case_decide; [|apply Hl]. constructor; [|apply Hl]. intros r Hr. exact (Hc _ _ Hr).
Qed.

Lemma run_bt_ok {A} t (p : Prog A) s : writes_ok p → bt_ok s → bt_ok (run t p s).2.
Proof.
  intros Hp. revert s.
  induction Hp as [a|e|k _ IH|key k _ IH|key r k Hr _ IH|key r k Hr _ IH|key k _ IH|sq k _ IH];
    intros s Hs; simpl; auto; repeat case_match; simpl; auto; apply IH;
    try exact Hs; apply write_bt_ok; naive_solver.
Qed.

(** A transaction of statements that write consistent rows keeps the
    invariant, whether it commits, throws or fails to serialize. *)
Lemma withTransaction_inv {A} sf (p : Prog A) s :
  writes_ok p → Inv s → Inv (withTransaction sf p s).2.
Proof.
  intros Hp [Ha Hf Hty Hc Hl].
  pose proof (run_frame (db_next_txid s) p (begin_tx s)) as [Hn Hu].
  pose proof (run_typed (db_next_txid s) p (begin_tx s) Hty) as Hty'.
  pose proof (run_fresh (db_next_txid s + 1) (db_next_txid s) p (begin_tx s)) as Hf'.
  pose proof (run_bt_ok (db_next_txid s) p (begin_tx s) Hp (conj Hc Hl)) as [Hc' Hl'].
  assert (log_fresh_from (db_next_txid s + 1) (db_log s)) by (eapply log_fresh_mono; [|exact Hf]; lia).
  unfold withTransaction, abort_tx, fully_audited in *.
  destruct (run _ p (begin_tx s)) as [[a|e] s1]; [destruct sf|]; simpl in *;
    split; simpl; unfold fully_audited; rewrite ?Hn, ?Hu; auto with lia.
Qed.

Lemma applyBlock_inv sch b r hv m sf s :
  (∀ a c, user_prog (m a c)) → Inv s →
  Inv (applyBlock (MassiveActionHandler_new sch) b r hv m sf s).2.
Proof.
  intros Hm. unfold applyBlock. rewrite handleWithState_unfold.
  apply withTransaction_inv, bind_writes_ok;
    auto using user_prog_writes_ok, updateIndexState_writes_ok.
Qed.

Lemma fn_undo_transaction_inv t s : Inv s → Inv (fn_undo_transaction t s).2.
Proof.
  intros Hs. apply withTransaction_inv; [|done].
  apply undo_changes_writes_ok, (inv_log _ Hs).
Qed.

Lemma rollback_loop_inv rows s : Inv s → Inv (rollback_loop rows s).1.2.
Proof.
  revert s. induction rows as [|x rows IH]; intros s Hs; simpl; [done|].
  pose proof (fn_undo_transaction_inv (bt_txid x) s Hs) as Hs1.
  destruct (fn_undo_transaction _ s) as [[[]|e] s1]; simpl in *; [|done].
  specialize (IH s1 Hs1). by destruct (rollback_loop rows s1) as [[o s2] out].
Qed.

Lemma rollbackTo_inv h T s : Inv s → Inv (rollbackTo h T s).1.2.
Proof.
  intros Hs. unfold rollbackTo.
  pose proof (rollback_loop_inv (where_block_number_gt (schemaInstance h) T (db_store s)) s Hs).
  by destruct (rollback_loop _ s) as [[[[]|e] s'] out].
Qed.

Lemma step_inv s s' : step s s' → Inv s → Inv s'.
Proof. destruct 1; eauto using applyBlock_inv, rollbackTo_inv. Qed.

(** A fresh schema satisfies the invariant. *)
Lemma fresh_db_inv n : Inv (fresh_db n).
Proof.
  split; simpl; [done|apply log_fresh_empty|apply map_Forall_empty..|].
  intros t. rewrite audit_changes_empty. constructor.
Qed.
End InvFacts.

(** ** Every transition keeps the rows tagged *)

Section Tagging.
Context `{AuditLog L}.
Implicit Types (s : DB L).

Lemma tagged_in_record l c k b : tagged_in l k b → tagged_in (audit_record c l) k b.
Proof. unfold tagged_in. rewrite audit_changes_record. case_decide; [by right|done]. Qed.

Lemma write_tagged_in t k o s k' b :
  tagged_in (db_log s) k' b → tagged_in (db_log (write t k o s)) k' b.
Proof. intros Hb. unfold write; cbn [db_log]. case_match; [by apply tagged_in_record|done]. Qed.

Lemma write_tagged t k o s :
  fully_audited s → bt_tagged (db_store s) (db_log s) →
  (∀ b, bt_key k → o = Some (RBlockTxid b) →
        tagged_in (db_log s) k b ∨ (bt_txid b = t ∧ db_store s !! k = None)) →
  bt_tagged (db_store (write t k o s)) (db_log (write t k o s)).
Proof.
  intros Ha [Hst Hlog] Ho. unfold write, audited. cbn [db_store db_log].
  rewrite Ha, bool_decide_true by set_solver.
  set (c := mkChange t k (db_store s !! k) o).
  assert (∀ b, bt_key k → o = Some (RBlockTxid b) → tagged_in (audit_record c (db_log s)) k b) as Hnew.
  { intros b Hk ->. destruct (Ho b Hk eq_refl) as [Hb|[Ht Hnone]]; [by apply tagged_in_record|].
    unfold tagged_in. rewrite audit_changes_record, decide_True by done.
    apply elem_of_cons. left. unfold c, bt_insert. by rewrite Hnone, Ht. }
  split.
  - intros k' b Hk' Hb. rewrite store_set_lookup in Hb. case_decide; [subst; by apply Hnew|].
    apply tagged_in_record, Hst; done.
  - intros t' c' b Hc' Hk' Hv. rewrite audit_changes_record in Hc'.
    case_decide; [apply elem_of_cons in Hc' as [->|Hc']|]; cbn [ch_key ch_old ch_new] in *;
      [|apply tagged_in_record; by eapply Hlog..].
    destruct Hv as [Hv|Hv]; [apply tagged_in_record, Hst|apply Hnew]; done.
Qed.

Lemma set_seq_tagged sq v s :
  bt_tagged (db_store (set_seq sq v s)) (db_log (set_seq sq v s)) ↔ bt_tagged (db_store s) (db_log s).
Proof. done. Qed.

(** A run whose writes keep rows tagged keeps the tables and the log
    tagged, when [G] names rows tagged at its start. *)
Lemma run_tagged {A} t G (p : Prog A) s :
  tag_writes t G p → fully_audited s → bt_tagged (db_store s) (db_log s) →
  (∀ k b, G k b → tagged_in (db_log s) k b) →
  bt_tagged (db_store (run t p s).2) (db_log (run t p s).2).
Proof.
  intros Hp. revert s.
  induction Hp as [a|e|k _ IH|key k _ IH|key r k Hr _ IH|key r k Hr _ IH|key k _ IH|sq k _ IH];
    intros s Ha Ht HG; simpl; auto; repeat case_match; simpl; auto;
    apply IH; try done;
    try (intros k' b' Hb'; apply write_tagged_in; by apply HG);
    try (apply write_tagged; try done; intros b Hk [= ->]).
  - destruct (Hr b Hk eq_refl) as [?|?]; [left; by apply HG|by right].
  - left. by apply HG, Hr.
Qed.

Lemma withTransaction_tagged {A} sf G (p : Prog A) s :
  tag_writes (db_next_txid s) G p → fully_audited s → bt_tagged (db_store s) (db_log s) →
  (∀ k b, G k b → tagged_in (db_log s) k b) →
  bt_tagged (db_store (withTransaction sf p s).2) (db_log (withTransaction sf p s).2).
Proof.
  intros Hp Ha Ht HG. pose proof (run_tagged _ G p (begin_tx s) Hp Ha Ht HG) as Hr.
  unfold withTransaction. destruct (run _ p (begin_tx s)) as [[a|e] s1]; [destruct sf|]; done.
Qed.

Lemma bind_tag_writes {A B} t G (p : Prog A) (f : A → Prog B) :
  tag_writes t G p → (∀ x, tag_writes t G (f x)) → tag_writes t G (p ≫= f).
Proof. change (p ≫= f) with (prog_bind f p). induction 1; simpl; auto with dmx. Qed.

Lemma user_prog_tag_writes {A} t G (p : Prog A) : user_prog p → tag_writes t G p.
Proof.
  induction 1; constructor; auto; intros b Hk _;
    unfold bookkeeping_table, bt_key in *; rewrite Hk, bool_decide_eq_false in *; tauto.
Qed.

(** [updateIndexState] inserts the block's row with the identifier of the
    context: tagged when the context carries the transaction's own. *)
Lemma updateIndexState_tag_writes t G a b r hv :
  tag_writes t G (updateIndexState a b r hv {| txid := t |}).
Proof.
  unfold updateIndexState, findOne, find_row. constructor. intros o.
  apply bind_tag_writes; [|intros _; constructor; [intros ? _ [= <-]; by right|constructor]].
  unfold save. simpl. case_match; simpl.
  - apply tw_update; [by intros ? _ ?|intros; constructor].
  - apply tw_nextval. intros z. apply tw_insert; [by intros ? _ ?|constructor].
Qed.

Lemma undo_changes_tag_writes t (l : L) st cs :
  bt_tagged st l → (∀ c, c ∈ cs → ∃ t', c ∈ audit_changes t' l) →
  tag_writes t (tagged_in l) (undo_changes cs).
Proof.
  intros [_ Hlog]. induction cs as [|c cs IH]; intros Hcs; simpl; [constructor|].
  apply bind_tag_writes; [|intros _; apply IH; intros c' ?; apply Hcs, elem_of_cons; by right].
  destruct (Hcs c ltac:(by apply elem_of_cons; left)) as [t' Hc].
  assert (∀ b, ch_old c = Some (RBlockTxid b) → bt_key (ch_key c) → tagged_in l (ch_key c) b)
    as Hold by (intros b Hb Hk; by eapply Hlog; [exact Hc|done|left]).
  unfold undo_change. destruct (ch_old c) as [o|] eqn:Eo, (ch_new c); simpl.
  - apply tw_update; [intros b Hk ->; by apply Hold|intros; constructor].
  - apply tw_insert; [intros b Hk ->; left; by apply Hold|constructor].
  - apply tw_delete. constructor.
  - constructor.
Qed.

Lemma applyBlock_tagged sch b r hv m sf s :
  (∀ a c, user_prog (m a c)) → Inv s → bt_tagged (db_store s) (db_log s) →
  bt_tagged (db_store (applyBlock (MassiveActionHandler_new sch) b r hv m sf s).2)
            (db_log (applyBlock (MassiveActionHandler_new sch) b r hv m sf s).2).
Proof.
  intros Hm Hs Ht. unfold applyBlock. rewrite handleWithState_unfold.
  apply (withTransaction_tagged _ (λ _ _, False)); [|apply Hs|done|done].
  apply bind_tag_writes; [apply user_prog_tag_writes, Hm|intros _; apply updateIndexState_tag_writes].
Qed.

Lemma fn_undo_transaction_tagged t s :
  Inv s → bt_tagged (db_store s) (db_log s) →
  bt_tagged (db_store (fn_undo_transaction t s).2) (db_log (fn_undo_transaction t s).2).
Proof.
  intros Hs Ht. apply (withTransaction_tagged _ (tagged_in (db_log s))); [|apply Hs|done|done].
  apply (undo_changes_tag_writes _ _ (db_store s)); [done|]. intros c Hc. by exists t.
Qed.

Lemma rollback_loop_tagged rows s :
  Inv s → bt_tagged (db_store s) (db_log s) →
  bt_tagged (db_store (rollback_loop rows s).1.2) (db_log (rollback_loop rows s).1.2).
Proof.
  revert s. induction rows as [|x rows IH]; intros s Hs Ht; simpl; [done|].
  pose proof (fn_undo_transaction_inv (bt_txid x) s Hs) as Hs1.
  pose proof (fn_undo_transaction_tagged (bt_txid x) s Hs Ht) as Ht1.
  destruct (fn_undo_transaction _ s) as [[[]|e] s1]; simpl in *; [|done].
  specialize (IH s1 Hs1 Ht1). by destruct (rollback_loop rows s1) as [[o s2] out].
Qed.

Lemma step_tagged s s' :
  step s s' → Inv s → bt_tagged (db_store s) (db_log s) → bt_tagged (db_store s') (db_log s').
Proof.
  destruct 1 as [sch b r hv m sf s Hm|sch T s]; intros Hs Ht; [by apply applyBlock_tagged|].
  unfold rollbackTo.
  pose proof (rollback_loop_tagged (where_block_number_gt (schemaInstance (MassiveActionHandler_new sch)) T
                (db_store s)) s Hs Ht).
  by destruct (rollback_loop _ s) as [[[[]|e] s1] out].
Qed.
(** A fresh schema has no row to tag. *)
Lemma fresh_db_tagged n : bt_tagged (db_store (fresh_db (L:=L) n)) (db_log (fresh_db (L:=L) n)).
Proof.
  split; simpl; [intros k b _ Hb; by rewrite lookup_empty in Hb|].
  intros t c b Hc. rewrite audit_changes_empty in Hc. by apply elem_of_nil in Hc.
Qed.
End Tagging.

(** C7: Invariant of the handler's life cycle: from a database that
    satisfies [Inv] and whose [_block_number_txid] rows are tagged (a
    fresh schema does), every sequence of [applyBlock] and [rollbackTo]
    calls, in any schemas, each committed, thrown, failed to serialize or
    stopped midway, reaches a database where all tables are audited, the
    next transaction identifiers are unused in the audit log, every row
    has the shape of its table, every [_block_number_txid] row sits at
    the key of its block number, every logged change undoes into such
    rows, and every [_block_number_txid] row, in the tables or in a
    logged change, records the transaction whose logged changes insert
    it, so that undoing that identifier removes it. *)
Theorem reachable_inv `{AuditLog L} (s0 s : DB L) :
  Inv s0 → bt_tagged (db_store s0) (db_log s0) → rtc step s0 s →
  Inv s ∧ bt_tagged (db_store s) (db_log s).
Proof.
  intros H0 T0 Hrun. revert H0 T0.
  induction Hrun as [s|s s1 s' Hstep _ IH]; intros H0 T0; [done|].
  apply IH; [by eapply step_inv|by eapply step_tagged].
Qed.

(** ** Runs of blocks and the rollback suffix property *)

Section Suffix.
Context `{AuditLog L}.
Implicit Types (s : DB L) (jobs : list BlockJob).

Lemma apply_blocks_app h r hv jobs1 jobs2 s :
  apply_blocks h r hv (jobs1 ++ jobs2) s =
    match apply_blocks h r hv jobs1 s with
    | (Ok _, s1) => apply_blocks h r hv jobs2 s1
    | (Throw e, s1) => (Throw e, s1)
    end.
Proof.
  revert s. induction jobs1 as [|[b m] jobs1 IH]; intros s; simpl; [done|].
  by destruct (applyBlock h b r hv m false s) as [[[]|e] s1].
Qed.

Lemma apply_blocks_inv sch r hv jobs s :
  Forall (λ j : BlockJob, ∀ a c, user_prog (j.2 a c)) jobs → Inv s →
  Inv (apply_blocks (MassiveActionHandler_new sch) r hv jobs s).2.
Proof.
  intros Hjobs. revert s. induction Hjobs as [|[b m] jobs Hm _ IH]; intros s Hs; simpl; [done|].
  pose proof (applyBlock_inv sch b r hv m false s Hm Hs) as Hs1.
  destruct (applyBlock _ b r hv m false s) as [[[]|e] s1]; simpl in *; auto.
Qed.

(** A committed run of blocks leaves the [_block_number_txid] rows of the
    other block numbers alone. *)
Lemma apply_blocks_bt_other sch r hv jobs s s' id :
  Forall (λ j : BlockJob, ∀ a c, user_prog (j.2 a c)) jobs →
  apply_blocks (MassiveActionHandler_new sch) r hv jobs s = (Ok tt, s') →
  id ∉ job_number <$> jobs →
  db_store s' !! (sch, block_txid_table, id) = db_store s !! (sch, block_txid_table, id).
Proof.
  intros Hjobs. revert s. induction Hjobs as [|[b m] jobs Hm _ IH]; intros s Hrun Hid;
    simpl in *; [by simplify_eq|].
  destruct (applyBlock _ b r hv m false s) as [[[]|e] s1] eqn:E; [|done].
  rewrite not_elem_of_cons in Hid. destruct Hid as [Hb Hid].
  rewrite (IH s1 Hrun Hid), (applyBlock_block_txid sch b r hv m s s1 (sch, block_txid_table, id) Hm E eq_refl).
  rewrite decide_False; [done|]. intros [= ?]. by apply Hb.
Qed.

(** Rows of [_block_number_txid] at or below [T] carry over between
    stores that agree on those keys. *)
Lemma block_txid_rows_below sch T st st' x :
  bt_consistent st →
  (∀ id, id <= T → st' !! (sch, block_txid_table, id) = st !! (sch, block_txid_table, id)) →
  x ∈ block_txid_rows sch st → bt_block_number x <= T → x ∈ block_txid_rows sch st'.
Proof.
  intros Hc Hagree. rewrite !block_txid_rows_elem. intros [id Hx] HT.
  pose proof (Hc _ _ Hx) as Hid. simpl in Hid. unfold key_id in Hid; simpl in Hid.
  exists id. rewrite Hagree by lia. done.
Qed.

(** A committed run of blocks at or below [T] adds no row above [T]. *)
Lemma apply_blocks_rows_below sch T r hv jobs s s' :
  Forall (λ j : BlockJob, job_number j <= T ∧ ∀ a c, user_prog (j.2 a c)) jobs →
  Inv s → (∀ x, x ∈ block_txid_rows sch (db_store s) → bt_block_number x <= T) →
  apply_blocks (MassiveActionHandler_new sch) r hv jobs s = (Ok tt, s') →
  ∀ x, x ∈ block_txid_rows sch (db_store s') → bt_block_number x <= T.
Proof.
  intros Hjobs Hs Hbelow Hrun x Hx.
  assert (Forall (λ j : BlockJob, ∀ a c, user_prog (j.2 a c)) jobs) as Hu
    by (eapply Forall_impl; [exact Hjobs|]; naive_solver).
  pose proof (apply_blocks_inv sch r hv jobs s Hu Hs) as Hs'. rewrite Hrun in Hs'.
  apply block_txid_rows_elem in Hx as [id Hx].
  pose proof (inv_consistent _ Hs' _ _ Hx) as Hid. simpl in Hid. unfold key_id in Hid; simpl in Hid.
  destruct (decide (id ∈ job_number <$> jobs)) as [Hin|Hout].
  - apply list_elem_of_fmap in Hin as (j & -> & Hj).
    eapply Forall_forall in Hjobs; [|exact Hj]. lia.
  - rewrite (apply_blocks_bt_other sch r hv jobs s s' id Hu Hrun Hout) in Hx.
    apply Hbelow, block_txid_rows_elem. by exists id.
Qed.

Lemma Forall_user {P : BlockJob → Prop} jobs :
  Forall (λ j : BlockJob, P j ∧ ∀ a c, user_prog (j.2 a c)) jobs →
  Forall (λ j : BlockJob, ∀ a c, user_prog (j.2 a c)) jobs.
Proof. intros Hj. eapply Forall_impl; [exact Hj|]. naive_solver. Qed.

(** Rolling back to [T] a run of blocks at or below [T] followed by
    blocks above [T]: the rollback succeeds and restores the tables left
    by the first part, which agree with the final tables on every
    [_block_number_txid] key at or below [T]. *)
Lemma rollback_after_prefix sch T r hv jobs1 jobs2 s0 s1 s :
  Inv s0 → (∀ x, x ∈ block_txid_rows sch (db_store s0) → bt_block_number x <= T) →
  Forall (λ j : BlockJob, job_number j <= T ∧ ∀ a c, user_prog (j.2 a c)) jobs1 →
  Forall (λ j : BlockJob, T < job_number j ∧ ∀ a c, user_prog (j.2 a c)) jobs2 →
  StronglySorted (λ j1 j2, job_number j1 < job_number j2) jobs2 →
  apply_blocks (MassiveActionHandler_new sch) r hv jobs1 s0 = (Ok tt, s1) →
  apply_blocks (MassiveActionHandler_new sch) r hv jobs2 s1 = (Ok tt, s) →
  Inv s1 ∧ Inv s ∧ (∀ x, x ∈ block_txid_rows sch (db_store s1) → bt_block_number x <= T) ∧
  (∀ id, id <= T →
     db_store s !! (sch, block_txid_table, id) = db_store s1 !! (sch, block_txid_table, id)) ∧
  ∃ s' out, rollbackTo (MassiveActionHandler_new sch) T s = (Ok tt, s', out) ∧
            db_store s' = db_store s1.
Proof.
  intros Hs0 Hbelow Hj1 Hj2 Hsorted E1 E2.
  pose proof (apply_blocks_inv sch r hv jobs1 s0 (Forall_user _ Hj1) Hs0) as Hs1. rewrite E1 in Hs1.
  pose proof (apply_blocks_inv sch r hv jobs2 s1 (Forall_user _ Hj2) Hs1) as Hs. rewrite E2 in Hs.
  destruct (apply_blocks_refines sch T s1 [] s1 jobs2 r hv s) as (rows & Href & _);
    [destruct Hs1; apply refines_init; eauto using apply_blocks_rows_below|done|done|constructor|done|].
  destruct (refines_rollback sch T s1 rows s Href) as (s' & Hrb & Hs').
  split_and!; eauto using apply_blocks_rows_below.
  intros id Hid. apply (apply_blocks_bt_other sch r hv jobs2 s1 s id (Forall_user _ Hj2) E2).
  intros (j & -> & Hj)%list_elem_of_fmap. eapply Forall_forall in Hj2; [|exact Hj]. lia.
Qed.
End Suffix.

(** C6: Spec §8, rollback suffix property: a run that commits blocks at
    or below [T] and then blocks above [T] in increasing order, from a
    database satisfying [Inv] with no [_block_number_txid] row above [T],
    is rolled back by [rollbackTo T] without error to exactly the tables
    after the blocks at or below [T]; the [_block_number_txid] rows left
    are exactly the rows at or below [T] before the rollback. *)
Theorem rollback_suffix `{AuditLog L} sch T r hv jobs1 jobs2 (s0 s : DB L) :
  Inv s0 → (∀ x, x ∈ block_txid_rows sch (db_store s0) → bt_block_number x <= T) →
  Forall (λ j : BlockJob, job_number j <= T ∧ ∀ a c, user_prog (j.2 a c)) jobs1 →
  Forall (λ j : BlockJob, T < job_number j ∧ ∀ a c, user_prog (j.2 a c)) jobs2 →
  StronglySorted (λ j1 j2, job_number j1 < job_number j2) jobs2 →
  apply_blocks (MassiveActionHandler_new sch) r hv (jobs1 ++ jobs2) s0 = (Ok tt, s) →
  ∃ s', (rollbackTo (MassiveActionHandler_new sch) T s).1 = (Ok tt, s') ∧
        db_store s' = db_store (apply_blocks (MassiveActionHandler_new sch) r hv jobs1 s0).2 ∧
        ∀ x, x ∈ block_txid_rows sch (db_store s') ↔
             x ∈ block_txid_rows sch (db_store s) ∧ bt_block_number x <= T.
Proof.
  intros Hs0 Hbelow Hj1 Hj2 Hsorted Hrun. rewrite apply_blocks_app in Hrun.
  destruct (apply_blocks _ r hv jobs1 s0) as [[[]|e] s1] eqn:E1; [|discriminate]; simpl.
  destruct (rollback_after_prefix sch T r hv jobs1 jobs2 s0 s1 s Hs0 Hbelow Hj1 Hj2 Hsorted E1 Hrun)
    as (Hs1 & Hs & Hbelow1 & Hagree & s' & out & -> & Hs').
  exists s'. split_and!; [done|done|]. intros x. rewrite Hs'. split.
  - intros Hx. pose proof (Hbelow1 x Hx).
    split; [|done]. eapply block_txid_rows_below; [apply Hs1|exact Hagree|done|done].
  - intros [Hx HT]. eapply block_txid_rows_below; [apply Hs| |done|done].
    intros id Hid. symmetry. by apply Hagree.
Qed.

(** ** The lost cursor *)

Section CursorLoss.
Context `{AuditLog L}.
Implicit Types (s : DB L).

(** One block applied in schema [sch], whatever its outcome. *)
Inductive apply_step (sch : string) : DB L → DB L → Prop :=
| astep b r hv m sf s :
    (∀ a c, user_prog (m a c)) →
    apply_step sch s (applyBlock (MassiveActionHandler_new sch) b r hv m sf s).2.

(** The cursor row [loadIndexState] reads is absent, and the id sequence
    of [_index_state] will not hand out 1 again. *)
Definition cursor_lost (sch : string) s : Prop :=
  db_store s !! (sch, index_state_table, 1) = None ∧
  2 <= seq_next (sch, index_state_table) s.

Lemma applyBlock_cursor_lost sch b r hv m sf s :
  (∀ a c, user_prog (m a c)) → cursor_lost sch s →
  cursor_lost sch (applyBlock (MassiveActionHandler_new sch) b r hv m sf s).2.
Proof.
  intros Hm [Hnone Hseq]. split.
  2:{ etransitivity; [exact Hseq|]. unfold applyBlock. rewrite handleWithState_unfold.
      apply withTransaction_seq_mono. }
  destruct (applyBlock _ b r hv m sf s) as [[[]|e] s'] eqn:E; simpl.
  - apply applyBlock_ok in E as (_ & s1 & Hm1 & Hu).
    apply run_updateIndexState_ok in Hu as (id & Hst & _ & _ & Hid).
    unfold table_key in *; simpl in *; rewrite !select_accessor_schema in *.
    rewrite (user_prog_result_store _ _ _ _ _ _ (Hm _ _) Hm1) in Hid by done.
    rewrite Hid in Hst by done. unfold seq_next in Hst, Hseq.
    rewrite (user_prog_result_seqs _ _ _ _ _ _ (Hm _ _) Hm1) in Hst by done.
    rewrite Hst, store_set_lookup_ne, store_set_lookup_ne by (intros [=]; lia).
    by rewrite (user_prog_result_store _ _ _ _ _ _ (Hm _ _) Hm1).
  - by apply applyBlock_throw in E as [-> _].
Qed.
End CursorLoss.

(** C9: Finding, in general: once the cursor row with id 1 of
    [_index_state] is gone and the table's id sequence is past 1 (after
    a rollback below the first block, or an aborted first block), no
    sequence of later blocks, committed or not, brings it back:
    [loadIndexState] returns the default cursor [{0, "", "v1", false}]
    from then on, whatever blocks were applied. *)
Theorem cursor_lost_forever `{AuditLog L} sch (s s' : DB L) :
  cursor_lost sch s → rtc (apply_step sch) s s' →
  loadIndexState (MassiveActionHandler_new sch) s' =
    {| MigrationIndexState.blockNumber := 0; MigrationIndexState.blockHash := "";
       MigrationIndexState.handlerVersionName := "v1";
       MigrationIndexState.isReplay := false |}.
Proof.
  intros Hl Hrun. apply loadIndexState_absent.
  cbn [schemaInstance MassiveActionHandler_new]. unfold table_key. rewrite select_accessor_schema.
  induction Hrun as [s|s s1 s' [b r hv m sf ? Hm] _ IH]; [apply Hl|].
  by apply IH, applyBlock_cursor_lost.
Qed.

(** ** Re-applying blocks after a rollback *)

Section RoundTrip.
Context `{AuditLog L}.
Implicit Types (s : DB L) (jobs : list BlockJob).

(** After a committed run of blocks, row 1 of [_index_state] holds the
    cursor of the last block, when row 1 existed or the id sequence would
    hand out 1 before. *)
Lemma apply_blocks_cursor_row sch r hv jobs s s' :
  Forall (λ j : BlockJob, ∀ a c, user_prog (j.2 a c)) jobs →
  is_Some (db_store s !! (sch, index_state_table, 1)) ∨ seq_next (sch, index_state_table) s = 1 →
  apply_blocks (MassiveActionHandler_new sch) r hv jobs s = (Ok tt, s') →
  db_store s' !! (sch, index_state_table, 1) =
    match last jobs with
    | Some j => Some (cursor_row j.1 r hv)
    | None => db_store s !! (sch, index_state_table, 1)
    end.
Proof.
  intros Hjobs. revert s. induction Hjobs as [|[b m] jobs Hm Hjobs IH]; intros s Hslot Hrun;
    simpl in *; [by simplify_eq|].
  destruct (applyBlock _ b r hv m false s) as [[[]|e] s1] eqn:E; [|done].
  pose proof (applyBlock_cursor_row sch b r hv m s s1 Hm Hslot E) as Hc.
  rewrite (IH s1); [|left; by rewrite Hc|done].
  rewrite last_cons. by destruct (last jobs).
Qed.

(** Every block of a committed run has its [_block_number_txid] row. *)
Lemma apply_blocks_bt_present sch r hv jobs s s' n :
  Forall (λ j : BlockJob, ∀ a c, user_prog (j.2 a c)) jobs →
  apply_blocks (MassiveActionHandler_new sch) r hv jobs s = (Ok tt, s') →
  n ∈ job_number <$> jobs ∨ (∃ y, db_store s !! (sch, block_txid_table, n) = Some (RBlockTxid y)) →
  ∃ y, db_store s' !! (sch, block_txid_table, n) = Some (RBlockTxid y).
Proof.
  intros Hjobs. revert s. induction Hjobs as [|[b m] jobs Hm _ IH]; intros s Hrun Hn; simpl in *.
  - simplify_eq. destruct Hn as [Hn|]; [by apply elem_of_nil in Hn|done].
  - destruct (applyBlock _ b r hv m false s) as [[[]|e] s1] eqn:E; [|done].
    apply (IH s1 Hrun). rewrite elem_of_cons in Hn.
    rewrite (applyBlock_block_txid sch b r hv m s s1 (sch, block_txid_table, n) Hm E eq_refl).
    case_decide as Hk; [by right; eexists|].
    destruct Hn as [[->|Hn]|Hn]; [by destruct Hk|by left|by right].
Qed.
End RoundTrip.

(** C8: Spec §8, round trip, in general: blocks at or below [T] and then
    blocks above [T] are applied, [rollbackTo T] runs, and blocks above
    [T] are applied again (possibly other blocks with other payloads).
    When the cursor row existed before, or is inserted by the first
    block on a fresh id sequence, the cursor then holds the last block
    re-applied, and [_block_number_txid] holds exactly one row per block
    number: the numbers at or below [T] it had before the rollback, and
    the numbers of the re-applied blocks. *)
Theorem round_trip `{AuditLog L} sch T r hv jobs1 jobs2 jobs3 (s0 s s'' : DB L) :
  Inv s0 → (∀ x, x ∈ block_txid_rows sch (db_store s0) → bt_block_number x <= T) →
  is_Some (db_store s0 !! (sch, index_state_table, 1)) ∨
    (seq_next (sch, index_state_table) s0 = 1 ∧ jobs1 ≠ []) →
  Forall (λ j : BlockJob, job_number j <= T ∧ ∀ a c, user_prog (j.2 a c)) jobs1 →
  Forall (λ j : BlockJob, T < job_number j ∧ ∀ a c, user_prog (j.2 a c)) jobs2 →
  StronglySorted (λ j1 j2, job_number j1 < job_number j2) jobs2 →
  Forall (λ j : BlockJob, T < job_number j ∧ ∀ a c, user_prog (j.2 a c)) jobs3 →
  apply_blocks (MassiveActionHandler_new sch) r hv (jobs1 ++ jobs2) s0 = (Ok tt, s) →
  apply_blocks (MassiveActionHandler_new sch) r hv jobs3
    (rollbackTo (MassiveActionHandler_new sch) T s).1.2 = (Ok tt, s'') →
  (∀ j, last jobs3 = Some j →
     loadIndexState (MassiveActionHandler_new sch) s'' =
       {| MigrationIndexState.blockNumber := job_number j;
          MigrationIndexState.blockHash := blockHash (blockInfo j.1);
          MigrationIndexState.handlerVersionName := hv;
          MigrationIndexState.isReplay := r |}) ∧
  NoDup (bt_block_number <$> block_txid_rows sch (db_store s'')) ∧
  ∀ n, (∃ x, x ∈ block_txid_rows sch (db_store s'') ∧ bt_block_number x = n) ↔
       ((∃ x, x ∈ block_txid_rows sch (db_store s) ∧ bt_block_number x = n) ∧ n <= T) ∨
       n ∈ job_number <$> jobs3.
Proof.
  intros Hs0 Hbelow Hslot Hj1 Hj2 Hsorted Hj3 Hrun Hre. rewrite apply_blocks_app in Hrun.
  destruct (apply_blocks _ r hv jobs1 s0) as [[[]|e] s1] eqn:E1; [|discriminate]; simpl.
  destruct (rollback_after_prefix sch T r hv jobs1 jobs2 s0 s1 s Hs0 Hbelow Hj1 Hj2 Hsorted E1 Hrun)
    as (Hs1 & Hs & Hbelow1 & Hagree & s' & out & Hrb & Hs').
  rewrite Hrb in Hre; simpl in Hre.
  pose proof (rollbackTo_inv (MassiveActionHandler_new sch) T s Hs) as Hs'i. rewrite Hrb in Hs'i.
  pose proof (apply_blocks_inv sch r hv jobs3 s' (Forall_user _ Hj3) Hs'i) as Hs''. rewrite Hre in Hs''.
  assert (is_Some (db_store s1 !! (sch, index_state_table, 1))) as Hrow1.
  { rewrite (apply_blocks_cursor_row sch r hv jobs1 s0 s1 (Forall_user _ Hj1)); [|naive_solver|done].
    destruct (last jobs1) eqn:El; [done|]. apply last_None in El. naive_solver. }
  split_and!.
  - intros j Hj. unfold loadIndexState, table_key; simpl. rewrite select_accessor_schema.
    rewrite (apply_blocks_cursor_row sch r hv jobs3 s' s'' (Forall_user _ Hj3)), Hj;
      [done|left; by rewrite Hs'|done].
  - apply block_txid_rows_NoDup, Hs''.
  - intros n.
    assert (∀ st x, bt_consistent st → x ∈ block_txid_rows sch st →
              st !! (sch, block_txid_table, bt_block_number x) = Some (RBlockTxid x)) as Hkey.
    { intros st x Hc (id & Hid)%block_txid_rows_elem. pose proof (Hc _ _ Hid) as E.
      simpl in E. unfold key_id in E; simpl in E. by subst. }
    destruct (decide (n ∈ job_number <$> jobs3)) as [Hin|Hout]; split; try tauto.
    + intros _. destruct (apply_blocks_bt_present sch r hv jobs3 s' s'' n (Forall_user _ Hj3) Hre)
        as [y Hy]; [by left|].
      exists y. pose proof (inv_consistent _ Hs'' _ _ Hy) as E. simpl in E.
      unfold key_id in E; simpl in E. split; [apply block_txid_rows_elem; by exists n|done].
    + intros (x & Hx & <-). left. apply Hkey in Hx; [|apply Hs''].
      rewrite (apply_blocks_bt_other sch r hv jobs3 s' s'' _ (Forall_user _ Hj3) Hre Hout), Hs' in Hx.
      assert (x ∈ block_txid_rows sch (db_store s1)) as Hx1 by (apply block_txid_rows_elem; eauto).
      pose proof (Hbelow1 x Hx1). split; [|done]. exists x. split; [|done].
      apply block_txid_rows_elem. exists (bt_block_number x). by rewrite Hagree.
    + intros [((x & Hx & <-) & HT)|]; [|done]. exists x. split; [|done].
      apply Hkey in Hx; [|apply Hs]. rewrite Hagree in Hx by done.
      apply block_txid_rows_elem. exists (bt_block_number x).
      by rewrite (apply_blocks_bt_other sch r hv jobs3 s' s'' _ (Forall_user _ Hj3) Hre Hout), Hs'.
Qed.

(** ** The theorems at concrete inputs *)

Import EventList Fixtures.

(** The updater of the fixtures writes a user table only. *)
Lemma insert_item_user id payload a c : user_prog (insert_item id payload a c).
Proof. unfold insert_item, insert_row. constructor; [reflexivity|constructor]. Qed.

Lemma reachable_inv_witness :
  Inv (rollbackTo h 0 (applyBlock h (blk 1 "a") false "v1" (insert_item 1 "x") false db0).2).1.2 ∧
  bt_tagged (db_store (rollbackTo h 0 (applyBlock h (blk 1 "a") false "v1" (insert_item 1 "x") false db0).2).1.2)
            (db_log (rollbackTo h 0 (applyBlock h (blk 1 "a") false "v1" (insert_item 1 "x") false db0).2).1.2).
Proof.
  apply (reachable_inv db0); [apply fresh_db_inv|apply fresh_db_tagged|].
  apply (rtc_l step db0 (applyBlock h (blk 1 "a") false "v1" (insert_item 1 "x") false db0).2).
  { apply (step_apply "public"), insert_item_user. }
  apply (rtc_l step _ (rollbackTo h 0 (applyBlock h (blk 1 "a") false "v1" (insert_item 1 "x")
                                         false db0).2).1.2).
  - apply (step_rollback "public").
  - apply rtc_refl.
Defined.
Lemma rollback_suffix_witness :
  ∃ s', (rollbackTo h 1 (apply_blocks h false "v1"
                           ([job 1 "a" "x"] ++ [job 2 "b" "y"; job 3 "c" "z"]) db0).2).1 =
          (Ok tt, s') ∧
        db_store s' = db_store (apply_blocks h false "v1" [job 1 "a" "x"] db0).2 ∧
        ∀ x, x ∈ block_txid_rows "public" (db_store s') ↔
             x ∈ block_txid_rows "public"
                   (db_store (apply_blocks h false "v1"
                                ([job 1 "a" "x"] ++ [job 2 "b" "y"; job 3 "c" "z"]) db0).2) ∧
             bt_block_number x <= 1.
Proof.
  apply (rollback_suffix "public" 1 false "v1" [job 1 "a" "x"] [job 2 "b" "y"; job 3 "c" "z"] db0).
  - apply fresh_db_inv.
  - intros b Hb; vm_compute in Hb; set_solver.
  - repeat constructor; vm_compute; congruence.
  - repeat constructor; vm_compute; reflexivity.
  - repeat constructor; vm_compute; reflexivity.
  - apply pair_eq_of_fst; vm_compute; reflexivity.
Defined.

(** The database after block 1 and [rollbackTo 0]. *)
Definition after_rollback_to_zero : DB log :=
  (rollbackTo h 0 (applyBlock h (blk 1 "a") false "v1" (insert_item 1 "x") false db0).2).1.2.

Lemma cursor_lost_forever_witness :
  loadIndexState h
    (applyBlock h (blk 2 "b") false "v1" (insert_item 2 "y") false
       (applyBlock h (blk 1 "a") false "v1" (insert_item 1 "x") false
          after_rollback_to_zero).2).2 =
    {| MigrationIndexState.blockNumber := 0; MigrationIndexState.blockHash := "";
       MigrationIndexState.handlerVersionName := "v1";
       MigrationIndexState.isReplay := false |}.
Proof.
  apply (cursor_lost_forever "public" after_rollback_to_zero).
  - split; vm_decide.
  - apply (rtc_l _ _ (applyBlock h (blk 1 "a") false "v1" (insert_item 1 "x") false
                        after_rollback_to_zero).2).
    { apply (astep "public"), insert_item_user. }
    apply (rtc_l _ _ (applyBlock h (blk 2 "b") false "v1" (insert_item 2 "y") false
                        (applyBlock h (blk 1 "a") false "v1" (insert_item 1 "x") false
                           after_rollback_to_zero).2).2).
    + apply (astep "public"), insert_item_user.
    + apply rtc_refl.
Defined.


(** Spec §8's round trip: blocks 1..5, rollback to 2, blocks 3..5 again
    with other payloads. *)
Definition blocks_1_2 : list BlockJob := [job 1 "a" "p1"; job 2 "b" "p2"].
Definition blocks_3_5 : list BlockJob := [job 3 "c" "p3"; job 4 "d" "p4"; job 5 "e" "p5"].
Definition blocks_3_5' : list BlockJob := [job 3 "c'" "q3"; job 4 "d'" "q4"; job 5 "e'" "q5"].
Definition run_1_5 : DB log := (apply_blocks h false "v1" (blocks_1_2 ++ blocks_3_5) db0).2.
Definition rerun_3_5 : DB log :=
  (apply_blocks h false "v1" blocks_3_5' (rollbackTo h 2 run_1_5).1.2).2.

Lemma round_trip_witness :
  (∀ j, last blocks_3_5' = Some j →
     loadIndexState h rerun_3_5 =
       {| MigrationIndexState.blockNumber := job_number j;
          MigrationIndexState.blockHash := blockHash (blockInfo j.1);
          MigrationIndexState.handlerVersionName := "v1";
          MigrationIndexState.isReplay := false |}) ∧
  NoDup (bt_block_number <$> block_txid_rows "public" (db_store rerun_3_5)) ∧
  ∀ n, (∃ x, x ∈ block_txid_rows "public" (db_store rerun_3_5) ∧ bt_block_number x = n) ↔
       ((∃ x, x ∈ block_txid_rows "public" (db_store run_1_5) ∧ bt_block_number x = n) ∧ n <= 2) ∨
       n ∈ job_number <$> blocks_3_5'.
Proof.
  apply (round_trip "public" 2 false "v1" blocks_1_2 blocks_3_5 blocks_3_5' db0).
  - apply fresh_db_inv.
  - intros b Hb; vm_compute in Hb; set_solver.
  - right; split; [reflexivity|discriminate].
  - repeat constructor; vm_compute; congruence.
  - repeat constructor; vm_compute; reflexivity.
  - repeat constructor; vm_compute; reflexivity.
  - repeat constructor; vm_compute; reflexivity.
  - unfold run_1_5. apply pair_eq_of_fst; vm_compute; reflexivity.
  - unfold rerun_3_5, run_1_5. apply pair_eq_of_fst. vm_compute; reflexivity.
Defined.
