(* ===== verification/Schemas.v ===== *)
(** * Schemas: rollback across schemas (spec §9, open question)

    Several handlers may share one database, each with its own schema
    ([dbSchema], lines 14-21 of src/src/MassiveActionHandler.ts).  Their
    [_block_number_txid] tables are per schema, but
    [cyanaudit.fn_undo_transaction] (line 101) undoes every change of a
    transaction, whatever schema it touched.  This file settles when a
    rollback in one schema leaves the others alone: exactly when the
    transactions recorded in that schema changed rows of that schema only.
    [applyBlock] in a schema keeps that discipline when the block's
    callback does; a callback writing into another schema breaks it, and
    a later rollback then deletes another schema's row.  The same frame
    reasoning shows what a rollback leaves of a table that is not
    audited: every row of it, since the code removes
    [_block_number_txid] rows only through the audit log's undo. *)

From S2P Require Import Prelude Schema AuditLog Database IndexState Rollback Lifecycle.

Local Open Scope Z_scope.

(** ** Statement sequences that write only keys of a given kind *)

Inductive writes_within {A} (P : Key → Prop) : Prog A → Prop :=
| ww_ret a : writes_within P (PRet a)
| ww_throw e : writes_within P (PThrow e)
| ww_txid k : (∀ z, writes_within P (k z)) → writes_within P (PTxid k)
| ww_find key k : (∀ o, writes_within P (k o)) → writes_within P (PFind key k)
| ww_insert key r k : P key → writes_within P k → writes_within P (PInsert key r k)
| ww_update key r k : P key → (∀ b, writes_within P (k b)) → writes_within P (PUpdate key r k)
| ww_delete key k : P key → writes_within P k → writes_within P (PDelete key k)
| ww_nextval sq k : (∀ z, writes_within P (k z)) → writes_within P (PNextval sq k).

#[export] Hint Constructors writes_within : dmx.

(** The keys of schema [sch]. *)
Definition in_schema (sch : string) (k : Key) : Prop := key_schema k = sch.

(** The audit log [l'] is [l] with changes of keys in [P] added on top, under
    any identifiers. *)
Definition log_extends_within `{AuditLog L} (P : Key → Prop) (l l' : L) : Prop :=
  ∀ t, ∃ cs, Forall (λ c, P (ch_key c)) cs ∧ audit_changes t l' = cs ++ audit_changes t l.

(** ** Frame lemmas *)

Section Frame.
Context `{AuditLog L}.
Implicit Types (s : DB L).

Lemma log_extends_within_refl P (l : L) : log_extends_within P l l.
Proof. intros t. by exists []. Qed.

Lemma log_extends_within_trans P (l1 l2 l3 : L) :
  log_extends_within P l1 l2 → log_extends_within P l2 l3 → log_extends_within P l1 l3.
Proof.
  intros H12 H23 t. destruct (H12 t) as (cs1 & Hcs1 & E1), (H23 t) as (cs2 & Hcs2 & E2).
  exists (cs2 ++ cs1). split; [by apply Forall_app|]. by rewrite E2, E1, app_assoc.
Qed.

Lemma bind_writes_within {A B} P (p : Prog A) (f : A → Prog B) :
  writes_within P p → (∀ x, writes_within P (f x)) → writes_within P (p ≫= f).
Proof. change (p ≫= f) with (prog_bind f p). induction 1; simpl; auto with dmx. Qed.

Lemma write_within P t k o s :
  P k →
  (∀ k', ¬ P k' → db_store (write t k o s) !! k' = db_store s !! k') ∧
  log_extends_within P (db_log s) (db_log (write t k o s)).
Proof.
  intros Hk. unfold write; simpl. split.
  - intros k' Hk'. apply store_set_lookup_ne. by intros ->.
  - case_match; [|apply log_extends_within_refl]. intros t'.
    rewrite audit_changes_record. case_decide.
    + exists [mkChange t k (db_store s !! k) o]. split; [by repeat constructor|done].
    + by exists [].
Qed.

(** A write in [P] followed by statements that keep outside [P]. *)
Lemma within_after_write P t k o s (q : DB L) :
  P k →
  (∀ k', ¬ P k' → db_store q !! k' = db_store (write t k o s) !! k') ∧
    log_extends_within P (db_log (write t k o s)) (db_log q) →
  (∀ k', ¬ P k' → db_store q !! k' = db_store s !! k') ∧
    log_extends_within P (db_log s) (db_log q).
Proof.
  intros Hk [Hq Hlq]. destruct (write_within P t k o s Hk) as [Hw Hlw]. split.
  - intros k' Hk'. by rewrite Hq, Hw.
  - by eapply log_extends_within_trans.
Qed.

(** A transaction's statements that write only keys in [P] change no other
    key and log only changes of keys in [P]. *)
Lemma run_within {A} P t (p : Prog A) s :
  writes_within P p →
  (∀ k, ¬ P k → db_store (run t p s).2 !! k = db_store s !! k) ∧
  log_extends_within P (db_log s) (db_log (run t p s).2).
Proof.
  intros Hp. revert s.
  induction Hp as [a|e|k _ IH|key k _ IH|key r k Hk _ IH|key r k Hk _ IH|key k Hk _ IH|sq k _ IH];
    intros s; simpl; repeat case_match;
    try (split; [done|apply log_extends_within_refl]);
    try (eapply within_after_write; [eassumption|apply IH]);
    try apply IH; edestruct IH as [Hs1 Hl1]; split; [exact Hs1|exact Hl1].
Qed.

Lemma withTransaction_within {A} P sf (p : Prog A) s :
  writes_within P p →
  (∀ k, ¬ P k → db_store (withTransaction sf p s).2 !! k = db_store s !! k) ∧
  log_extends_within P (db_log s) (db_log (withTransaction sf p s).2).
Proof.
  intros Hp. destruct (run_within P (db_next_txid s) p (begin_tx s) Hp) as [Hst Hl].
  unfold withTransaction.
  destruct (run _ p (begin_tx s)) as [[a|e] s1]; [destruct sf|]; simpl in *;
    auto using log_extends_within_refl.
Qed.

Lemma undo_changes_within P cs :
  Forall (λ c, P (ch_key c)) cs → writes_within P (undo_changes cs).
Proof.
  induction 1 as [|c cs Hc _ IH]; simpl; [constructor|].
  apply bind_writes_within; [|done]. unfold undo_change.
  destruct (ch_old c), (ch_new c); simpl; repeat constructor; auto.
Qed.

Lemma updateIndexState_within a b r hv c :
  writes_within (in_schema (acc_schema a)) (updateIndexState a b r hv c).
Proof.
  unfold updateIndexState, findOne, find_row. constructor. intros o.
  apply bind_writes_within; [|intros _; constructor; [done|constructor]].
  unfold save. simpl. case_match; simpl; repeat constructor.
Qed.
End Frame.

(** ** Rollback changes only what the undone transactions changed *)

Section Isolation.
Context `{AuditLog L}.
Implicit Types (s : DB L).

Lemma rollback_loop_within P rows s :
  (∀ x, x ∈ rows → Forall (λ c, P (ch_key c)) (audit_changes (bt_txid x) (db_log s))) →
  ∀ k, ¬ P k → db_store (rollback_loop rows s).1.2 !! k = db_store s !! k.
Proof.
  revert s. induction rows as [|x rows IH]; intros s Hrows k Hk; simpl; [done|].
  destruct (withTransaction_within P false (undo_changes (audit_changes (bt_txid x) (db_log s))) s)
    as [Hst Hl]; [apply undo_changes_within, Hrows; by left|].
  change (withTransaction false _ s) with (fn_undo_transaction (bt_txid x) s) in Hst, Hl.
  destruct (fn_undo_transaction (bt_txid x) s) as [[[]|e] s1]; simpl in *; [|by apply Hst].
  rewrite <-(Hst k Hk).
  pose proof (IH s1) as IH1. destruct (rollback_loop rows s1) as [[o s2] out]; simpl in *.
  apply IH1; [|done]. intros x' Hx'. destruct (Hl (bt_txid x')) as (cs & Hcs & ->).
  apply Forall_app. split; [done|]. apply Hrows. by right.
Qed.
End Isolation.

(** C16: Spec §9's open question, answered: [rollbackTo T] in schema [sch]
    undoes transactions through the schema-global
    [cyanaudit.fn_undo_transaction], yet it leaves every row of every other
    schema as it was, provided the transactions recorded in [sch]'s
    [_block_number_txid] changed rows of [sch] only. *)
Theorem rollbackTo_schema_isolation `{AuditLog L} sch T (s : DB L) k :
  (∀ x, x ∈ block_txid_rows sch (db_store s) →
        Forall (λ c, in_schema sch (ch_key c)) (audit_changes (bt_txid x) (db_log s))) →
  key_schema k ≠ sch →
  db_store (rollbackTo (MassiveActionHandler_new sch) T s).1.2 !! k = db_store s !! k.
Proof.
  intros Hrows Hk. unfold rollbackTo. simpl schemaInstance.
  pose proof (rollback_loop_within (in_schema sch)
                (where_block_number_gt (select_accessor sch) T (db_store s)) s) as Hloop.
  destruct (rollback_loop _ s) as [[[[]|e] s'] out]; simpl in *; apply Hloop; try done;
    intros x Hx; apply Hrows;
    rewrite where_block_number_gt_perm, list_elem_of_filter, select_accessor_schema in Hx;
    apply Hx.
Qed.

(** C17: [applyBlock] in schema [sch] with a callback that writes only
    [sch]'s rows, whatever its outcome, changes no row of another schema
    and logs only changes of [sch]'s rows, under any identifier. *)
Theorem applyBlock_schema_confined `{AuditLog L} sch b r hv m sf (s : DB L) :
  (∀ c, writes_within (in_schema sch) (m (select_accessor sch) c)) →
  (∀ k, key_schema k ≠ sch →
        db_store (applyBlock (MassiveActionHandler_new sch) b r hv m sf s).2 !! k = db_store s !! k) ∧
  log_extends_within (in_schema sch) (db_log s)
    (db_log (applyBlock (MassiveActionHandler_new sch) b r hv m sf s).2).
Proof.
  intros Hm. unfold applyBlock. rewrite handleWithState_unfold.
  apply withTransaction_within, bind_writes_within; [apply Hm|intros _].
  simpl dbSchema. pose proof (updateIndexState_within (select_accessor sch) b r hv
                                {| txid := db_next_txid s |}) as Hu.
  by rewrite select_accessor_schema in Hu.
Qed.

(** ** Tables left out of auditing *)

(** No change of a key in [U] is logged, under any identifier. *)
Definition log_avoids `{AuditLog L} (U : Key → Prop) (l : L) : Prop :=
  ∀ t, Forall (λ c, ¬ U (ch_key c)) (audit_changes t l).

(** The keys of the [_block_number_txid] table of [sch]. *)
Definition bt_of (sch : string) (k : Key) : Prop :=
  key_schema k = sch ∧ key_table k = block_txid_table.

Section Unaudited.
Context `{AuditLog L}.
Implicit Types (s : DB L).
Context (U : Key → Prop).

Lemma write_log_avoids t k o s :
  (U k → audited s k = false) → log_avoids U (db_log s) → log_avoids U (db_log (write t k o s)).
Proof.
  intros Hk Hl t'. unfold write; cbn [db_log]. destruct (audited s k) eqn:E; [|apply Hl].
  rewrite audit_changes_record. case_decide; [|apply Hl].
  constructor; [|apply Hl]. simpl. intros HU. pose proof (Hk HU) as E2. congruence.
Qed.

(** The statements of a transaction log no change of a key its database
    does not audit. *)
Lemma run_log_avoids {A} t (p : Prog A) s :
  (∀ k, U k → audited s k = false) → log_avoids U (db_log s) → log_avoids U (db_log (run t p s).2).
Proof.
  revert s. prog_induction p; intros s HU Hl; simpl; auto; repeat case_match; simpl; auto;
    apply IH; auto using write_log_avoids.
Qed.

Lemma withTransaction_log_avoids {A} sf (p : Prog A) s :
  (∀ k, U k → audited s k = false) → log_avoids U (db_log s) →
  log_avoids U (db_log (withTransaction sf p s).2) ∧
  db_unaudited (withTransaction sf p s).2 = db_unaudited s.
Proof.
  intros HU Hl. unfold withTransaction.
  pose proof (run_log_avoids (db_next_txid s) p (begin_tx s) HU Hl) as Hl'.
  pose proof (run_frame (db_next_txid s) p (begin_tx s)) as [_ Hu].
  destruct (run _ p (begin_tx s)) as [[a|e] s1]; [destruct sf|]; simpl in *; auto.
Qed.

Lemma rollback_loop_log_avoids rows s :
  (∀ k, U k → audited s k = false) → log_avoids U (db_log s) →
  log_avoids U (db_log (rollback_loop rows s).1.2) ∧
  db_unaudited (rollback_loop rows s).1.2 = db_unaudited s.
Proof.
  revert s. induction rows as [|x rows IH]; intros s HU Hl; simpl; [done|].
  destruct (withTransaction_log_avoids false (undo_changes (audit_changes (bt_txid x) (db_log s))) s HU Hl)
    as [Hl1 Hu1].
  change (withTransaction false _ s) with (fn_undo_transaction (bt_txid x) s) in Hl1, Hu1.
  destruct (fn_undo_transaction (bt_txid x) s) as [[[]|e] s1]; simpl in *; [|done].
  destruct (IH s1) as [Hl2 Hu2]; [by unfold audited; rewrite Hu1|done|].
  destruct (rollback_loop rows s1) as [[o s2] out]; simpl in *. by rewrite Hu2.
Qed.

(** Every handler call keeps the audit configuration and logs no change
    of an unaudited key. *)
Lemma step_log_avoids s s' :
  step s s' → (∀ k, U k → audited s k = false) → log_avoids U (db_log s) →
  log_avoids U (db_log s') ∧ db_unaudited s' = db_unaudited s.
Proof.
  destruct 1 as [sch b r hv m sf s Hm|sch T s]; intros HU Hl.
  - unfold applyBlock. rewrite handleWithState_unfold. by apply withTransaction_log_avoids.
  - unfold rollbackTo.
    destruct (rollback_loop_log_avoids (where_block_number_gt (schemaInstance (MassiveActionHandler_new sch)) T
                (db_store s)) s HU Hl) as [Hl' Hu'].
    by destruct (rollback_loop _ s) as [[[[]|e] s1] out].
Qed.
End Unaudited.

(** C18: Spec §4.2 and §8 ask that no [_block_number_txid] row remain
    above the target after [rollbackTo]; the code never deletes one and
    relies on cyanaudit's undo.  When a schema's [_block_number_txid] is
    left out of auditing (and its log holds none of its changes yet),
    then in every database reached by [applyBlock] and [rollbackTo] calls,
    a [rollbackTo T] in that schema, whatever its target and outcome,
    leaves every row of that table as it was: the rows of the undone
    blocks stay, and re-applying those blocks fails on them. *)
Theorem rollbackTo_keeps_unaudited_rows `{AuditLog L} sch T (s0 s : DB L) :
  (sch, block_txid_table) ∈ db_unaudited s0 → log_avoids (bt_of sch) (db_log s0) →
  rtc step s0 s →
  ∀ n, db_store (rollbackTo (MassiveActionHandler_new sch) T s).1.2 !! (sch, block_txid_table, n) =
       db_store s !! (sch, block_txid_table, n).
Proof.
  intros Hun Hl0 Hrun n.
  assert (log_avoids (bt_of sch) (db_log s)) as Hl.
  { revert Hun Hl0. induction Hrun as [s|s s1 s' Hstep _ IH]; intros Hun Hl0; [done|].
    destruct (step_log_avoids (bt_of sch) s s1 Hstep) as [Hl1 Hu1]; [|done|].
    - intros k [Hs Ht]. unfold audited. rewrite Hs, Ht. apply bool_decide_eq_false.
      intros Hn. by apply Hn.
    - apply IH; [by rewrite Hu1|done]. }
  unfold rollbackTo. simpl schemaInstance.
  pose proof (rollback_loop_within (λ k, ¬ bt_of sch k)
                (where_block_number_gt (select_accessor sch) T (db_store s)) s) as Hloop.
  destruct (rollback_loop _ s) as [[[[]|e] s'] out]; simpl in *; apply Hloop;
    [intros x _; apply Hl|intros Hn; by apply Hn|intros x _; apply Hl|intros Hn; by apply Hn].
Qed.

(** ** Two schemas in one database *)

Import EventList Fixtures.

Definition h_a : MassiveActionHandler := MassiveActionHandler_new "a".
Definition h_b : MassiveActionHandler := MassiveActionHandler_new "b".

(** Block 1 in schema [a] writes a row of [a.items]; block 1 in schema [b]
    writes a row of [b.items]. *)
Definition two_schemas : DB log :=
  (applyBlock h_b (blk 1 "y") false "v1" (insert_item 5 "b-owned") false
     (applyBlock h_a (blk 1 "x") false "v1" (insert_item 5 "a-owned") false db0).2).2.

Lemma rollbackTo_schema_isolation_witness :
  db_store (rollbackTo h_a 0 two_schemas).1.2 !! ("b", "items", 5) =
    db_store two_schemas !! ("b", "items", 5).
Proof.
  apply (rollbackTo_schema_isolation "a" 0 two_schemas).
  - intros x Hx. vm_compute in Hx. apply list_elem_of_singleton in Hx as ->.
    vm_compute. repeat constructor.
  - discriminate.
Defined.

Lemma applyBlock_schema_confined_witness :
  (∀ k, key_schema k ≠ "a" →
        db_store (applyBlock h_a (blk 1 "x") false "v1" (insert_item 5 "a-owned") false db0).2 !! k =
        db_store db0 !! k) ∧
  log_extends_within (in_schema "a") (db_log db0)
    (db_log (applyBlock h_a (blk 1 "x") false "v1" (insert_item 5 "a-owned") false db0).2).
Proof.
  apply (applyBlock_schema_confined "a").
  intros c. unfold insert_item, insert_row. repeat constructor.
Defined.

(** Finding (spec §9): without that discipline the rollback crosses
    schemas.  Block 1 of schema [a] has a callback that inserts the row
    [b.items 5]; block 1 of schema [b] then updates that row, which [b]
    now owns.  [rollbackTo 0] in schema [a] succeeds and deletes [b]'s
    row, although nothing of [b] was rolled back. *)
Example rollback_crosses_schemas :
  let s2 := (applyBlock h_b (blk 1 "y") false "v1"
               (λ a _, _ ← update_row (table_key a "items" 5) (RData "b-owned"); mret tt) false
               (applyBlock h_a (blk 1 "x") false "v1"
                  (λ _ _, insert_row ("b", "items", 5) (RData "from-a")) false db0).2).2 in
  db_store s2 !! ("b", "items", 5) = Some (RData "b-owned") ∧
  (rollbackTo h_a 0 s2).1.1 = Ok tt ∧
  db_store (rollbackTo h_a 0 s2).1.2 !! ("b", "items", 5) = None.
Proof. vm_compute. auto. Qed.

(** A fresh public schema whose [_block_number_txid] is left out of
    auditing. *)
Definition unaudited_db : DB log :=
  {| db_store := ∅; db_log := []; db_seqs := ∅; db_next_txid := 100;
     db_unaudited := {[("public", block_txid_table)]} |}.

Lemma rollbackTo_keeps_unaudited_rows_witness :
  db_store (rollbackTo h 0 (applyBlock h (blk 1 "a") false "v1" (insert_item 1 "x") false
                              unaudited_db).2).1.2 !! ("public", block_txid_table, 1) =
    db_store (applyBlock h (blk 1 "a") false "v1" (insert_item 1 "x") false unaudited_db).2
      !! ("public", block_txid_table, 1).
Proof.
  apply (rollbackTo_keeps_unaudited_rows "public" 0 unaudited_db).
  - set_solver.
  - intros t. constructor.
  - apply rtc_once.
    exact (step_apply "public" (blk 1 "a") false "v1" (insert_item 1 "x") false unaudited_db
             (λ a c, insert_item_user 1 "x" a c)).
Defined.
