(* ===== verification/Driver.v ===== *)
(** * Driver: the reconciliation driver over the handler (spec §2)

    The driver (demux's [AbstractActionHandler], not part of this
    repository) reads the cursor with [loadIndexState] and decides, for
    each incoming block, as spec §2 describes: a block that continues the
    known chain (its number follows the cursor's and its previous hash is
    the cursor's hash) is applied; a block at or below the cursor
    conflicts with the recorded history, so the driver rolls back to the
    block before it and applies it; a block beyond the next one is left
    for later.  The serialization failure of the block's transaction is
    an input of [driver_step]; an error leaves the database to the next
    attempt.

    Theorem: once the cursor row is lost (see [Lifecycle.cursor_lost])
    while block 1 is recorded in [_block_number_txid] — the state after a
    rollback to 0 and a re-applied block 1 — the driver never changes the
    tables again, whatever blocks arrive: the indexer is stuck. *)

From S2P Require Import Prelude Schema AuditLog Database IndexState Rollback Engine Lifecycle.

Local Open Scope Z_scope.

(** What the driver does with a block. *)
Inductive DriverChoice :=
| DApply
| DRollbackThenApply (target : Z)
| DWait.

(** The decision of spec §2 from the loaded cursor. *)
Definition choose (cursor : MigrationIndexState.t) (b : Block) : DriverChoice :=
  let bi := blockInfo b in
  if bool_decide (blockNumber bi = MigrationIndexState.blockNumber cursor + 1 ∧
                  previousBlockHash bi = MigrationIndexState.blockHash cursor)
  then DApply
  else if bool_decide (blockNumber bi <= MigrationIndexState.blockNumber cursor)
  then DRollbackThenApply (blockNumber bi - 1)
  else DWait.

Section Driver.
Context `{AuditLog L}.
Implicit Types (s : DB L).

(** One block offered to the driver; [serialization_failure] is the
    conflict input of the block's transaction (see [withTransaction]). *)
Definition driver_step (h : MassiveActionHandler) (isReplay : bool) (hv : string)
    (serialization_failure : bool) (job : BlockJob) (s : DB L) : outcome DbError unit * DB L :=
  let '(b, m) := job in
  match choose (loadIndexState h s) b with
  | DApply => applyBlock h b isReplay hv m serialization_failure s
  | DRollbackThenApply T =>
      let '(o, s1, _) := rollbackTo h T s in
      match o with
      | Ok _ => applyBlock h b isReplay hv m serialization_failure s1
      | Throw e => (Throw e, s1)
      end
  | DWait => (Ok tt, s)
  end.

(** A sequence of blocks offered one after the other; a failed block is
    simply offered again later by the source, so the driver goes on. *)
Fixpoint driver_run (h : MassiveActionHandler) (isReplay : bool) (hv : string)
    (jobs : list BlockJob) (s : DB L) : DB L :=
  match jobs with
  | [] => s
  | j :: js => driver_run h isReplay hv js (driver_step h isReplay hv false j s).2
  end.

(** A block whose number is already recorded cannot be committed: the
    INSERT into [_block_number_txid] fails, whatever the callback does. *)
Lemma applyBlock_recorded_throws sch b r hv m s row :
  (∀ a c, user_prog (m a c)) →
  db_store s !! (sch, block_txid_table, blockNumber (blockInfo b)) = Some row →
  ∃ e, (applyBlock (MassiveActionHandler_new sch) b r hv m false s).1 = Throw e.
Proof.
  intros Hm Hrow. destruct (applyBlock _ b r hv m false s) as [[[]|e] s'] eqn:E; [|by eexists].
  apply applyBlock_ok in E as (_ & s1 & Hm1 & Hu).
  apply run_updateIndexState_ok in Hu as (_ & _ & Hnone & _).
  unfold table_key in Hnone. simpl in Hnone. rewrite select_accessor_schema in Hnone.
  rewrite (user_prog_result_store _ _ _ _ _ _ (Hm _ _) Hm1) in Hnone by done.
  simpl in Hnone. congruence.
Qed.

Lemma applyBlock_throw_store h b r hv m s e :
  (applyBlock h b r hv m false s).1 = Throw e →
  db_store (applyBlock h b r hv m false s).2 = db_store s.
Proof.
  destruct (applyBlock h b r hv m false s) as [o s'] eqn:E. simpl. intros ->.
  by apply applyBlock_throw in E as [-> _].
Qed.
End Driver.

(** The state after a rollback to 0 and a re-applied block 1: the cursor
    row [loadIndexState] reads is gone, and block 1 is recorded. *)
Definition driver_stuck_state `{AuditLog L} (sch : string) (s : DB L) : Prop :=
  db_store s !! (sch, index_state_table, 1) = None ∧
  is_Some (db_store s !! (sch, block_txid_table, 1)).

Section Stuck.
Context `{AuditLog L}.
Implicit Types (s : DB L).

Lemma driver_step_stuck sch r hv b m s :
  (∀ a c, user_prog (m a c)) → 1 <= blockNumber (blockInfo b) → driver_stuck_state sch s →
  db_store (driver_step (MassiveActionHandler_new sch) r hv false (b, m) s).2 = db_store s.
Proof.
  intros Hm Hb [Hnone [row Hrow]]. unfold driver_step.
  rewrite (loadIndexState_absent (MassiveActionHandler_new sch) s)
    by (unfold table_key; simpl; by rewrite select_accessor_schema).
  unfold choose; simpl. case_bool_decide as Hnext; [|case_bool_decide; [lia|done]].
  destruct Hnext as [Hone _].
  destruct (applyBlock_recorded_throws sch b r hv m s row Hm) as [e He]; [rewrite Hone; exact Hrow|].
  by apply (applyBlock_throw_store _ _ _ _ _ _ e).
Qed.
End Stuck.

(** C19: Finding, at the level of the indexer: from a database where the
    cursor row is lost and block 1 is recorded (which [rollbackTo 0]
    followed by block 1 produces), the driver reads the bootstrap cursor
    [{0, ""}] forever.  Whatever blocks numbered from 1 arrive, with
    callbacks that leave the bookkeeping alone, it only tries block 1
    again, whose [_block_number_txid] INSERT always fails: the tables
    never change and the cursor stays the default.  The indexer cannot
    make progress. *)
Theorem driver_stuck_forever `{AuditLog L} sch r hv jobs (s : DB L) :
  Forall (λ j : BlockJob, 1 <= job_number j ∧ ∀ a c, user_prog (j.2 a c)) jobs →
  driver_stuck_state sch s →
  db_store (driver_run (MassiveActionHandler_new sch) r hv jobs s) = db_store s ∧
  loadIndexState (MassiveActionHandler_new sch) (driver_run (MassiveActionHandler_new sch) r hv jobs s) =
    {| MigrationIndexState.blockNumber := 0; MigrationIndexState.blockHash := "";
       MigrationIndexState.handlerVersionName := "v1";
       MigrationIndexState.isReplay := false |}.
Proof.
  intros Hjobs Hst. cut (db_store (driver_run (MassiveActionHandler_new sch) r hv jobs s) = db_store s).
  { intros Heq. split; [done|]. apply loadIndexState_absent.
    unfold table_key; simpl. rewrite select_accessor_schema, Heq. apply Hst. }
  revert s Hst. induction Hjobs as [|[b m] jobs [Hb Hm] _ IH]; intros s Hst; [done|].
  cbn [driver_run].
  pose proof (driver_step_stuck sch r hv b m s Hm Hb Hst) as Hstep.
  rewrite IH; [done|]. unfold driver_stuck_state. by rewrite Hstep.
Qed.

(** ** At concrete inputs *)

Import EventList Fixtures.

Lemma driver_stuck_forever_witness :
  db_store (driver_run h false "v1" [job 1 "a" "x"; job 2 "b" "y"]
              (applyBlock h (blk 1 "a") false "v1" (insert_item 1 "x") false
                 after_rollback_to_zero).2) =
    db_store (applyBlock h (blk 1 "a") false "v1" (insert_item 1 "x") false
                after_rollback_to_zero).2 ∧
  loadIndexState h (driver_run h false "v1" [job 1 "a" "x"; job 2 "b" "y"]
                      (applyBlock h (blk 1 "a") false "v1" (insert_item 1 "x") false
                         after_rollback_to_zero).2) =
    {| MigrationIndexState.blockNumber := 0; MigrationIndexState.blockHash := "";
       MigrationIndexState.handlerVersionName := "v1";
       MigrationIndexState.isReplay := false |}.
Proof.
  apply (driver_stuck_forever "public").
  - repeat constructor; try (vm_compute; congruence); apply insert_item_user.
  - split; vm_decide.
Defined.

(** A block of a chain: its number, hash and previous hash. *)
Definition cblk (n : Z) (hash prev : string) : Block :=
  {| actions := []; blockInfo := {| blockNumber := n; blockHash := hash;
                                    previousBlockHash := prev |} |}.

Definition cjob (n : Z) (hash prev payload : string) : BlockJob :=
  (cblk n hash prev, insert_item n payload).

(** Finding, end to end: the driver indexes block 1 of a chain, then
    meets a fork at block 1 (block [1'] with another hash), rolls back to
    0 and applies [1'].  From then on the cursor it reads is the
    bootstrap one: the next block [2'] of the new chain is never applied,
    and each new offer of [1'] fails on its [_block_number_txid] row. *)
Example driver_fork_at_first_block :
  let s := driver_run h false "v1"
             [cjob 1 "a" "" "x"; cjob 1 "a'" "" "x'"; cjob 2 "b'" "a'" "y'";
              cjob 1 "a'" "" "x'"; cjob 2 "b'" "a'" "y'"] db0 in
  loadIndexState h s = cursor_of 0 "" "v1" false ∧
  db_store s !! ("public", block_txid_table, 2) = None ∧
  db_store s !! ("public", "items", 2) = None ∧
  db_store s !! ("public", "items", 1) = Some (RData "x'").
Proof. vm_compute. auto. Qed.
