(* ===== verification/Sync.v ===== *)
(** * Sync: the indexing loop over the reader, the driver and the handler
    (spec §2)

    demux's action watcher (not part of this repository) drives an
    indexer: it asks the reader for the head block number, and while the
    cursor the handler loads is behind it, it fetches the block after the
    cursor with [getBlock] and hands it to the driver ([Driver.driver_step]),
    which applies it, rolls back first, or waits.  The loop here runs that
    for at most [fuel] blocks and reports, beside the reader's and the
    database's errors, that the fuel ran out ([SyncOutOfFuel]), so that
    running out is an outcome of its own, never a silent stop.  The
    serialization failures the blocks' transactions meet are an input,
    one flag per round; a block aborted by [ErrConflict] is offered again
    in the next round, as spec §7 asks of the caller.

    Theorems: from a schema with no cursor and no recorded block, on a
    well-numbered chain whose blocks link by hash, with callbacks that
    leave the bookkeeping alone and return normally, the loop terminates
    with the head block's cursor when the fuel is at least the length of
    the chain plus the number of conflicts (none in the first round), and
    without conflicts runs out of fuel after exactly [fuel] blocks
    otherwise: one unit of fuel per round is enough and necessary.  Whatever the
    fuel, the blocks it leaves recorded in [_block_number_txid] are
    exactly [1 .. n] for the cursor's block [n] (spec §3's contiguity,
    which the handler alone does not ensure: [Engine.applyBlock_ignores_cursor]).
    When block 1's first transaction fails to serialize, the loop never
    completes, whatever the fuel: the retried block writes its cursor
    under an id [loadIndexState] never reads. *)

From S2P Require Import Prelude Schema AuditLog Database IndexState Engine JsonActionReader Lifecycle Driver.

Local Open Scope Z_scope.

(** The outcome of the loop: the reader's errors, the database's errors,
    and the exhausted fuel. *)
Inductive SyncError :=
| SyncOutOfFuel
| SyncReader (e : ReaderError)
| SyncDb (e : DbError).

Section Sync.
Context `{AuditLog L}.
Implicit Types (s : DB L).

(** One round reads the head number and the cursor; a cursor at or past
    the head ends the loop, otherwise the block after the cursor is
    fetched and offered to the driver.  [conflicts] lists, round after
    round, whether the block's transaction meets a serialization failure
    (none once the list is exhausted); a block aborted by [ErrConflict] is
    offered again in the next round (spec §7: the caller retries the whole
    [applyBlock]), every other error ends the loop. *)
Fixpoint sync (fuel : nat) (h : MassiveActionHandler) (isReplay : bool) (hv : string)
    (reader : JsonActionReader) (mk : Block → Accessor → Context → Prog unit)
    (conflicts : list bool) (s : DB L) : outcome SyncError unit * DB L :=
  match getHeadBlockNumber reader with
  | Throw e => (Throw (SyncReader e), s)
  | Ok head =>
      let cur := MigrationIndexState.blockNumber (loadIndexState h s) in
      if decide (head <= cur) then (Ok tt, s) else
      match fuel with
      | O => (Throw SyncOutOfFuel, s)
      | S fuel' =>
          match getBlock reader (cur + 1) with
          | Throw e => (Throw (SyncReader e), s)
          | Ok b =>
              match driver_step h isReplay hv (List.hd false conflicts) (b, mk b) s with
              | (Ok _, s1) => sync fuel' h isReplay hv reader mk (List.tl conflicts) s1
              | (Throw ErrConflict, s1) => sync fuel' h isReplay hv reader mk (List.tl conflicts) s1
              | (Throw e, s1) => (Throw (SyncDb e), s1)
              end
          end
      end
  end.
End Sync.

(** Each block names the hash of the one before it; the first names
    [prev]. *)
Fixpoint linked_from (prev : string) (chain : list Block) : bool :=
  match chain with
  | [] => true
  | b :: chain' =>
      bool_decide (previousBlockHash (blockInfo b) = prev) &&
      linked_from (blockHash (blockInfo b)) chain'
  end.

(** The hash of the cursor after [k] blocks of [chain]: the bootstrap
    cursor's [""] before the first. *)
Definition cursor_hash (chain : list Block) (k : nat) : string :=
  match k with
  | O => ""
  | S j => default "" (blockHash ∘ blockInfo <$> chain !! j)
  end.

(** No cursor row, the cursor id sequence untouched, and no recorded
    block: the bookkeeping of a schema the migration has just created. *)
Definition bookkeeping_empty `{AuditLog L} (sch : string) (s : DB L) : Prop :=
  db_store s !! (sch, index_state_table, 1) = None ∧
  seq_next (sch, index_state_table) s = 1 ∧
  ∀ n, db_store s !! (sch, block_txid_table, n) = None.

(** The number of rounds of a conflict schedule whose transaction meets a
    serialization failure. *)
Definition conflict_count (conflicts : list bool) : nat :=
  length (filter (λ c : bool, c = true) conflicts).

(** The state of the loop after the first [k] blocks of [chain]: the
    cursor row holds block [k] (or is still absent, with the sequence at
    its start, for [k = 0]), and the blocks recorded in
    [_block_number_txid] are exactly [1 .. k]. *)
Record sync_inv `{AuditLog L} (sch : string) (chain : list Block) (isReplay : bool)
    (hv : string) (k : nat) (s : DB L) : Prop := {
  si_cursor :
    (k = 0%nat ∧ db_store s !! (sch, index_state_table, 1) = None ∧
     seq_next (sch, index_state_table) s = 1) ∨
    (∃ j b, k = S j ∧ chain !! j = Some b ∧
            db_store s !! (sch, index_state_table, 1) = Some (cursor_row b isReplay hv));
  si_fresh : ∀ n, ¬ 1 <= n <= Z.of_nat k → db_store s !! (sch, block_txid_table, n) = None;
  si_recorded : ∀ n, 1 <= n <= Z.of_nat k → is_Some (db_store s !! (sch, block_txid_table, n))
}.

Lemma linked_from_lookup prev chain k b :
  linked_from prev chain = true → chain !! k = Some b →
  previousBlockHash (blockInfo b) =
    match k with O => prev | S j => default "" (blockHash ∘ blockInfo <$> chain !! j) end.
Proof.
  revert prev k. induction chain as [|b0 chain IH]; intros prev k Hl Hk; [done|].
  simpl in Hl. apply andb_prop in Hl as [Hp Hl]. apply bool_decide_eq_true in Hp.
  destruct k as [|k]; simpl in Hk; [by simplify_eq|].
  rewrite (IH _ k Hl Hk). destruct k; [done|]. by simpl.
Qed.

Lemma linked_cursor_hash chain k b :
  linked_from "" chain = true → chain !! k = Some b →
  previousBlockHash (blockInfo b) = cursor_hash chain k.
Proof. intros Hl Hk. rewrite (linked_from_lookup _ _ _ _ Hl Hk). by destruct k. Qed.

Section SyncFacts.
Context `{AuditLog L}.
Implicit Types (s : DB L).
Context (sch : string) (reader : JsonActionReader) (isReplay : bool) (hv : string)
  (mk : Block → Accessor → Context → Prog unit).
Context (Hnum : well_numbered (blockchain reader))
  (Hlinked : linked_from "" (blockchain reader) = true)
  (Huser : ∀ b a c, user_prog (mk b a c))
  (Hreturns : ∀ b a c t s, (run t (mk b a c) s).1 = Ok tt).

Local Abbreviation chain := (blockchain reader).
Local Abbreviation hdl := (MassiveActionHandler_new sch).

(** The cursor the loop reads after [k] blocks. *)
Lemma sync_inv_cursor k s :
  sync_inv sch chain isReplay hv k s →
  MigrationIndexState.blockNumber (loadIndexState hdl s) = Z.of_nat k ∧
  MigrationIndexState.blockHash (loadIndexState hdl s) = cursor_hash chain k.
Proof.
  intros [[(-> & Hnone & _)|(j & b & -> & Hb & Hrow)] _ _].
  - rewrite loadIndexState_absent; [done|].
    unfold table_key; simpl. by rewrite select_accessor_schema.
  - rewrite (loadIndexState_cursor_row _ _ _ _ _ Hrow). simpl. rewrite Hb.
    split; [|done]. pose proof (Hnum _ _ Hb). unfold block_number_of in *. lia.
Qed.

(** Block [k + 1] continues the cursor after [k] blocks. *)
Lemma sync_inv_choose k s b :
  sync_inv sch chain isReplay hv k s → chain !! k = Some b →
  choose (loadIndexState hdl s) b = DApply.
Proof.
  intros Hinv Hb. destruct (sync_inv_cursor k s Hinv) as [Hn Hh].
  unfold choose. rewrite bool_decide_true; [done|]. split.
  - rewrite Hn. pose proof (Hnum _ _ Hb). unfold block_number_of in *. lia.
  - rewrite Hh. apply (linked_cursor_hash _ _ _ Hlinked Hb).
Qed.

(** Block [k + 1] commits and the loop state advances to [k + 1]. *)
Lemma sync_inv_step k s b :
  sync_inv sch chain isReplay hv k s → chain !! k = Some b →
  ∃ s', applyBlock hdl b isReplay hv (mk b) false s = (Ok tt, s') ∧
        sync_inv sch chain isReplay hv (S k) s'.
Proof.
  intros [Hcur Hfresh Hrec] Hb. pose proof (Hnum _ _ Hb) as Hbn. unfold block_number_of in Hbn.
  assert (is_Some (db_store s !! (sch, index_state_table, 1)) ∨
          seq_next (sch, index_state_table) s = 1) as Hslot.
  { destruct Hcur as [(_ & _ & Hseq)|(? & ? & _ & _ & Hrow)]; [by right|left; by eexists]. }
  destruct (applyBlock_progress sch b isReplay hv (mk b) s
              (run (db_next_txid s) (mk b (select_accessor sch) {| txid := db_next_txid s |})
                 (begin_tx s)).2) as [s' Happ]; [done|apply pair_eq_of_fst, Hreturns|..].
  { apply Hfresh. lia. }
  { destruct Hcur as [(_ & Hnone & Hseq)|(? & ? & _ & _ & Hrow)]; [right|left; by eexists].
    by rewrite Hseq. }
  exists s'. split; [done|]. split.
  - right. exists k, b. split_and!; [done|done|].
    by apply (applyBlock_cursor_row sch b isReplay hv (mk b) s s').
  - intros n Hn. rewrite (applyBlock_block_txid sch b isReplay hv (mk b) s s'
                            (sch, block_txid_table, n)) by done.
    rewrite decide_False by (intros [=]; lia). apply Hfresh. lia.
  - intros n Hn. rewrite (applyBlock_block_txid sch b isReplay hv (mk b) s s'
                            (sch, block_txid_table, n)) by done.
    case_decide as E; [by eexists|]. apply Hrec.
    assert (n ≠ Z.of_nat k + 1) by (intros ->; apply E; f_equal; lia). lia.
Qed.

(** The loop from [k] blocks: it ends normally when the fuel covers the
    remaining blocks and runs out otherwise, having applied as many
    blocks as it had fuel for. *)
Lemma sync_loop fuel k s :
  chain ≠ [] → sync_inv sch chain isReplay hv k s → (k <= length chain)%nat →
  ∃ s', sync fuel hdl isReplay hv reader mk [] s =
          (if decide (length chain - k <= fuel)%nat then Ok tt else Throw SyncOutOfFuel, s') ∧
        sync_inv sch chain isReplay hv (Nat.min (length chain) (k + fuel)) s'.
Proof.
  intros Hne. revert k s. induction fuel as [|fuel IH]; intros k s Hinv Hk;
    cbn [sync]; rewrite getHeadBlockNumber_well_numbered by done;
    destruct (sync_inv_cursor k s Hinv) as [-> _].
  - exists s. replace (Nat.min (length chain) (k + 0)) with k by lia.
    case_decide; [rewrite decide_True by lia|rewrite decide_False by lia]; done.
  - case_decide as Hdone.
    { exists s. rewrite decide_True by lia.
      replace (Nat.min (length chain) (k + S fuel)) with k by lia. done. }
    destruct (getBlock_in_range reader (Z.of_nat k + 1)) as (b & -> & Hb); [done|lia|].
    replace (Z.to_nat (Z.of_nat k + 1 - 1)) with k in Hb by lia.
    destruct (sync_inv_step k s b Hinv Hb) as (s1 & Happ & Hinv1).
    unfold driver_step; cbn [List.hd List.tl]. rewrite (sync_inv_choose k s b Hinv Hb), Happ.
    destruct (IH (S k) s1 Hinv1) as (s' & -> & Hinv'); [lia|].
    exists s'. replace (k + S fuel)%nat with (S k + fuel)%nat by lia. split; [|done].
    f_equal. do 2 case_decide; done || lia.
Qed.

(** The loop state after [k ≠ 0] blocks depends on the tables only. *)
Lemma sync_inv_same_store k s s1 :
  k ≠ 0%nat → db_store s1 = db_store s →
  sync_inv sch chain isReplay hv k s → sync_inv sch chain isReplay hv k s1.
Proof. intros Hk Hst [[(? & _)|Hc] Hf Hr]; [done|]. split; rewrite Hst; auto. Qed.

(** Block [k + 1] aborted by a conflict leaves the loop state at [k],
    once the cursor row exists. *)
Lemma sync_inv_conflict k s b :
  k ≠ 0%nat → sync_inv sch chain isReplay hv k s → chain !! k = Some b →
  ∃ s1, applyBlock hdl b isReplay hv (mk b) true s = (Throw ErrConflict, s1) ∧
        sync_inv sch chain isReplay hv k s1.
Proof.
  intros Hk Hinv Hb. destruct (sync_inv_step k s b Hinv Hb) as (s' & Happ & _).
  exists (abort_tx s s'). split; [by apply applyBlock_conflict|].
  by apply (sync_inv_same_store k s (abort_tx s s')).
Qed.

(** The loop with retries: after the first block, each round commits the
    next block or is aborted by a conflict of the schedule, so fuel for
    the remaining blocks plus the conflicts is enough. *)
Lemma sync_loop_retry fuel k s cs :
  chain ≠ [] → sync_inv sch chain isReplay hv k s → (k <= length chain)%nat →
  (k = 0%nat → List.hd false cs = false) →
  (length chain - k + conflict_count cs <= fuel)%nat →
  ∃ s', sync fuel hdl isReplay hv reader mk cs s = (Ok tt, s') ∧
        sync_inv sch chain isReplay hv (length chain) s'.
Proof.
  intros Hne. revert k s cs. induction fuel as [|fuel IH]; intros k s cs Hinv Hk H0 Hfuel;
    cbn [sync]; rewrite getHeadBlockNumber_well_numbered by done;
    destruct (sync_inv_cursor k s Hinv) as [-> _].
  { rewrite decide_True by lia. exists s. by replace (length chain) with k by lia. }
  case_decide as Hdone; [exists s; by replace (length chain) with k by lia|].
  destruct (getBlock_in_range reader (Z.of_nat k + 1)) as (b & -> & Hb); [done|lia|].
  replace (Z.to_nat (Z.of_nat k + 1 - 1)) with k in Hb by lia.
  unfold driver_step, conflict_count in *. rewrite (sync_inv_choose k s b Hinv Hb).
  destruct cs as [|[] cs]; cbn [List.hd List.tl] in *.
  - destruct (sync_inv_step k s b Hinv Hb) as (s1 & -> & Hinv1).
    apply (IH (S k)); simpl in *; auto with lia.
  - rewrite filter_cons_True in Hfuel by done. simpl in Hfuel.
    destruct (sync_inv_conflict k s b) as (s1 & -> & Hinv1); [naive_solver|done|done|].
    apply (IH k); auto with lia; naive_solver.
  - rewrite filter_cons_False in Hfuel by done.
    destruct (sync_inv_step k s b Hinv Hb) as (s1 & -> & Hinv1).
    apply (IH (S k)); auto with lia.
Qed.

(** With the cursor lost, every round offers block 1 again. *)
Lemma lost_choose s b :
  cursor_lost sch s → chain !! 0%nat = Some b → choose (loadIndexState hdl s) b = DApply.
Proof.
  intros [Hnone _] Hb. rewrite loadIndexState_absent
    by (unfold table_key; simpl; by rewrite select_accessor_schema).
  unfold choose. rewrite bool_decide_true; [done|]. simpl. split.
  - pose proof (Hnum _ _ Hb). unfold block_number_of in *. lia.
  - apply (linked_cursor_hash _ _ _ Hlinked Hb).
Qed.

(** Once the cursor is lost, the loop never returns normally, whatever
    the fuel and the conflicts, and the cursor stays lost. *)
Lemma sync_lost_loop fuel cs s :
  chain ≠ [] → cursor_lost sch s →
  (sync fuel hdl isReplay hv reader mk cs s).1 ≠ Ok tt ∧
  cursor_lost sch (sync fuel hdl isReplay hv reader mk cs s).2.
Proof.
  intros Hne. revert cs s. induction fuel as [|fuel IH]; intros cs s Hlost;
    cbn [sync]; rewrite getHeadBlockNumber_well_numbered by done;
    rewrite (loadIndexState_absent hdl s)
      by (unfold table_key; simpl; rewrite select_accessor_schema; apply Hlost);
    simpl; (rewrite decide_False; [|destruct chain; [done|simpl; lia]]); [done|].
  destruct (getBlock_in_range reader (0 + 1)) as (b & -> & Hb); [done|destruct chain; [done|simpl; lia]|].
  unfold driver_step. rewrite (lost_choose s b Hlost Hb).
  pose proof (applyBlock_cursor_lost sch b isReplay hv (mk b) (List.hd false cs) s (Huser b) Hlost)
    as Hlost1.
  destruct (applyBlock hdl b isReplay hv (mk b) (List.hd false cs) s) as [[[]|[]] s1];
    simpl in *; auto.
Qed.

(** After all the blocks the cursor is the last block's. *)
Lemma sync_inv_last s :
  chain ≠ [] → sync_inv sch chain isReplay hv (length chain) s →
  ∃ b, last chain = Some b ∧
       loadIndexState hdl s = cursor_of (blockNumber (blockInfo b)) (blockHash (blockInfo b)) hv isReplay.
Proof.
  intros Hne [[(Hlen & _)|(j & b & Hlen & Hb & Hrow)] _ _].
  { by apply length_zero_iff_nil in Hlen. }
  exists b. split; [|by apply loadIndexState_cursor_row].
  rewrite last_lookup, Hlen. done.
Qed.
End SyncFacts.

Lemma sync_inv_start `{AuditLog L} sch chain r hv (s : DB L) :
  bookkeeping_empty sch s → sync_inv sch chain r hv 0 s.
Proof. intros (Hnone & Hseq & Hbt). split; [left; done|intros n _; apply Hbt|lia]. Qed.

(** C11: Termination of the indexing loop, with retries: from a schema
    with empty bookkeeping, on a non-empty well-numbered chain whose
    blocks link by hash, with callbacks that leave the bookkeeping alone
    and return normally, and a schedule of serialization failures whose
    first round has none, [sync] returns normally when its fuel covers
    one round per block plus one per conflict, and the cursor it leaves
    is the last block's number and hash with the flags passed in. *)
Theorem sync_terminates `{AuditLog L} sch reader r hv mk conflicts fuel (s : DB L) :
  well_numbered (blockchain reader) → linked_from "" (blockchain reader) = true →
  (∀ b a c, user_prog (mk b a c)) → (∀ b a c t s, (run t (mk b a c) s).1 = Ok tt) →
  blockchain reader ≠ [] → bookkeeping_empty sch s → List.hd false conflicts = false →
  (length (blockchain reader) + conflict_count conflicts <= fuel)%nat →
  ∃ s' b, last (blockchain reader) = Some b ∧
          sync fuel (MassiveActionHandler_new sch) r hv reader mk conflicts s = (Ok tt, s') ∧
          loadIndexState (MassiveActionHandler_new sch) s' =
            cursor_of (blockNumber (blockInfo b)) (blockHash (blockInfo b)) hv r.
Proof.
  intros Hw Hl Hu Hr Hne Hs Hc Hfuel.
  destruct (sync_loop_retry sch reader r hv mk Hw Hl Hu Hr fuel 0 s conflicts Hne)
    as (s' & Hsync & Hinv); [by apply sync_inv_start|lia|done|lia|].
  destruct (sync_inv_last sch reader r hv s' Hne Hinv) as (b & Hb & Hload).
  by exists s', b.
Qed.

(** C12: The fuel bound is tight: with fewer units of fuel than blocks,
    [sync] reports [SyncOutOfFuel] (never a normal return), after
    committing exactly as many blocks as it had fuel: the cursor stands at
    block [fuel]. *)
Theorem sync_out_of_fuel `{AuditLog L} sch reader r hv mk fuel (s : DB L) :
  well_numbered (blockchain reader) → linked_from "" (blockchain reader) = true →
  (∀ b a c, user_prog (mk b a c)) → (∀ b a c t s, (run t (mk b a c) s).1 = Ok tt) →
  bookkeeping_empty sch s → (fuel < length (blockchain reader))%nat →
  ∃ s', sync fuel (MassiveActionHandler_new sch) r hv reader mk [] s = (Throw SyncOutOfFuel, s') ∧
        MigrationIndexState.blockNumber (loadIndexState (MassiveActionHandler_new sch) s') =
          Z.of_nat fuel.
Proof.
  intros Hw Hl Hu Hr Hs Hfuel.
  destruct (sync_loop sch reader r hv mk Hw Hl Hu Hr fuel 0 s) as (s' & Hsync & Hinv);
    [intros E; rewrite E in Hfuel; simpl in Hfuel; lia|by apply sync_inv_start|lia|].
  rewrite decide_False in Hsync by lia.
  replace (Nat.min (length (blockchain reader)) (0 + fuel)) with fuel in Hinv by lia.
  exists s'. split; [done|]. apply (sync_inv_cursor sch reader r hv Hw _ _ Hinv).
Qed.

(** C14: Spec §3's invariant on [_block_number_txid], for the indexing
    loop: whatever the fuel, from a schema with empty bookkeeping on a
    non-empty well-numbered chain linked by hash, with callbacks that leave
    the bookkeeping alone and return normally, the blocks recorded after
    [sync] are exactly [1 .. n] for the block [n] of the cursor it leaves:
    contiguous from the first block, with no hole and nothing beyond the
    cursor. *)
Theorem sync_block_txid_contiguous `{AuditLog L} sch reader r hv mk fuel (s : DB L) :
  well_numbered (blockchain reader) → linked_from "" (blockchain reader) = true →
  (∀ b a c, user_prog (mk b a c)) → (∀ b a c t s, (run t (mk b a c) s).1 = Ok tt) →
  blockchain reader ≠ [] → bookkeeping_empty sch s →
  ∀ n, is_Some (db_store (sync fuel (MassiveActionHandler_new sch) r hv reader mk [] s).2
                  !! (sch, block_txid_table, n)) ↔
       1 <= n <= MigrationIndexState.blockNumber
                   (loadIndexState (MassiveActionHandler_new sch)
                      (sync fuel (MassiveActionHandler_new sch) r hv reader mk [] s).2).
Proof.
  intros Hw Hl Hu Hr Hne Hs n.
  destruct (sync_loop sch reader r hv mk Hw Hl Hu Hr fuel 0 s Hne) as (s' & -> & Hinv);
    [by apply sync_inv_start|lia|]. cbn [snd].
  rewrite (proj1 (sync_inv_cursor sch reader r hv Hw _ _ Hinv)).
  destruct (decide (1 <= n <= Z.of_nat (Nat.min (length (blockchain reader)) (0 + fuel))));
    [split; intros; [done|by apply (si_recorded _ _ _ _ _ _ Hinv)]|].
  rewrite (si_fresh _ _ _ _ _ _ Hinv n) by done. split; [by intros []|done || tauto].
Qed.

(** C13: Finding, in general: the retry the spec prescribes for a
    serialization failure (§7) cannot recover from one on the very first
    block.  From a schema with empty bookkeeping, on a non-empty
    well-numbered chain linked by hash, with callbacks that leave the
    bookkeeping alone and return normally, whenever the first round's
    transaction fails to serialize, the loop never returns normally,
    whatever the fuel and the later conflicts, and the cursor it leaves is
    the bootstrap one.  The aborted transaction drew id 1 from the
    [_index_state] sequence, so every cursor written afterwards gets an id
    [loadIndexState] never reads. *)
Theorem sync_conflict_on_first_block `{AuditLog L} sch reader r hv mk conflicts fuel (s : DB L) :
  well_numbered (blockchain reader) → linked_from "" (blockchain reader) = true →
  (∀ b a c, user_prog (mk b a c)) → (∀ b a c t s, (run t (mk b a c) s).1 = Ok tt) →
  blockchain reader ≠ [] → bookkeeping_empty sch s → List.hd false conflicts = true →
  (sync fuel (MassiveActionHandler_new sch) r hv reader mk conflicts s).1 ≠ Ok tt ∧
  loadIndexState (MassiveActionHandler_new sch)
    (sync fuel (MassiveActionHandler_new sch) r hv reader mk conflicts s).2 = cursor_of 0 "" "v1" false.
Proof.
  intros Hw Hl Hu Hr Hne Hs Hc.
  cut ((sync fuel (MassiveActionHandler_new sch) r hv reader mk conflicts s).1 ≠ Ok tt ∧
       cursor_lost sch (sync fuel (MassiveActionHandler_new sch) r hv reader mk conflicts s).2 ∨
       (sync fuel (MassiveActionHandler_new sch) r hv reader mk conflicts s) = (Throw SyncOutOfFuel, s)).
  { intros [[Hok [Hnone _]]| ->]; (split; [done|apply loadIndexState_absent]);
      unfold table_key; simpl; rewrite select_accessor_schema; [done|apply Hs]. }
  pose proof (sync_inv_start sch (blockchain reader) r hv s Hs) as Hinv.
  assert (0 < length (blockchain reader))%nat as Hlen
    by (destruct (blockchain reader); [done|simpl; lia]).
  destruct fuel as [|fuel]; cbn [sync]; rewrite getHeadBlockNumber_well_numbered by done;
    rewrite (proj1 (sync_inv_cursor sch reader r hv Hw 0 s Hinv));
    rewrite decide_False by lia; [by right|left].
  destruct (getBlock_in_range reader (Z.of_nat 0 + 1)) as (b & -> & Hb); [done|lia|].
  replace (Z.to_nat (Z.of_nat 0 + 1 - 1)) with 0%nat in Hb by lia.
  destruct (sync_inv_step sch reader r hv mk Hw Hu Hr 0 s b Hinv Hb) as (s' & Happ & _).
  unfold driver_step. rewrite (sync_inv_choose sch reader r hv Hw Hl 0 s b Hinv Hb).
  rewrite Hc, (applyBlock_conflict _ _ _ _ _ _ _ Happ).
  apply (sync_lost_loop sch reader r hv mk Hw Hl Hu); [done|].
  destruct Hs as (Hnone & Hseq & _). split; [done|].
  unfold seq_next, abort_tx in *; simpl.
  pose proof (applyBlock_commit_seq sch b r hv (mk b) s s' (Hu b) Hnone Happ) as Hs'.
  unfold seq_next in Hs'. lia.
Qed.

(** ** At concrete inputs *)

Import EventList Fixtures.

(** An updater in the style of demux's: it records the block's hash in
    the row of its number in [blocks], updating a row already there. *)
Definition record_block (b : Block) (a : Accessor) (_ : Context) : Prog unit :=
  let key := table_key a "blocks" (blockNumber (blockInfo b)) in
  PFind key (λ o,
    match o with
    | Some _ => PUpdate key (RData (blockHash (blockInfo b))) (λ _, PRet tt)
    | None => insert_row key (RData (blockHash (blockInfo b)))
    end).

Lemma record_block_user b a c : user_prog (record_block b a c).
Proof. constructor. intros [?|]; repeat constructor. Qed.

Lemma record_block_returns b a c t (s : DB log) : (run t (record_block b a c) s).1 = Ok tt.
Proof. unfold record_block. simpl. destruct (db_store s !! _) eqn:E; simpl; by rewrite ?E. Qed.

(** A linked chain of three blocks. *)
Definition chain3 : JsonActionReader :=
  JsonActionReader_new [cblk 1 "a" ""; cblk 2 "b" "a"; cblk 3 "c" "b"].

Lemma chain3_well_numbered : well_numbered (blockchain chain3).
Proof. intros i b Hb. do 3 (destruct i as [|i]; [by injection Hb as <-|]). done. Qed.

Lemma db0_bookkeeping_empty : bookkeeping_empty "public" db0.
Proof. split_and!; [reflexivity|reflexivity|intros n; apply lookup_empty]. Qed.

Lemma sync_terminates_witness :
  ∃ s' b, last (blockchain chain3) = Some b ∧
          sync 5 h false "v1" chain3 record_block [false; true; true] db0 = (Ok tt, s') ∧
          loadIndexState h s' = cursor_of (blockNumber (blockInfo b)) (blockHash (blockInfo b)) "v1" false.
Proof.
  apply (sync_terminates "public" chain3 false "v1" record_block [false; true; true] 5 db0).
  - apply chain3_well_numbered.
  - reflexivity.
  - apply record_block_user.
  - apply record_block_returns.
  - discriminate.
  - apply db0_bookkeeping_empty.
  - reflexivity.
  - vm_compute. lia.
Defined.

Lemma sync_out_of_fuel_witness :
  ∃ s', sync 2 h false "v1" chain3 record_block [] db0 = (Throw SyncOutOfFuel, s') ∧
        MigrationIndexState.blockNumber (loadIndexState h s') = Z.of_nat 2.
Proof.
  apply (sync_out_of_fuel "public" chain3 false "v1" record_block 2 db0).
  - apply chain3_well_numbered.
  - reflexivity.
  - apply record_block_user.
  - apply record_block_returns.
  - apply db0_bookkeeping_empty.
  - simpl. lia.
Defined.

Lemma sync_block_txid_contiguous_witness :
  is_Some (db_store (sync 2 h false "v1" chain3 record_block [] db0).2 !! ("public", block_txid_table, 2)) ↔
  1 <= 2 <= MigrationIndexState.blockNumber (loadIndexState h (sync 2 h false "v1" chain3 record_block [] db0).2).
Proof.
  apply (sync_block_txid_contiguous "public" chain3 false "v1" record_block 2 db0).
  - apply chain3_well_numbered.
  - reflexivity.
  - apply record_block_user.
  - apply record_block_returns.
  - discriminate.
  - apply db0_bookkeeping_empty.
Defined.

Lemma sync_conflict_on_first_block_witness :
  (sync 10 h false "v1" chain3 record_block [true] db0).1 ≠ Ok tt ∧
  loadIndexState h (sync 10 h false "v1" chain3 record_block [true] db0).2 = cursor_of 0 "" "v1" false.
Proof.
  apply (sync_conflict_on_first_block "public" chain3 false "v1" record_block [true] 10 db0).
  - apply chain3_well_numbered.
  - reflexivity.
  - apply record_block_user.
  - apply record_block_returns.
  - discriminate.
  - apply db0_bookkeeping_empty.
  - reflexivity.
Defined.
